(** * sqsfill: batch delivery and work partitioning

    A shallow embedding of [cmd/sqsfill] (the second program of
    [sqsattr.go]): message generation, batch assembly, the serial loop
    [fillSerially], the worker loop [fillSection] and the fan-out and
    collection loops of [fillConcurrent].

    Go's [int] is taken at its 64-bit width; every arithmetic operation
    of the source is written with its wrap-around.  The queue client, the
    clock and the random source are external: they are oracles of an
    environment [Env], and everything the program does to the outside
    (batches handed to the queue, lines printed) is recorded in a
    [World]. *)

From Stdlib Require Import ZArith List String Ascii Bool Lia Permutation Sorted Zpower.
From Stdlib Require Import DecimalString DecimalZ DecimalPos.
From Stdlib Require Import Floats.SpecFloat.
Import ListNotations.

Local Open Scope Z_scope.

(* ------------------------------------------------------------------ *)
(** ** Go [int] *)

Module GoInt.

Definition int_min : Z := - 2 ^ 63.
Definition int_max : Z := 2 ^ 63 - 1.

(** Two's complement wrap-around of a mathematical integer. *)
Definition wrap (z : Z) : Z := (z + 2 ^ 63) mod 2 ^ 64 - 2 ^ 63.

Definition in_range (z : Z) : Prop := int_min <= z <= int_max.

Definition add (a b : Z) : Z := wrap (a + b).
Definition sub (a b : Z) : Z := wrap (a - b).
Definition mul (a b : Z) : Z := wrap (a * b).
(** [a % b]: the remainder has the sign of the dividend. *)
Definition rem (a b : Z) : Z := wrap (Z.rem a b).

End GoInt.

(* ------------------------------------------------------------------ *)
(** ** Go [float64]

    IEEE 754 binary64 through the standard library's executable
    specification [SpecFloat].  Only what [fillConcurrent] uses is here:
    the conversion of an [int], the division, [math.Ceil] and the
    conversion back to [int]. *)

Module GoFloat.

Definition prec : Z := 53.
Definition emax : Z := 1024.

(** [float64(z)] for an [int] [z]: rounded to nearest, ties to even. *)
Definition of_int (z : Z) : spec_float := binary_normalize prec emax z 0 false.

(** [x / y] *)
Definition div (x y : spec_float) : spec_float := SFdiv prec emax x y.

(** [math.Ceil(x)]: the least integral value not below [x]; zeros,
    infinities and NaN are returned as they are. *)
Definition Ceil (x : spec_float) : spec_float :=
  match x with
  | S754_finite s m e =>
      if 0 <=? e then x
      else
        let n := if s then - (Zpos m / 2 ^ (- e))
                 else - (Zneg m / 2 ^ (- e)) in
        binary_normalize prec emax n 0 s
  | _ => x
  end.

(** [int(x)]: truncation towards zero.  Where the value does not fit
    the result is implementation-dependent; amd64 gives the least
    [int], which is what is written here. *)
Definition to_int (x : spec_float) : Z :=
  match x with
  | S754_zero _ => 0
  | S754_finite s m e =>
      let a := if 0 <=? e then Zpos m * 2 ^ e else Zpos m / 2 ^ (- e) in
      let v := if s then - a else a in
      if (GoInt.int_min <=? v) && (v <=? GoInt.int_max) then v
      else GoInt.int_min
  | _ => GoInt.int_min
  end.

End GoFloat.

(* ------------------------------------------------------------------ *)
(** ** Constants of the program *)

Definition defaultCount : Z := 1000.
Definition interval : Z := 1000.
Definition sqsBatchSize : Z := 10.
Definition defaultMsgTmpl : string := "Message_Body".

(* ------------------------------------------------------------------ *)
(** ** Messages, the outside world *)

(** The two fields of [sqs.Message] that [genMessage] sets. *)
Record Message : Type := mkMessage {
  MessageId : string;
  Body : string
}.

Definition Batch : Type := list Message.

(** [len] of a slice, as a Go [int]. *)
Definition len {A : Type} (l : list A) : Z := Z.of_nat (List.length l).

(** One call of [queue.SendMessageBatch]: the batch and whether the call
    came back with a non-nil error. *)
Record Attempt : Type := mkAttempt {
  att_batch : Batch;
  att_failed : bool
}.

(** Lines written to standard output. *)
Inductive Line : Type :=
| ErrLine                                   (* "Error sending message batch: ..." *)
| Progress (n : Z)                          (* "<n> messages sent" *)
| WorkerLine (id count total : Z).          (* "[worker id] sent count messages; total: total" *)

(** The environment a thread of control runs against.  [clock k] and
    [rnd k] answer the [k]-th call of [genMessage]; [send_fails h b]
    tells whether [SendMessageBatch b] fails after the attempts [h].
    [make_max] is the longest [[]sqs.Message] that [make] gives on the
    machine: beyond it the runtime stops the program (a length out of
    range, or no memory left).  It is an [int], and the machines
    considered have room for one full batch. *)
Record Env : Type := mkEnv {
  clock : nat -> Z;
  rnd : nat -> Z;
  send_fails : list Attempt -> Batch -> bool;
  msgBodyTmpl : string;
  make_max : Z;
  make_max_batch : sqsBatchSize <= make_max;
  make_max_int : make_max <= GoInt.int_max
}.

(** What one thread of control has done so far, oldest first. *)
Record World : Type := mkWorld {
  draws : nat;
  wire : list Attempt;
  console : list Line
}.

Definition w0 : World := mkWorld 0 [] [].

(* ------------------------------------------------------------------ *)
(** ** A monad for state, panics and fuel *)

Inductive outcome (A : Type) : Type :=
| Ret (a : A) (w : World)
| Panic (w : World)
| OutOfFuel (w : World).
Arguments Ret {A} a w.
Arguments Panic {A} w.
Arguments OutOfFuel {A} w.

Definition M (A : Type) : Type := World -> outcome A.

Definition ret {A} (a : A) : M A := fun w => Ret a w.

Definition bind {A B} (m : M A) (k : A -> M B) : M B :=
  fun w => match m w with
           | Ret a w' => k a w'
           | Panic w' => Panic w'
           | OutOfFuel w' => OutOfFuel w'
           end.

Declare Scope go_scope.
Delimit Scope go_scope with go.
Notation "x <- m ;; k" := (bind m (fun x => k))
  (at level 100, m at next level, right associativity) : go_scope.
Notation "m ;;; k" := (bind m (fun _ => k))
  (at level 100, right associativity) : go_scope.

Definition panic {A} : M A := fun w => Panic w.
Definition out_of_fuel {A} : M A := fun w => OutOfFuel w.

Definition Println (l : Line) : M unit :=
  fun w => Ret tt (mkWorld (draws w) (wire w) (console w ++ [l])).

(* ------------------------------------------------------------------ *)
(** ** The program *)

Section Program.

Variable E : Env.

Local Open Scope go_scope.

(** [strconv.FormatInt(z, 10)] and [strconv.Itoa]. *)
Definition FormatInt (z : Z) : string := NilZero.string_of_int (Z.to_int z).

(** [time.Now().UnixNano()] and [rand.Intn(n)] for the current draw. *)
Definition UnixNano : M Z := fun w => Ret (clock E (draws w)) w.
Definition Intn (n : Z) : M Z := fun w => Ret (rnd E (draws w) mod n)%Z w.
Definition next_draw : M unit :=
  fun w => Ret tt (mkWorld (S (draws w)) (wire w) (console w)).

(** [queue.SendMessageBatch(batch)]; the result is [err != nil]. *)
Definition SendMessageBatch (batch : Batch) : M bool :=
  fun w => let failed := send_fails E (wire w) batch in
           Ret failed (mkWorld (draws w) (wire w ++ [mkAttempt batch failed]) (console w)).

(** [genMessage(buf)]: the buffer comes in with contents [buf] and is
    reset on return (the deferred [buf.Reset()]). *)
Definition genMessage (buf : string) : M (Message * string) :=
  let buf := (buf ++ "ID_")%string in
  now <- UnixNano ;;
  let buf := (buf ++ FormatInt now)%string in
  let buf := (buf ++ "_")%string in
  r <- Intn 1000 ;;
  let buf := (buf ++ FormatInt r)%string in
  let mID := buf in
  let buf := (buf ++ " ")%string in
  let buf := (buf ++ msgBodyTmpl E)%string in
  next_draw ;;;
  ret (mkMessage mID buf, ""%string).

(** The [range] loop of [genMessageBatch], for [n] remaining slots. *)
Fixpoint genMessages (n : nat) (buf : string) : M Batch :=
  match n with
  | O => ret []
  | S n' =>
      mb <- genMessage buf ;;
      rest <- genMessages n' (snd mb) ;;
      ret (fst mb :: rest)
  end.

(** [genMessageBatch(batchSize)]; [make] panics on a negative length
    and on a length beyond [make_max E]. *)
Definition genMessageBatch (batchSize : Z) : M Batch :=
  if (batchSize <? 0) || (make_max E <? batchSize) then panic
  else genMessages (Z.to_nat batchSize) ""%string.

(** One iteration of the loop of [fillSection]; the result is the new
    value of [sent]. *)
Definition fillSection_body (msgCount sent : Z) : M Z :=
  let batchSize :=
    if GoInt.sub msgCount sent <? sqsBatchSize
    then GoInt.sub msgCount sent
    else sqsBatchSize in
  batch <- genMessageBatch batchSize ;;
  err <- SendMessageBatch batch ;;
  (if err then Println ErrLine else ret tt) ;;;
  ret (GoInt.add sent (len batch)).

(** [for sent < msgCount { ... }] *)
Fixpoint fillSection_loop (fuel : nat) (msgCount sent : Z) : M Z :=
  if sent <? msgCount then
    match fuel with
    | O => out_of_fuel
    | S fuel' =>
        sent' <- fillSection_body msgCount sent ;;
        fillSection_loop fuel' msgCount sent'
    end
  else ret sent.

End Program.

(** The value sent over the report channel. *)
Record partial : Type := mkPartial {
  id : Z;
  count : Z
}.

Local Open Scope go_scope.

(** [fillSection(id, msgCount, reportCh)]: the result is the [partial]
    the worker puts on [reportCh]. *)
Definition fillSection (E : Env) (fuel : nat) (id msgCount : Z) : M partial :=
  sent <- fillSection_loop E fuel msgCount 0 ;;
  ret (mkPartial id sent).

(** ** Serial mode *)

Section Serial.

Variable E : Env.

(** One iteration of the loop of [fillSerially]; the result is the new
    value of the global [count]. *)
Definition fillSerially_body (total count : Z) : M Z :=
  let batchSize :=
    if negb (GoInt.rem count sqsBatchSize =? 0)
    then GoInt.rem count sqsBatchSize
    else sqsBatchSize in
  batch <- genMessageBatch E batchSize ;;
  err <- SendMessageBatch E batch ;;
  (if err then Println ErrLine else ret tt) ;;;
  let count := GoInt.sub count (len batch) in
  (if GoInt.rem count 1000 =? 0
   then Println (Progress (GoInt.sub total count))
   else ret tt) ;;;
  ret count.

(** [for count > 0 { ... }] *)
Fixpoint fillSerially_loop (fuel : nat) (total count : Z) : M Z :=
  if count >? 0 then
    match fuel with
    | O => out_of_fuel
    | S fuel' =>
        count' <- fillSerially_body total count ;;
        fillSerially_loop fuel' total count'
    end
  else ret count.

(** [fillSerially()], started with the global [count] at [count]; the
    result is the value of the global when the function returns. *)
Definition fillSerially (fuel : nat) (count : Z) : M Z :=
  let total := count in
  fillSerially_loop fuel total count.

End Serial.

(** ** Concurrent mode *)

(** [int(math.Ceil(float64(count) / float64(interval)))] *)
Definition workers_of (count : Z) : Z :=
  GoFloat.to_int
    (GoFloat.Ceil (GoFloat.div (GoFloat.of_int count) (GoFloat.of_int interval))).

(** The first loop of [fillConcurrent], with [n] iterations to go from
    index [i]: the arguments [(i+1, numMsgs)] of every [go fillSection]
    statement, in launch order. *)
Fixpoint spawn_loop (n : nat) (count i : Z) : list (Z * Z) :=
  match n with
  | O => []
  | S n' =>
      let numMsgs :=
        if GoInt.sub count (GoInt.mul i interval) <? interval
        then GoInt.sub count (GoInt.mul i interval)
        else interval in
      (GoInt.add i 1, numMsgs) :: spawn_loop n' count (GoInt.add i 1)
  end.

Definition spawn (count : Z) : list (Z * Z) :=
  spawn_loop (Z.to_nat (workers_of count)) count 0.

(** The second loop of [fillConcurrent], over the values received from
    [countCh] in the order they arrive. *)
Fixpoint collect (received : list partial) (total : Z) : M Z :=
  match received with
  | [] => ret total
  | chunk :: rest =>
      let total := GoInt.add total (count chunk) in
      Println (WorkerLine (id chunk) (count chunk) total) ;;;
      collect rest total
  end.

(** The goroutines of a fan-out, one per launched unit: each runs
    [fillSection] from an empty world of its own, against its own view
    [envs id] of the clock, the random source and the queue, and ends
    with the report it puts on [countCh] and its final world. *)
Definition worker_runs (envs : Z -> Env) (fuel : nat)
  (units : list (Z * Z)) (finals : list (partial * World)) : Prop :=
  Forall2 (fun u f => fillSection (envs (fst u)) fuel (fst u) (snd u) w0
                      = Ret (fst f) (snd f)) units finals.

(** A run of [fillConcurrent()] with the global [count] at [count].
    Every launched goroutine runs to its report; the scheduler decides
    the order in which the reports reach the collecting loop, which is
    any permutation of them.  The result is the final [total] together
    with the lines of the collecting loop. *)
Inductive fillConcurrent_run (envs : Z -> Env) (fuel : nat) (count : Z)
  : list (partial * World) -> outcome Z -> Prop :=
| FillConcurrent_run : forall finals received,
    worker_runs envs fuel (spawn count) finals ->
    Permutation received (map fst finals) ->
    fillConcurrent_run envs fuel count finals (collect received 0 w0).

(** ** Observations on a world *)

Definition sum (l : list Z) : Z := fold_right Z.add 0 l.

(** Lengths of the batches handed to the queue, oldest first. *)
Definition batch_sizes (w : World) : list Z :=
  map (fun a => len (att_batch a)) (wire w).

(** Messages handed to the queue, and messages the queue accepted. *)
Definition submitted (w : World) : Z := sum (batch_sizes w).
Definition delivered (w : World) : Z :=
  sum (map (fun a => if att_failed a then 0 else len (att_batch a)) (wire w)).

(** Running totals printed by the collecting loop. *)
Definition totals (w : World) : list Z :=
  flat_map (fun l => match l with WorkerLine _ _ t => [t] | _ => [] end)
           (console w).

(* ------------------------------------------------------------------ *)
(** ** Vocabulary of the statements *)

(** Failed attempts on the wire, and the invariant tying the console of a
    worker to them: one error line per failed attempt, nothing else. *)
Definition failures (w : World) : nat :=
  List.length (filter att_failed (wire w)).

Definition logged (w : World) : Prop := console w = repeat ErrLine (failures w).

(** Every answer recorded on the wire is one the queue of [E] gave. *)
Definition answered_by (E : Env) (w : World) : Prop :=
  Forall (fun a => exists h, att_failed a = send_fails E h (att_batch a)) (wire w).

Definition never_fails (E : Env) : Prop := forall h b, send_fails E h b = false.
Definition always_fails (E : Env) : Prop := forall h b, send_fails E h b = true.

(** The message [genMessage] builds at draw [k]. *)
Definition message_at (E : Env) (k : nat) : Message :=
  let mID := ((("ID_" ++ FormatInt (clock E k)) ++ "_")
              ++ FormatInt (rnd E k mod 1000))%string in
  mkMessage mID ((mID ++ " ") ++ msgBodyTmpl E)%string.

(** Messages handed to the queue, in order, and the invariant that they
    are the messages of the draws made so far, in order. *)
Definition stream (w : World) : list Message :=
  List.concat (map att_batch (wire w)).

Definition streamed (E : Env) (w : World) : Prop :=
  stream w = map (message_at E) (seq 0 (draws w)).

(** [q] messages in batches of ten, the short batch last. *)
Definition worker_sizes (q : Z) : list Z :=
  repeat sqsBatchSize (Z.to_nat (q / sqsBatchSize))
  ++ (if q mod sqsBatchSize =? 0 then [] else [q mod sqsBatchSize]).

(** [q] messages in batches of ten, the short batch first. *)
Definition serial_sizes (q : Z) : list Z :=
  (if q mod sqsBatchSize =? 0 then [] else [q mod sqsBatchSize])
  ++ repeat sqsBatchSize (Z.to_nat (q / sqsBatchSize)).

(** Size of the batch [fillSerially] issues when [c] messages are left. *)
Definition serial_first (c : Z) : Z :=
  if c mod sqsBatchSize =? 0 then sqsBatchSize else c mod sqsBatchSize.

(** Least number of batches of at most ten that hold [q] messages. *)
Definition batches_needed (q : Z) : Z := (q + (sqsBatchSize - 1)) / sqsBatchSize.

(** Greatest count that [float64] holds exactly together with all
    smaller ones. *)
Definition float_exact_max : Z := 2 ^ 53.

(** The largest number of workers the [float64] computation gives for a
    count that an [int] holds. *)
Definition workers_max : Z := 9223372036854776.

(** Exact ceiling of [count / d]. *)
Definition ceil_div (count d : Z) : Z := (count + (d - 1)) / d.

(** [i, i+1, ..., i+n-1] *)
Fixpoint Zrange (i : Z) (n : nat) : list Z :=
  match n with
  | O => []
  | S n' => i :: Zrange (i + 1) n'
  end.

(** Quota of the worker launched at loop index [j]. *)
Definition quota_at (count j : Z) : Z := Z.min interval (count - j * interval).

(** Running totals of the collecting loop from [total] on. *)
Fixpoint running (total : Z) (received : list partial) : list Z :=
  match received with
  | [] => []
  | chunk :: rest => (total + count chunk) :: running (total + count chunk) rest
  end.

(** Sample environments: a queue that accepts everything, one that
    refuses everything, one that refuses the first call only. *)
Definition sample_clock (k : nat) : Z := 1700000000000000000 + Z.of_nat k.
Definition sample_rnd (k : nat) : Z := Z.of_nat k * 7919.
Definition sample_make_max : Z := 2 ^ 40.
Definition sample_make_max_batch : sqsBatchSize <= sample_make_max :=
  Zle_bool_imp_le sqsBatchSize sample_make_max eq_refl.
Definition sample_make_max_int : sample_make_max <= GoInt.int_max :=
  Zle_bool_imp_le sample_make_max GoInt.int_max eq_refl.
Definition env_ok : Env :=
  mkEnv sample_clock sample_rnd (fun _ _ => false) defaultMsgTmpl
        sample_make_max sample_make_max_batch sample_make_max_int.
Definition env_failing : Env :=
  mkEnv sample_clock sample_rnd (fun _ _ => true) defaultMsgTmpl
        sample_make_max sample_make_max_batch sample_make_max_int.
Definition env_first_fails : Env :=
  mkEnv sample_clock sample_rnd
        (fun h _ => match h with [] => true | _ => false end) defaultMsgTmpl
        sample_make_max sample_make_max_batch sample_make_max_int.

(* ------------------------------------------------------------------ *)
(** ** Start-up of sqsfill *)

(** [normalizeRegion(region)]: the cases of the [switch], in order. *)
Definition normalizeRegion (region : string) : string :=
  if ((region =? "use01") || (region =? "use"))%string then "us-east-1"%string
  else if ((region =? "usw01") || (region =? "usw") || (region =? "usw1"))%string
       then "us-west-1"%string
  else if ((region =? "usw02") || (region =? "usw2"))%string then "us-west-2"%string
  else if ((region =? "apn01") || (region =? "apn"))%string then "ap-northeast-1"%string
  else if ((region =? "sae01") || (region =? "sae"))%string then "sa-east-1"%string
  else region.

(** The short names [normalizeRegion] knows, and the names it gives. *)
Definition region_aliases : list string :=
  ["use01"; "use"; "usw01"; "usw"; "usw1"; "usw02"; "usw2";
   "apn01"; "apn"; "sae01"; "sae"]%string.

Definition region_names : list string :=
  ["us-east-1"; "us-west-1"; "us-west-2"; "ap-northeast-1"; "sa-east-1"]%string.

(** What a call of a library or of the service gives back: a value, or
    a non-nil [error] with its text. *)
Inductive answer (A : Type) : Type :=
| Got (a : A)
| Failed (err : string).
Arguments Got {A} a.
Arguments Failed {A} err.

Module Startup.

(** The package variables the flags are parsed into, as [flag.Parse()]
    leaves them when it returns; [count] is an [int]. *)
Record Flags : Type := mkFlags {
  queueName : string;          (* -q *)
  region : string;             (* -r *)
  msgBodyTmpl : string;        (* -b *)
  msgBodyTmplFile : string;    (* -f *)
  count : Z;                   (* -c *)
  serialMode : bool;           (* -serial *)
  count_int : GoInt.in_range count
}.

(** A count that an [int] holds, by computation. *)
Definition in_range_by (z : Z) (lo : (GoInt.int_min <=? z) = true)
  (hi : (z <=? GoInt.int_max) = true) : GoInt.in_range z :=
  conj (Zle_bool_imp_le _ _ lo) (Zle_bool_imp_le _ _ hi).

(** The flags when the command line gives none. *)
Definition default_flags : Flags :=
  mkFlags "" "" defaultMsgTmpl "" defaultCount false
          (in_range_by defaultCount eq_refl eq_refl).

(** What [init] calls outside the program: [aws.EnvAuth()] (the access
    and the secret key), [ioutil.ReadFile], [sqs.NewFrom] and
    [svc.GetQueue]. *)
Record Services (Svc Queue : Type) : Type := mkServices {
  EnvAuth : answer (string * string);
  ReadFile : string -> answer string;
  NewFrom : string -> string -> string -> answer Svc;
  GetQueue : Svc -> string -> answer Queue
}.
Arguments EnvAuth {Svc Queue} _.
Arguments ReadFile {Svc Queue} _ _.
Arguments NewFrom {Svc Queue} _ _ _ _.
Arguments GetQueue {Svc Queue} _ _ _.

(** What [flag.Parse()] makes of the command line.  [flag.CommandLine]
    has the [flag.ExitOnError] policy: on a flag or a value it cannot
    take, among them a [-c] that is not an [int], and on [-h] or
    [-help], [flag.Parse()] writes [stderr] to standard error and leaves
    through [os.Exit(status)] itself; otherwise it returns with the
    package variables set. *)
Inductive parsed : Type :=
| Stopped (status : Z) (stderr : string)
| Parsed (f : Flags).

(** What [init] writes before it leaves: one line on standard output,
    or a text of several lines on standard error. *)
Inductive Output : Type :=
| ParseText (stderr : string)              (* what flag.Parse() wrote, on standard error *)
| ErrorText (err : string)                 (* fmt.Println(err) *)
| Usage                                    (* flag.Usage(): the usage text, on standard error *)
| AccessingSQS (err : string)              (* "Error accessing SQS: ..." *)
| GettingQueue (name err : string).        (* "Error getting queue ...: ..." *)

(** The package variables [main] reads, once [init] has returned. *)
Record Globals (Queue : Type) : Type := mkGlobals {
  g_serialMode : bool;
  g_count : Z;
  g_region : string;
  g_queue : Queue;
  g_msgBodyTmpl : string
}.
Arguments mkGlobals {Queue} _ _ _ _ _.
Arguments g_serialMode {Queue} _.
Arguments g_count {Queue} _.
Arguments g_region {Queue} _.
Arguments g_queue {Queue} _.
Arguments g_msgBodyTmpl {Queue} _.

(** [init] either leaves through [os.Exit(status)], having printed
    [out], or returns with the package variables set. *)
Inductive started (Queue : Type) : Type :=
| Exit (status : Z) (out : list Output)
| Ready (g : Globals Queue).
Arguments Exit {Queue} status out.
Arguments Ready {Queue} g.

(** [init()] of sqsfill; [p] is what [flag.Parse()] makes of the
    command line. *)
Definition init {Svc Queue : Type} (S : Services Svc Queue) (p : parsed)
  : started Queue :=
  match p with
  | Stopped status stderr => Exit status [ParseText stderr]
  | Parsed f =>
  match EnvAuth S with
  | Failed err => Exit 1 [ErrorText err]
  | Got auth =>
      if ((queueName f =? "") || (region f =? ""))%string then Exit 1 [Usage]
      else if ((msgBodyTmpl f =? "") && (msgBodyTmplFile f =? ""))%string
      then Exit 1 [Usage]
      else
        let body :=
          if negb (msgBodyTmplFile f =? "")%string
          then ReadFile S (msgBodyTmplFile f)
          else Got (msgBodyTmpl f) in
        match body with
        | Failed err => Exit 1 [ErrorText err]
        | Got msgBodyTmpl =>
            let region := normalizeRegion (region f) in
            match NewFrom S (fst auth) (snd auth) region with
            | Failed err => Exit 1 [AccessingSQS err]
            | Got svc =>
                match GetQueue S svc (queueName f) with
                | Failed err => Exit 1 [GettingQueue (queueName f) err]
                | Got queue =>
                    Ready (mkGlobals (serialMode f) (count f) region queue msgBodyTmpl)
                end
            end
        end
  end
  end.

End Startup.

(** Flags with another count, another [-b]. *)
Definition with_count (c : Z) (Hc : GoInt.in_range c) (f : Startup.Flags)
  : Startup.Flags :=
  Startup.mkFlags (Startup.queueName f) (Startup.region f) (Startup.msgBodyTmpl f)
                  (Startup.msgBodyTmplFile f) c (Startup.serialMode f) Hc.

Definition with_body (b : string) (f : Startup.Flags) : Startup.Flags :=
  Startup.mkFlags (Startup.queueName f) (Startup.region f) b
                  (Startup.msgBodyTmplFile f) (Startup.count f) (Startup.serialMode f)
                  (Startup.count_int f).

(** The result of [init] with the count it leaves in [count] replaced. *)
Definition started_with_count {Queue : Type} (c : Z)
  (r : Startup.started Queue) : Startup.started Queue :=
  match r with
  | Startup.Exit status out => Startup.Exit status out
  | Startup.Ready g =>
      Startup.Ready (Startup.mkGlobals (Startup.g_serialMode g) c (Startup.g_region g)
                                       (Startup.g_queue g) (Startup.g_msgBodyTmpl g))
  end.

(** Sample surroundings of [init]: credentials are there, no file can be
    read, the service of a region is named by the region and a queue by
    the service and its name. *)
Definition sample_services : Startup.Services string string :=
  Startup.mkServices string string
    (Got ("AK", "SK")%string)
    (fun _ => Failed "no such file"%string)
    (fun _ _ region => Got region)
    (fun svc name => Got (svc ++ "/" ++ name)%string).

Definition sample_flags : Startup.Flags :=
  Startup.mkFlags "jobs" "usw" defaultMsgTmpl "" defaultCount false
                  (Startup.in_range_by defaultCount eq_refl eq_refl).

(** Whether the character [c] occurs in [s]. *)
Fixpoint occurs (c : ascii) (s : string) : bool :=
  match s with
  | EmptyString => false
  | String a s' => Ascii.eqb a c || occurs c s'
  end.

(** A [float64] that is not above zero, or no number at all. *)
Definition not_positive (x : spec_float) : Prop :=
  match x with
  | S754_zero _ => True
  | S754_infinity s => s = true
  | S754_nan => True
  | S754_finite s _ _ => s = true
  end.

(** The workers named on the lines of the collecting loop, with the
    counts shown, and the counts shown on the progress lines of the
    serial mode. *)
Definition reported (w : World) : list (Z * Z) :=
  flat_map (fun l => match l with WorkerLine i c _ => [(i, c)] | _ => [] end)
           (console w).

Definition progress (w : World) : list Z :=
  flat_map (fun l => match l with Progress n => [n] | _ => [] end) (console w).

(** [total - 1000 * j] for [j] from [m - 1] down to 0. *)
Fixpoint countdown (total : Z) (m : nat) : list Z :=
  match m with
  | O => []
  | S m' => (total - 1000 * Z.of_nat m') :: countdown total m'
  end.

(* ------------------------------------------------------------------ *)
(** ** [main] of sqsfill *)

(** A run of [main()] once [init] has set the package variables [g]:
    [fillSerially()] when [serialMode] is set, [fillConcurrent()]
    otherwise.  What is kept of the run are the final worlds of the
    threads of control that called the queue: the one of the serial loop,
    or those of the workers in launch order. *)
Inductive main_run {Queue : Type} (envs : Z -> Env) (fuel : nat)
  (g : Startup.Globals Queue) : list World -> Prop :=
| Main_serial : forall left w,
    Startup.g_serialMode g = true ->
    fillSerially (envs 0) fuel (Startup.g_count g) w0 = Ret left w ->
    main_run envs fuel g [w]
| Main_concurrent : forall finals out,
    Startup.g_serialMode g = false ->
    fillConcurrent_run envs fuel (Startup.g_count g) finals out ->
    main_run envs fuel g (map snd finals).

(* ------------------------------------------------------------------ *)
(** ** sqsattr *)

Module Sqsattr.

Definition defqueue : string := "message_queue".
Definition defattr : string := "ApproximateNumberOfMessages".

(** [strings.Split(s, ",")]: the pieces of [s] between its commas, of
    which there is always at least one. *)
Fixpoint Split (s : string) : list string :=
  match s with
  | EmptyString => [EmptyString]
  | String c s' =>
      if Ascii.eqb c ","
      then EmptyString :: Split s'
      else match Split s' with
           | [] => [String c EmptyString]
           | piece :: pieces => String c piece :: pieces
           end
  end.

(** [strings.Join(pieces, ",")] *)
Fixpoint Join (pieces : list string) : string :=
  match pieces with
  | [] => EmptyString
  | [piece] => piece
  | piece :: rest => (piece ++ String "," (Join rest))%string
  end.

(** The service as the program meets it.  [GetQueue n] and
    [GetQueueAttributes n] are the answers to a call made when [n]
    calls have gone before; an answer to [GetQueueAttributes] is the
    list of the names and values of the [Attributes] of the response. *)
Record Service (Queue : Type) : Type := mkService {
  GetAuth : answer unit;
  GetQueue : nat -> string -> answer Queue;
  GetQueueAttributes : nat -> Queue -> string -> answer (list (string * string))
}.
Arguments GetAuth {Queue} _.
Arguments GetQueue {Queue} _ _ _.
Arguments GetQueueAttributes {Queue} _ _ _ _.

(** Lines the program prints. *)
Inductive Line : Type :=
| Error (err : string)                       (* "error: ..." *)
| QueueError (qn err : string)               (* "error for queue ...: ..." *)
| AttributeError (an qn err : string)        (* "error getting attribute ... for queue ...: ..." *)
| Attribute (qn name value : string).        (* "qn.name: value" *)

(** How the program ends: [main] returns after [calls] calls of the
    service, or [check] leaves through [os.Exit], or indexing an empty
    [Attributes] panics; [out] is what was printed. *)
Inductive ended : Type :=
| Done (calls : nat) (out : list Line)
| Exited (status : Z) (out : list Line)
| Panicked (calls : nat) (out : list Line).

Section Program.

Context {Queue : Type}.
Variable service : Service Queue.

(** The inner loop of [main], over the attributes still to ask for. *)
Fixpoint attrs_loop (qn : string) (q : Queue) (attrs : list string)
  (calls : nat) (out : list Line) : ended :=
  match attrs with
  | [] => Done calls out
  | an :: rest =>
      match GetQueueAttributes service calls q an with
      | Failed err =>
          attrs_loop qn q rest (S calls) (out ++ [AttributeError an qn err])
      | Got a =>
          match a with
          | [] => Panicked (S calls) out
          | (name, value) :: _ =>
              attrs_loop qn q rest (S calls) (out ++ [Attribute qn name value])
          end
      end
  end.

(** The outer loop of [main], over the queues still to ask for. *)
Fixpoint queues_loop (attrs : list string) (queues : list string)
  (calls : nat) (out : list Line) : ended :=
  match queues with
  | [] => Done calls out
  | qn :: rest =>
      match GetQueue service calls qn with
      | Failed err =>
          queues_loop attrs rest (S calls) (out ++ [QueueError qn err])
      | Got q =>
          match attrs_loop qn q attrs (S calls) out with
          | Done calls' out' => queues_loop attrs rest calls' out'
          | stopped => stopped
          end
      end
  end.

(** [main()], with [queues] and [attrs] as [init] has set them. *)
Definition main (queues attrs : list string) : ended :=
  match GetAuth service with
  | Failed err => Exited 1 [Error err]
  | Got _ => queues_loop attrs queues 0 []
  end.

(** [init()] and then [main()], for the flag values [queueList] and
    [attrList]. *)
Definition run (queueList attrList : string) : ended :=
  main (Split queueList) (Split attrList).

End Program.

End Sqsattr.

(** The lines one queue may give rise to: one for a queue that cannot be
    had, or else one for each attribute asked for, in order. *)
Definition lines_of_queue (attrs : list string) (qn : string)
  (chunk : list Sqsattr.Line) : Prop :=
  (exists err, chunk = [Sqsattr.QueueError qn err])
  \/ Forall2 (fun an line =>
                (exists err, line = Sqsattr.AttributeError an qn err)
                \/ (exists name value, line = Sqsattr.Attribute qn name value))
             attrs chunk.

(** The line an attribute gives rise to: its value or the error. *)
Definition line_of_attribute (qn an : string) (line : Sqsattr.Line) : Prop :=
  (exists err, line = Sqsattr.AttributeError an qn err)
  \/ (exists name value, line = Sqsattr.Attribute qn name value).

(** A service that knows the queues [jobs] and [mail] and answers every
    attribute with a single value; one that answers with no attribute
    at all; and one that does so for the attribute [Age] only. *)
Definition sample_service : Sqsattr.Service string :=
  Sqsattr.mkService string
    (Got tt)
    (fun _ qn => if ((qn =? "jobs") || (qn =? "mail"))%string
                 then Got qn else Failed "no such queue"%string)
    (fun _ q an => Got [(an, "7"%string)]).

Definition empty_service : Sqsattr.Service string :=
  Sqsattr.mkService string (Got tt) (fun _ qn => Got qn) (fun _ _ _ => Got []).

Definition ageless_service : Sqsattr.Service string :=
  Sqsattr.mkService string
    (Got tt)
    (fun _ qn => if ((qn =? "jobs") || (qn =? "mail"))%string
                 then Got qn else Failed "no such queue"%string)
    (fun _ q an => if (an =? "Age")%string then Got [] else Got [(an, "7"%string)]).

(* ------------------------------------------------------------------ *)
(** * Facts *)

(** ** Integers *)

Lemma wrap_small z : GoInt.in_range z -> GoInt.wrap z = z.
Proof.
  unfold GoInt.in_range, GoInt.wrap, GoInt.int_min, GoInt.int_max. intros H.
  rewrite Z.mod_small; lia.
Qed.

Lemma wrap_in_range z : GoInt.in_range (GoInt.wrap z).
Proof.
  unfold GoInt.in_range, GoInt.wrap, GoInt.int_min, GoInt.int_max.
  pose proof (Z.mod_pos_bound (z + 2 ^ 63) (2 ^ 64)). lia.
Qed.

Ltac int_range :=
  unfold GoInt.in_range, GoInt.int_min, GoInt.int_max,
         sqsBatchSize, interval in *;
  change (2 ^ 63) with 9223372036854775808 in *; lia.

Lemma add_small a b : GoInt.in_range (a + b) -> GoInt.add a b = a + b.
Proof. apply wrap_small. Qed.

Lemma sub_small a b : GoInt.in_range (a - b) -> GoInt.sub a b = a - b.
Proof. apply wrap_small. Qed.

Lemma mul_small a b : GoInt.in_range (a * b) -> GoInt.mul a b = a * b.
Proof. apply wrap_small. Qed.

Lemma rem_small a b : GoInt.in_range (Z.rem a b) -> GoInt.rem a b = Z.rem a b.
Proof. apply wrap_small. Qed.

Lemma rem_nonneg a b : 0 <= a -> 0 < b -> GoInt.in_range b -> GoInt.rem a b = a mod b.
Proof.
  intros Ha Hb Hr. rewrite rem_small.
  - apply Z.rem_mod_nonneg; lia.
  - rewrite Z.rem_mod_nonneg by lia.
    pose proof (Z.mod_pos_bound a b Hb). revert Hr. int_range.
Qed.

(** ** Floats *)

(** Binary digits. *)

Lemma digits2_pos_bounds p :
  2 ^ (Zpos (digits2_pos p) - 1) <= Zpos p < 2 ^ Zpos (digits2_pos p).
Proof.
  induction p as [p IH | p IH | ]; cbn [digits2_pos].
  - rewrite Pos2Z.inj_succ, Z.pow_succ_r by lia.
    replace (Z.succ (Zpos (digits2_pos p)) - 1) with (Z.succ (Zpos (digits2_pos p) - 1)) by lia.
    rewrite Z.pow_succ_r by lia. lia.
  - rewrite Pos2Z.inj_succ, Z.pow_succ_r by lia.
    replace (Z.succ (Zpos (digits2_pos p)) - 1) with (Z.succ (Zpos (digits2_pos p) - 1)) by lia.
    rewrite Z.pow_succ_r by lia. lia.
  - cbn. lia.
Qed.

Lemma digits2_pos_unique p d :
  2 ^ (d - 1) <= Zpos p < 2 ^ d -> Zpos (digits2_pos p) = d.
Proof.
  intros [Hlo Hhi]. pose proof (digits2_pos_bounds p) as [Hlo' Hhi'].
  assert (0 < d).
  { destruct (Z_lt_le_dec 0 d) as [|Hd]; [assumption | ].
    destruct (Z.eq_dec d 0) as [-> | ]; [cbn in Hhi; lia | ].
    rewrite Z.pow_neg_r in Hhi by lia. lia. }
  destruct (Z.lt_trichotomy (Zpos (digits2_pos p)) d) as [Hlt | [Heq | Hgt]];
    [ | assumption | ].
  - pose proof (Z.pow_le_mono_r 2 (Zpos (digits2_pos p)) (d - 1) ltac:(lia) ltac:(lia)). lia.
  - pose proof (Z.pow_le_mono_r 2 d (Zpos (digits2_pos p) - 1) ltac:(lia) ltac:(lia)). lia.
Qed.

Lemma iter_xO_value p n : Zpos (Pos.iter xO p n) = Zpos p * 2 ^ Zpos n.
Proof.
  change (Pos.iter xO p n) with (shift_pos n p).
  rewrite shift_pos_correct. change (Z.pow_pos 2 n) with (2 ^ Zpos n). lia.
Qed.

(** Rounding a mantissa that needs at most one shift. *)

Lemma fexp_normal e :
  -1074 <= e - 53 -> fexp GoFloat.prec GoFloat.emax e = e - 53.
Proof. unfold fexp, emin, GoFloat.prec, GoFloat.emax. lia. Qed.

Lemma pow2_52 : 2 ^ 52 = 4503599627370496. Proof. reflexivity. Qed.
Lemma pow2_53 : 2 ^ 53 = 9007199254740992. Proof. reflexivity. Qed.
Lemma pow2_54 : 2 ^ 54 = 18014398509481984. Proof. reflexivity. Qed.

(** The last step of [binary_round_aux]: a rounded mantissa between
    [2^52] and [2^53] is kept, or halved when it is [2^53]. *)
Lemma renormalize mz e :
  2 ^ 52 <= mz <= 2 ^ 53 -> -1074 <= e <= 970 ->
  exists m' t,
    (let '(mrs, e') := shr_fexp GoFloat.prec GoFloat.emax mz e loc_Exact in
     match shr_m mrs with
     | Z0 => S754_zero false
     | Zpos m0 => if e' <=? GoFloat.emax - GoFloat.prec
                  then S754_finite false m0 e' else S754_infinity false
     | Zneg _ => S754_nan
     end) = S754_finite false m' (e + t)
    /\ 0 <= t <= 1 /\ Zpos m' * 2 ^ t = mz
    /\ 2 ^ 52 <= Zpos m' < 2 ^ 53.
Proof.
  intros Hm He. rewrite pow2_52, pow2_53 in *.
  destruct mz as [|m|m]; try lia.
  destruct (Z.eq_dec (Zpos m) 9007199254740992) as [Heq | Hne].
  - injection Heq as ->.
    exists 4503599627370496%positive, 1. unfold shr_fexp.
    change (Zdigits2 9007199254740992) with 54.
    rewrite fexp_normal by lia.
    replace (54 + e - 53 - e) with 1 by lia.
    cbn [shr shr_record_of_loc iter_pos shr_1 shr_m].
    unfold GoFloat.emax, GoFloat.prec.
    destruct (e + 1 <=? 1024 - 53) eqn:Hle; [ | apply Z.leb_gt in Hle; lia].
    repeat split; lia.
  - exists m, 0. unfold shr_fexp. cbn [Zdigits2].
    rewrite (digits2_pos_unique m 53) by (rewrite pow2_53; change (2 ^ (53 - 1)) with 4503599627370496; lia).
    rewrite fexp_normal by lia.
    replace (53 + e - 53 - e) with 0 by lia.
    cbn [shr shr_record_of_loc shr_m].
    unfold GoFloat.emax, GoFloat.prec.
    destruct (e <=? 1024 - 53) eqn:Hle; [ | apply Z.leb_gt in Hle; lia].
    rewrite Z.add_0_r. repeat split; lia.
Qed.

(** The first step of [binary_round_aux] on a quotient of 53 or 54
    digits: at most one digit is shifted out, and rounding to nearest
    does not cross an even bound that the exact value does not cross. *)
Lemma shift_and_round q e l A B :
  2 ^ 52 <= Zpos q < 2 ^ 54 -> -1074 <= e ->
  Z.even A = true -> Z.even B = true ->
  A + 2 <= Zpos q \/ (Zpos q = A + 1 /\ l <> loc_Exact) ->
  Zpos q + 1 <= B \/ (Zpos q = B /\ l = loc_Exact) ->
  exists mrs t,
    shr_fexp GoFloat.prec GoFloat.emax (Zpos q) e l = (mrs, e + t)
    /\ 0 <= t <= 1
    /\ 2 ^ 52 <= round_nearest_even (shr_m mrs) (loc_of_shr_record mrs) <= 2 ^ 53
    /\ A < round_nearest_even (shr_m mrs) (loc_of_shr_record mrs) * 2 ^ t <= B.
Proof.
  intros Hq He HA HB Hlo Hhi. rewrite pow2_52, pow2_54, ?pow2_53 in *.
  apply Z.even_spec in HA, HB. destruct HA as [a ->], HB as [b ->].
  unfold shr_fexp. cbn [Zdigits2].
  destruct (Z_lt_le_dec (Zpos q) 9007199254740992) as [H53 | H54].
  - rewrite (digits2_pos_unique q 53) by (rewrite pow2_53; change (2 ^ (53 - 1)) with 4503599627370496; lia).
    rewrite fexp_normal by lia.
    replace (53 + e - 53 - e) with 0 by lia.
    cbn [shr]. eexists _, 0. split; [rewrite Z.add_0_r; reflexivity | ].
    split; [lia | ].
    destruct l as [|[| |]];
      cbn [shr_record_of_loc loc_of_shr_record shr_m round_nearest_even];
      try destruct (Z.even (Zpos q));
      change (2 ^ 0) with 1; split; try lia;
      destruct Hlo as [? | [? Hl]], Hhi as [? | [? Hl']]; try lia; try discriminate Hl';
      try (exfalso; apply Hl; reflexivity).
  - rewrite (digits2_pos_unique q 54) by (rewrite pow2_54; change (2 ^ (54 - 1)) with 9007199254740992; lia).
    rewrite fexp_normal by lia.
    replace (54 + e - 53 - e) with 1 by lia.
    cbn [shr iter_pos]. eexists _, 1. split; [reflexivity | ].
    split; [lia | ].
    change (2 ^ 1) with 2.
    destruct q as [p|p| ]; [ | | lia];
      destruct l as [|[| |]];
      cbn [shr_record_of_loc shr_1 orb loc_of_shr_record shr_m round_nearest_even];
      try destruct (Z.even (Zpos p));
      split; try lia;
      destruct Hlo as [? | [? Hl]], Hhi as [? | [? Hl']]; try lia; try discriminate Hl';
      try (exfalso; apply Hl; reflexivity).
Qed.

Lemma binary_round_aux_spec q e l A B :
  2 ^ 52 <= Zpos q < 2 ^ 54 -> -1074 <= e <= 969 ->
  Z.even A = true -> Z.even B = true ->
  A + 2 <= Zpos q \/ (Zpos q = A + 1 /\ l <> loc_Exact) ->
  Zpos q + 1 <= B \/ (Zpos q = B /\ l = loc_Exact) ->
  exists m t,
    binary_round_aux GoFloat.prec GoFloat.emax false (Zpos q) e l
    = S754_finite false m (e + t)
    /\ 0 <= t <= 2
    /\ A < Zpos m * 2 ^ t <= B
    /\ 2 ^ 52 <= Zpos m < 2 ^ 53.
Proof.
  intros Hq He HA HB Hlo Hhi.
  destruct (shift_and_round q e l A B) as (mrs & t1 & Hs & Ht1 & Hr & Hb);
    try assumption; try lia.
  unfold binary_round_aux. rewrite Hs.
  destruct (renormalize (round_nearest_even (shr_m mrs) (loc_of_shr_record mrs)) (e + t1))
    as (m & t2 & Hn & Ht2 & Hv & Hm); [assumption | lia | ].
  rewrite Hn. exists m, (t1 + t2).
  split; [f_equal; lia | ]. split; [lia | ]. split; [ | assumption].
  rewrite Z.pow_add_r by lia. rewrite <- Hv in Hb.
  replace (Zpos m * (2 ^ t1 * 2 ^ t2)) with (Zpos m * 2 ^ t2 * 2 ^ t1) by ring.
  exact Hb.
Qed.

Lemma binary_round_aux_canonical m e :
  2 ^ 52 <= Zpos m < 2 ^ 53 -> -1074 <= e <= 970 ->
  binary_round_aux GoFloat.prec GoFloat.emax false (Zpos m) e loc_Exact
  = S754_finite false m e.
Proof.
  intros Hm He. unfold binary_round_aux, shr_fexp at 1. cbn [Zdigits2].
  rewrite (digits2_pos_unique m 53) by (change (53 - 1) with 52; lia).
  rewrite fexp_normal by lia.
  replace (53 + e - 53 - e) with 0 by lia.
  cbn [shr shr_record_of_loc loc_of_shr_record shr_m round_nearest_even].
  destruct (renormalize (Zpos m) e) as (m' & t & Hn & Ht & Hv & Hm'); [lia | lia | ].
  rewrite Hn.
  assert (t = 0) as ->.
  { destruct (Z.eq_dec t 0) as [|Hne]; [assumption | ].
    assert (t = 1) as -> by lia. change (2 ^ 1) with 2 in Hv. rewrite pow2_52, pow2_53 in *. lia. }
  change (2 ^ 0) with 1 in Hv. rewrite Z.add_0_r. f_equal. lia.
Qed.

(** The operations of [GoFloat] on the integers [float64] holds exactly. *)

Lemma of_int_exact n :
  0 < n < 2 ^ 53 ->
  exists m e,
    GoFloat.of_int n = S754_finite false m e
    /\ -52 <= e <= 0
    /\ Zpos m = n * 2 ^ (- e)
    /\ 2 ^ 52 <= Zpos m < 2 ^ 53.
Proof.
  intros Hn. destruct n as [|p|p]; try lia.
  unfold GoFloat.of_int, binary_normalize, binary_round.
  pose proof (digits2_pos_bounds p) as Hd.
  set (d := Zpos (digits2_pos p)) in *.
  assert (Hd53 : 1 <= d <= 53).
  { split; [subst d; lia | ].
    destruct (Z_lt_le_dec 53 d) as [Hgt | ]; [ | assumption].
    pose proof (Z.pow_le_mono_r 2 53 (d - 1) ltac:(lia) ltac:(lia)). lia. }
  rewrite Z.add_0_r, fexp_normal by lia.
  unfold shl_align. rewrite Z.sub_0_r.
  destruct (d - 53) as [|k|k] eqn:Hk; try lia.
  - exists p, 0. assert (d = 53) as Hd' by lia. rewrite Hd' in Hd.
    change (53 - 1) with 52 in Hd.
    rewrite binary_round_aux_canonical by lia.
    split; [reflexivity | ]. split; [lia | ]. split; [ | lia].
    change (2 ^ (- 0)) with 1. lia.
  - assert (Hval : Zpos (Pos.iter xO p k) = Zpos p * 2 ^ Zpos k) by apply iter_xO_value.
    assert (Hpow : 2 ^ (d - 1) * 2 ^ Zpos k = 2 ^ 52 /\ 2 ^ d * 2 ^ Zpos k = 2 ^ 53).
    { rewrite <- !Z.pow_add_r by lia. split; f_equal; lia. }
    exists (Pos.iter xO p k), (Zneg k).
    rewrite binary_round_aux_canonical by (split; try nia; lia).
    split; [reflexivity | ]. split; [lia | ]. split; [ | nia].
    exact Hval.
Qed.

Lemma to_int_of_int n : 0 < n < 2 ^ 53 -> GoFloat.to_int (GoFloat.of_int n) = n.
Proof.
  intros Hn. destruct (of_int_exact n Hn) as (m & e & -> & He & Hm & Hb).
  unfold GoFloat.to_int.
  assert (Hv : (if 0 <=? e then Zpos m * 2 ^ e else Zpos m / 2 ^ (- e)) = n).
  { destruct (0 <=? e) eqn:Hz.
    - apply Z.leb_le in Hz. assert (e = 0) as -> by lia.
      change (2 ^ (- 0)) with 1 in Hm. change (2 ^ 0) with 1. lia.
    - rewrite Hm. apply Z.div_mul. apply Z.pow_nonzero; lia. }
  rewrite Hv. rewrite pow2_53 in Hn.
  assert (Hr : (GoInt.int_min <=? n) && (n <=? GoInt.int_max) = true).
  { apply andb_true_intro. unfold GoInt.int_min, GoInt.int_max.
    change (2 ^ 63) with 9223372036854775808.
    split; apply Z.leb_le; lia. }
  rewrite Hr. reflexivity.
Qed.

Lemma div_eucl_div_mod a b : Z.div_eucl a b = (a / b, a mod b).
Proof. unfold Z.div, Z.modulo. destruct (Z.div_eucl a b); reflexivity. Qed.

Lemma div_normal m1 e1 m2 e2 :
  2 ^ 52 <= Zpos m1 < 2 ^ 53 -> 2 ^ 52 <= Zpos m2 < 2 ^ 53 ->
  -1074 <= e1 - e2 - 53 ->
  GoFloat.div (S754_finite false m1 e1) (S754_finite false m2 e2)
  = binary_round_aux GoFloat.prec GoFloat.emax false
      (Zpos m1 * 2 ^ 53 / Zpos m2) (e1 - e2 - 53)
      (new_location (Zpos m2) ((Zpos m1 * 2 ^ 53) mod Zpos m2)).
Proof.
  intros H1 H2 He. unfold GoFloat.div, SFdiv, SFdiv_core_binary. cbn [Zdigits2 xorb].
  rewrite (digits2_pos_unique m1 53), (digits2_pos_unique m2 53)
    by (change (53 - 1) with 52; lia).
  rewrite fexp_normal by lia.
  replace (Z.min (53 + e1 - (53 + e2) - 53) (e1 - e2)) with (e1 - e2 - 53) by lia.
  replace (e1 - e2 - (e1 - e2 - 53)) with 53 by lia.
  rewrite Z.shiftl_mul_pow2 by lia.
  rewrite div_eucl_div_mod. reflexivity.
Qed.

Lemma ceil_of_finite m e k :
  e < 0 -> 0 < k < 2 ^ 53 ->
  (k - 1) * 2 ^ (- e) < Zpos m <= k * 2 ^ (- e) ->
  GoFloat.to_int (GoFloat.Ceil (S754_finite false m e)) = k.
Proof.
  intros He Hk Hm. unfold GoFloat.Ceil.
  destruct (0 <=? e) eqn:Hz; [apply Z.leb_le in Hz; lia | ].
  assert (Hpos : 0 < 2 ^ (- e)) by (apply Z.pow_pos_nonneg; lia).
  assert (Hdiv : Zneg m / 2 ^ (- e) = - k).
  { symmetry. apply (Z.div_unique _ _ _ (k * 2 ^ (- e) - Zpos m)); lia. }
  rewrite Hdiv, Z.opp_involutive.
  apply to_int_of_int. assumption.
Qed.

Lemma interval_float :
  GoFloat.of_int interval = S754_finite false 8796093022208000 (-43).
Proof. reflexivity. Qed.

Lemma new_location_interval r :
  new_location (1000 * 2 ^ 43) r
  = if r =? 0 then loc_Exact else loc_Inexact (2 * r ?= 1000 * 2 ^ 43).
Proof. reflexivity. Qed.

Lemma workers_of_small count :
  0 < count < 2 ^ 53 -> workers_of count = ceil_div count interval.
Proof.
  intros Hc. unfold workers_of.
  destruct (of_int_exact count Hc) as (m1 & e1 & -> & He1 & Hm1 & Hb1).
  rewrite interval_float.
  rewrite div_normal by (rewrite ?pow2_52, ?pow2_53; lia).
  set (P := 2 ^ (- e1)) in *.
  assert (HP : 1 <= P) by (subst P; pose proof (Z.pow_pos_nonneg 2 (- e1)); lia).
  set (k := ceil_div count interval).
  assert (Hk : (k - 1) * 1000 < count <= k * 1000).
  { subst k. unfold ceil_div, interval.
    pose proof (Z.div_mod (count + (1000 - 1)) 1000 ltac:(lia)).
    pose proof (Z.mod_pos_bound (count + (1000 - 1)) 1000 ltac:(lia)). lia. }
  assert (Hnum : Zpos m1 * 2 ^ 53 = count * (1024 * P) * 2 ^ 43).
  { rewrite Hm1. change (2 ^ 53) with (1024 * 2 ^ 43). ring. }
  change (Zpos 8796093022208000) with (1000 * 2 ^ 43).
  rewrite Hnum.
  rewrite Z.div_mul_cancel_r, Z.mul_mod_distr_r by lia.
  rewrite new_location_interval.
  change (e1 - -43 - 53) with (e1 - (-43) - 53).
  replace (e1 - -43 - 53) with (e1 - 10) by lia.
  set (N := count * (1024 * P)).
  pose proof (Z.div_mod N 1000 ltac:(lia)) as Hdm.
  pose proof (Z.mod_pos_bound N 1000 ltac:(lia)) as Hrho.
  set (q := N / 1000) in *. set (rho := N mod 1000) in *.
  assert (HN : N = 1024 * Zpos m1) by (subst N; rewrite Hm1; ring).
  rewrite pow2_52, pow2_53 in Hb1.
  destruct q as [|qp|qp] eqn:Hq; try lia.
  set (l := if rho * 2 ^ 43 =? 0 then loc_Exact else loc_Inexact (2 * (rho * 2 ^ 43) ?= 1000 * 2 ^ 43)).
  assert (Hl0 : rho = 0 -> l = loc_Exact) by (intros ->; reflexivity).
  assert (Hl1 : rho <> 0 -> l <> loc_Exact).
  { intros Hne. subst l. destruct (rho * 2 ^ 43 =? 0) eqn:Hz; [ | discriminate].
    apply Z.eqb_eq in Hz. change (2 ^ 43) with 8796093022208 in Hz. lia. }
  assert (HNk : N = 1000 * ((k - 1) * (1024 * P)) + (count - (k - 1) * 1000) * (1024 * P))
    by (subst N; ring).
  set (c := count - (k - 1) * 1000) in *.
  assert (Hc1 : 1024 <= c * (1024 * P) <= 1000 * (1024 * P)) by nia.
  destruct (binary_round_aux_spec qp (e1 - 10) l ((k - 1) * (1024 * P)) (k * (1024 * P)))
    as (m & t & Hr & Ht & Hb & Hm).
  - rewrite pow2_52, pow2_54. lia.
  - lia.
  - apply Z.even_spec. exists ((k - 1) * (512 * P)). ring.
  - apply Z.even_spec. exists (k * (512 * P)). ring.
  - destruct (Z.eq_dec (Zpos qp) ((k - 1) * (1024 * P) + 1)) as [Heq | Hne].
    + right. split; [assumption | ]. apply Hl1. lia.
    + left. lia.
  - destruct (Z.eq_dec (Zpos qp) (k * (1024 * P))) as [Heq | Hne].
    + right. split; [assumption | ]. apply Hl0. lia.
    + left. lia.
  - fold l. rewrite Hr.
    apply ceil_of_finite.
    + lia.
    + rewrite pow2_53. lia.
    + replace (- (e1 - 10 + t)) with (- e1 + (10 - t)) by lia.
      rewrite Z.pow_add_r by lia. fold P.
      assert (Ht2 : 2 ^ (10 - t) * 2 ^ t = 1024).
      { rewrite <- Z.pow_add_r by lia. replace (10 - t + t) with 10 by lia. reflexivity. }
      assert (0 < 2 ^ t) by (apply Z.pow_pos_nonneg; lia).
      assert (0 < 2 ^ (10 - t)) by (apply Z.pow_pos_nonneg; lia).
      assert (Hs : forall x, x * (1024 * P) = (x * (P * 2 ^ (10 - t))) * 2 ^ t)
        by (intros x; rewrite <- Ht2; ring).
      rewrite (Hs (k - 1)), (Hs k) in Hb.
      split.
      * apply (Z.mul_lt_mono_pos_r (2 ^ t)); lia.
      * apply (Z.mul_le_mono_pos_r _ _ (2 ^ t)); lia.
Qed.

Lemma workers_of_exact count :
  0 <= count <= float_exact_max -> workers_of count = ceil_div count interval.
Proof.
  unfold float_exact_max. intros Hc.
  destruct (Z.eq_dec count 0) as [-> | H0]; [reflexivity | ].
  destruct (Z.eq_dec count (2 ^ 53)) as [-> | H53]; [reflexivity | ].
  apply workers_of_small. lia.
Qed.


(** Counts that are not positive. *)

Lemma binary_round_aux_negative m e l :
  not_positive (binary_round_aux GoFloat.prec GoFloat.emax true m e l).
Proof.
  unfold binary_round_aux.
  destruct (shr_fexp _ _ m e l) as [mrs e'].
  destruct (shr_fexp _ _ _ e' loc_Exact) as [mrs' e''].
  destruct (shr_m mrs'); cbn; auto.
  destruct (e'' <=? _); cbn; reflexivity.
Qed.

Lemma of_int_not_positive z : z <= 0 -> not_positive (GoFloat.of_int z).
Proof.
  intros Hz. destruct z as [|p|p]; [exact I | lia | ].
  unfold GoFloat.of_int, binary_normalize, binary_round.
  destruct (shl_align _ _ _). apply binary_round_aux_negative.
Qed.

Lemma div_not_positive x m e :
  not_positive x -> not_positive (GoFloat.div x (S754_finite false m e)).
Proof.
  unfold GoFloat.div, SFdiv. destruct x as [s | s | | s mx ex]; cbn [not_positive]; try tauto.
  - intros ->. reflexivity.
  - intros ->. cbn [xorb].
    destruct (SFdiv_core_binary _ _ _ _ _ _) as [[mz ez] lz].
    apply binary_round_aux_negative.
Qed.

Lemma Ceil_not_positive x : not_positive x -> not_positive (GoFloat.Ceil x).
Proof.
  destruct x as [s | s | | s m e]; cbn [GoFloat.Ceil not_positive]; try tauto.
  intros ->. destruct (0 <=? e); [reflexivity | ].
  assert (H : 0 <= Zpos m / 2 ^ (- e)).
  { apply Z_div_nonneg_nonneg; [lia | apply Z.pow_nonneg; lia]. }
  destruct (Zpos m / 2 ^ (- e)) as [|k|k] eqn:Hk; [exact I | | lia].
  unfold binary_normalize, binary_round. cbn [Z.opp].
  destruct (shl_align _ _ _). apply binary_round_aux_negative.
Qed.

Lemma to_int_not_positive x : not_positive x -> GoFloat.to_int x <= 0.
Proof.
  assert (Hmin : GoInt.int_min <= 0) by (unfold GoInt.int_min; lia).
  destruct x as [s | s | | s m e]; cbn [GoFloat.to_int not_positive]; try lia.
  intros ->.
  set (a := if 0 <=? e then Zpos m * 2 ^ e else Zpos m / 2 ^ (- e)).
  assert (Ha : 0 <= a).
  { subst a. destruct (0 <=? e) eqn:He.
    - apply Z.leb_le in He. pose proof (Z.pow_pos_nonneg 2 e). nia.
    - apply Z.div_pos; [lia | ]. apply Z.leb_gt in He. apply Z.pow_pos_nonneg; lia. }
  destruct ((GoInt.int_min <=? - a) && (- a <=? GoInt.int_max))%bool; lia.
Qed.

Lemma workers_of_not_positive count : count <= 0 -> workers_of count <= 0.
Proof.
  intros Hc. unfold workers_of. rewrite interval_float.
  apply to_int_not_positive, Ceil_not_positive, div_not_positive, of_int_not_positive, Hc.
Qed.

(** Counts beyond [float_exact_max]: the conversion shifts digits out. *)

Lemma shr_1_m mrs :
  0 <= shr_m mrs -> shr_m (shr_1 mrs) = shr_m mrs / 2.
Proof.
  destruct mrs as [m r s]. cbn [shr_m]. intros Hm.
  destruct m as [|[p|p| ]|p]; cbn [shr_1 shr_m]; try lia;
    first [ reflexivity
          | apply (Z.div_unique _ _ _ 1); lia
          | apply (Z.div_unique _ _ _ 0); lia ].
Qed.

Lemma iter_shr_1_m k : forall mrs,
  0 <= shr_m mrs ->
  shr_m (iter_pos shr_1 k mrs) = shr_m mrs / 2 ^ Zpos k.
Proof.
  assert (Hnn : forall mrs, 0 <= shr_m mrs -> 0 <= shr_m (shr_1 mrs)).
  { intros mrs H. rewrite shr_1_m by assumption. apply Z.div_pos; lia. }
  induction k as [k IH | k IH | ]; intros mrs Hm; cbn [iter_pos].
  - assert (H1 := Hnn mrs Hm).
    assert (H2 : 0 <= shr_m (iter_pos shr_1 k (shr_1 mrs))).
    { rewrite IH by assumption. apply Z.div_pos; lia. }
    assert (Hp : 2 ^ Zpos k~1 = 2 * (2 ^ Zpos k * 2 ^ Zpos k)).
    { rewrite <- Z.pow_add_r, <- Z.pow_succ_r by lia. f_equal. lia. }
    rewrite IH, IH, shr_1_m by assumption.
    rewrite !Z.div_div by lia. rewrite Hp. reflexivity.
  - assert (H2 : 0 <= shr_m (iter_pos shr_1 k mrs)).
    { rewrite IH by assumption. apply Z.div_pos; lia. }
    assert (Hp : 2 ^ Zpos k~0 = 2 ^ Zpos k * 2 ^ Zpos k).
    { rewrite <- Z.pow_add_r by lia. f_equal. lia. }
    rewrite IH, IH by assumption.
    rewrite !Z.div_div by lia. rewrite Hp. reflexivity.
  - rewrite shr_1_m by assumption. reflexivity.
Qed.

Lemma round_nearest_even_bounds m l :
  m <= round_nearest_even m l <= m + 1.
Proof.
  destruct l as [|[| |]]; cbn [round_nearest_even]; try lia.
  destruct (Z.even m); lia.
Qed.

Lemma of_int_large n :
  2 ^ 53 <= n < 2 ^ 63 ->
  exists m e,
    GoFloat.of_int n = S754_finite false m e
    /\ 1 <= e <= 11
    /\ 2 ^ 52 <= Zpos m < 2 ^ 53
    /\ Zpos m * 2 ^ e <= 2 ^ 63.
Proof.
  intros Hn. destruct n as [|p|p]; try lia.
  unfold GoFloat.of_int, binary_normalize, binary_round.
  pose proof (digits2_pos_bounds p) as Hd.
  set (d := Zpos (digits2_pos p)) in *.
  assert (Hd53 : 54 <= d <= 63).
  { split.
    - destruct (Z_lt_le_dec d 54) as [Hlt | ]; [ | assumption].
      pose proof (Z.pow_le_mono_r 2 d 53 ltac:(lia) ltac:(lia)). lia.
    - destruct (Z_lt_le_dec 63 d) as [Hgt | ]; [ | assumption].
      pose proof (Z.pow_le_mono_r 2 63 (d - 1) ltac:(lia) ltac:(lia)). lia. }
  rewrite Z.add_0_r, fexp_normal by lia.
  unfold shl_align. rewrite Z.sub_0_r.
  destruct (d - 53) as [|k|k] eqn:Hk; try lia.
  unfold binary_round_aux, shr_fexp at 1. cbn [Zdigits2]. fold d.
  rewrite Z.add_0_r, fexp_normal, Z.sub_0_r, Hk by lia.
  cbn [shr].
  set (mrs := iter_pos shr_1 k (shr_record_of_loc (Zpos p) loc_Exact)).
  assert (Hm0 : shr_m mrs = Zpos p / 2 ^ Zpos k).
  { subst mrs. rewrite iter_shr_1_m; reflexivity || (cbn; lia). }
  assert (Hpow : 2 ^ d = 2 ^ 53 * 2 ^ Zpos k /\ 2 ^ (d - 1) = 2 ^ 52 * 2 ^ Zpos k).
  { rewrite <- !Z.pow_add_r by lia. split; f_equal; lia. }
  assert (HP : 0 < 2 ^ Zpos k) by (apply Z.pow_pos_nonneg; lia).
  assert (Hb0 : 2 ^ 52 <= shr_m mrs < 2 ^ 53).
  { rewrite Hm0. split.
    - apply Z.div_le_lower_bound; lia.
    - apply Z.div_lt_upper_bound; lia. }
  pose proof (round_nearest_even_bounds (shr_m mrs) (loc_of_shr_record mrs)) as Hr.
  set (m1 := round_nearest_even (shr_m mrs) (loc_of_shr_record mrs)) in *.
  destruct (renormalize m1 (0 + Zpos k)) as (m' & t & Hn' & Ht & Hv & Hm'); [lia | lia | ].
  rewrite Hn'. exists m', (0 + Zpos k + t).
  split; [reflexivity | ]. split; [lia | ]. split; [assumption | ].
  rewrite !Z.pow_add_r by lia. change (2 ^ 0) with 1.
  replace (Zpos m' * (1 * 2 ^ Zpos k * 2 ^ t)) with (Zpos m' * 2 ^ t * 2 ^ Zpos k) by ring.
  rewrite Hv.
  assert (Hd63 : 2 ^ d <= 2 ^ 63) by (apply Z.pow_le_mono_r; lia).
  nia.
Qed.

Lemma to_int_ceil_bound m e bound :
  2 ^ 52 <= Zpos m < 2 ^ 53 -> -10 <= e ->
  2 ^ 53 <= bound <= GoInt.int_max ->
  (0 <= e -> Zpos m * 2 ^ e <= bound) ->
  GoFloat.to_int (GoFloat.Ceil (S754_finite false m e)) <= bound.
Proof.
  intros Hm He Hbound Hv.
  destruct (Z_lt_le_dec e 0) as [Hneg | Hpos].
  - assert (HP : 0 < 2 ^ (- e)) by (apply Z.pow_pos_nonneg; lia).
    set (P := 2 ^ (- e)) in *.
    set (k := (Zpos m + (P - 1)) / P).
    pose proof (Z.div_mod (Zpos m + (P - 1)) P ltac:(lia)) as Hdm.
    pose proof (Z.mod_pos_bound (Zpos m + (P - 1)) P ltac:(lia)) as Hmod.
    fold k in Hdm.
    assert (Hk : (k - 1) * P < Zpos m <= k * P) by nia.
    assert (Hk1 : 0 < k <= Zpos m) by nia.
    rewrite (ceil_of_finite m e k); [lia | lia | lia | exact Hk].
  - specialize (Hv Hpos). unfold GoFloat.Ceil, GoFloat.to_int.
    destruct (0 <=? e) eqn:Hz; [ | apply Z.leb_gt in Hz; lia].
    rewrite Hz.
    assert (0 < 2 ^ e) by (apply Z.pow_pos_nonneg; lia).
    assert (Hr : (GoInt.int_min <=? Zpos m * 2 ^ e) && (Zpos m * 2 ^ e <=? GoInt.int_max) = true).
    { apply andb_true_intro. unfold GoInt.int_min.
      split; apply Z.leb_le; [ | lia].
      change (- 2 ^ 63) with (-9223372036854775808). nia. }
    rewrite Hr. exact Hv.
Qed.

Lemma workers_of_large count :
  2 ^ 53 <= count < 2 ^ 63 -> workers_of count <= workers_max.
Proof.
  intros Hc. unfold workers_of.
  destruct (of_int_large count Hc) as (m1 & e1 & -> & He1 & Hb1 & Hv1).
  rewrite interval_float.
  rewrite div_normal by (rewrite ?pow2_52, ?pow2_53; lia).
  change (Zpos 8796093022208000) with (1000 * 2 ^ 43).
  replace (Zpos m1 * 2 ^ 53) with (Zpos m1 * 1024 * 2 ^ 43)
    by (change (2 ^ 53) with (1024 * 2 ^ 43); ring).
  rewrite Z.div_mul_cancel_r by lia.
  set (l := new_location _ _).
  replace (e1 - -43 - 53) with (e1 - 10) by lia.
  pose proof (Z.div_mod (Zpos m1 * 1024) 1000 ltac:(lia)) as Hdm.
  pose proof (Z.mod_pos_bound (Zpos m1 * 1024) 1000 ltac:(lia)) as Hrho.
  set (q := Zpos m1 * 1024 / 1000) in *.
  rewrite pow2_52, pow2_53 in Hb1.
  change (2 ^ 63) with 9223372036854775808 in Hv1.
  destruct q as [|qp|qp] eqn:Hq; try lia.
  destruct (Z.eq_dec e1 11) as [-> | Hne].
  - change (2 ^ 11) with 2048 in Hv1.
    destruct (binary_round_aux_spec qp (11 - 10) l 0 4611686018427388)
      as (m & t & Hr & Ht & Hb & Hm);
      [rewrite pow2_52, pow2_54; lia | lia | reflexivity | reflexivity
      | left; lia | left; lia | ].
    rewrite Hr. apply to_int_ceil_bound; [assumption | lia | | ].
    + unfold workers_max, GoInt.int_max. rewrite pow2_53.
      change (2 ^ 63) with 9223372036854775808. lia.
    + intros _. replace (11 - 10 + t) with (t + 1) by lia.
      rewrite Z.pow_add_r by lia. change (2 ^ 1) with 2.
      unfold workers_max. lia.
  - destruct (binary_round_aux_spec qp (e1 - 10) l 0 workers_max)
      as (m & t & Hr & Ht & Hb & Hm);
      [rewrite pow2_52, pow2_54; lia | lia | reflexivity | reflexivity
      | left; lia | left; unfold workers_max; lia | ].
    rewrite Hr. apply to_int_ceil_bound; [assumption | lia | | ].
    + unfold workers_max, GoInt.int_max. rewrite pow2_53.
      change (2 ^ 63) with 9223372036854775808. lia.
    + intros Hpos.
      assert (Hle : 2 ^ (e1 - 10 + t) <= 2 ^ t) by (apply Z.pow_le_mono_r; lia).
      assert (0 < 2 ^ (e1 - 10 + t)) by (apply Z.pow_pos_nonneg; lia).
      nia.
Qed.


(** ** Sums and sizes *)

Lemma sum_app l1 l2 : sum (l1 ++ l2) = sum l1 + sum l2.
Proof. induction l1 as [|x l1 IH]; simpl; [reflexivity | rewrite IH; lia]. Qed.

Lemma sum_repeat x n : sum (repeat x n) = x * Z.of_nat n.
Proof. induction n as [|n IH]; [simpl; lia | ]. cbn [repeat sum fold_right]. fold (sum (repeat x n)). rewrite IH. lia. Qed.


Lemma worker_sizes_sum q : 0 <= q -> sum (worker_sizes q) = q.
Proof.
  intros Hq. unfold worker_sizes, sqsBatchSize.
  rewrite sum_app, sum_repeat, Z2Nat.id by (apply Z.div_pos; lia).
  pose proof (Z.div_mod q 10 ltac:(lia)).
  destruct (q mod 10 =? 0) eqn:Hm; cbn [sum fold_right].
  - apply Z.eqb_eq in Hm. lia.
  - lia.
Qed.

Lemma serial_sizes_sum q : 0 <= q -> sum (serial_sizes q) = q.
Proof.
  intros Hq. unfold serial_sizes, sqsBatchSize.
  rewrite sum_app, sum_repeat, Z2Nat.id by (apply Z.div_pos; lia).
  pose proof (Z.div_mod q 10 ltac:(lia)).
  destruct (q mod 10 =? 0) eqn:Hm; cbn [sum fold_right].
  - apply Z.eqb_eq in Hm. lia.
  - lia.
Qed.

Lemma Forall_repeat {A} (P : A -> Prop) x n : P x -> Forall P (repeat x n).
Proof. intros Hx. induction n; simpl; constructor; assumption. Qed.

Lemma worker_sizes_bounds q :
  Forall (fun b => 1 <= b <= sqsBatchSize) (worker_sizes q).
Proof.
  unfold worker_sizes. apply Forall_app. split.
  - apply Forall_repeat. unfold sqsBatchSize. lia.
  - destruct (q mod sqsBatchSize =? 0) eqn:Hm; constructor; [ | constructor].
    apply Z.eqb_neq in Hm.
    pose proof (Z.mod_pos_bound q sqsBatchSize ltac:(reflexivity)). lia.
Qed.

Lemma serial_sizes_rev q : serial_sizes q = rev (worker_sizes q).
Proof.
  unfold serial_sizes, worker_sizes. rewrite rev_app_distr, rev_repeat.
  destruct (q mod sqsBatchSize =? 0); reflexivity.
Qed.

Lemma worker_sizes_length q :
  0 <= q -> Z.of_nat (List.length (worker_sizes q)) = batches_needed q.
Proof.
  intros Hq. unfold worker_sizes, batches_needed, sqsBatchSize.
  rewrite length_app, repeat_length, Nat2Z.inj_add, Z2Nat.id by (apply Z.div_pos; lia).
  pose proof (Z.div_mod q 10 ltac:(lia)).
  pose proof (Z.mod_pos_bound q 10 ltac:(lia)).
  replace (10 - 1) with 9 by reflexivity.
  destruct (q mod 10 =? 0) eqn:Hm; cbn [List.length].
  - apply Z.eqb_eq in Hm.
    assert ((q + 9) / 10 = q / 10); [ | lia].
    symmetry. apply (Z.div_unique (q + 9) 10 (q / 10) 9); lia.
  - apply Z.eqb_neq in Hm.
    assert ((q + 9) / 10 = q / 10 + 1); [ | lia].
    symmetry. apply (Z.div_unique (q + 9) 10 (q / 10 + 1) (q mod 10 - 1)); lia.
Qed.

(** Peeling the first batch of a worker off the closed form. *)
Lemma worker_sizes_step r :
  0 < r -> worker_sizes r = Z.min sqsBatchSize r :: worker_sizes (r - Z.min sqsBatchSize r).
Proof.
  intros Hr. unfold worker_sizes, sqsBatchSize.
  destruct (Z.min_spec 10 r) as [[Hlt ->] | [Hge ->]].
  - replace (r / 10) with ((r - 10) / 10 + 1).
    2:{ replace r with ((r - 10) + 1 * 10) at 2 by lia. rewrite Z.div_add by lia. reflexivity. }
    replace ((r - 10) mod 10) with (r mod 10).
    2:{ replace r with ((r - 10) + 1 * 10) at 1 by lia. rewrite Z.mod_add by lia. reflexivity. }
    rewrite Z2Nat.inj_add by (try apply Z.div_pos; lia).
    rewrite Nat.add_comm. reflexivity.
  - rewrite Z.sub_diag. change (0 / 10) with 0. change (0 mod 10) with 0.
    destruct (Z.eq_dec r 10) as [-> | Hne]; [reflexivity | ].
    rewrite Z.div_small, Z.mod_small by lia.
    destruct (r =? 0) eqn:H0; [apply Z.eqb_eq in H0; lia | reflexivity].
Qed.

Lemma batches_needed_step r :
  0 < r -> batches_needed (r - Z.min sqsBatchSize r) = batches_needed r - 1.
Proof.
  intros Hr. unfold batches_needed, sqsBatchSize.
  destruct (Z.min_spec 10 r) as [[Hlt ->] | [Hge ->]].
  - replace (r + (10 - 1)) with ((r - 10 + (10 - 1)) + 1 * 10) by lia.
    rewrite Z.div_add by lia. lia.
  - rewrite Z.sub_diag. change ((0 + (10 - 1)) / 10) with 0.
    assert ((r + (10 - 1)) / 10 = 1); [ | lia].
    symmetry. apply (Z.div_unique (r + (10 - 1)) 10 1 (r - 1)); lia.
Qed.


Lemma batches_needed_pos r : 0 < r -> 0 < batches_needed r.
Proof.
  intros Hr. unfold batches_needed, sqsBatchSize.
  apply Z.div_str_pos. lia.
Qed.

(** ** Message generation *)

Lemma world_eta w : mkWorld (draws w) (wire w) (console w) = w.
Proof. destruct w; reflexivity. Qed.

Lemma genMessage_spec E w :
  genMessage E ""%string w
  = Ret (message_at E (draws w), ""%string)
        (mkWorld (S (draws w)) (wire w) (console w)).
Proof. reflexivity. Qed.

Lemma genMessages_spec E n : forall w,
  genMessages E n ""%string w
  = Ret (map (message_at E) (seq (draws w) n))
        (mkWorld (n + draws w) (wire w) (console w)).
Proof.
  induction n as [|n IH]; intros w.
  - cbn. rewrite world_eta. reflexivity.
  - cbn [genMessages]. unfold bind at 1. rewrite genMessage_spec.
    cbn [fst snd]. unfold bind. rewrite IH. cbn [draws wire console seq map].
    unfold ret. rewrite Nat.add_succ_r. reflexivity.
Qed.

Lemma genMessageBatch_spec E n w :
  0 <= n <= make_max E ->
  exists batch,
    genMessageBatch E n w
    = Ret batch (mkWorld (Z.to_nat n + draws w) (wire w) (console w))
    /\ len batch = n
    /\ batch = map (message_at E) (seq (draws w) (Z.to_nat n)).
Proof.
  intros Hn. unfold genMessageBatch.
  destruct (n <? 0) eqn:Hneg; [apply Z.ltb_lt in Hneg; lia | ].
  destruct (make_max E <? n) eqn:Hbig; [apply Z.ltb_lt in Hbig; lia | ].
  eexists. split; [apply genMessages_spec | ]. split; [ | reflexivity].
  unfold len. rewrite length_map, length_seq. lia.
Qed.

Lemma genMessageBatch_negative E n w : n < 0 -> genMessageBatch E n w = Panic w.
Proof.
  intros Hn. unfold genMessageBatch.
  destruct (n <? 0) eqn:Hneg; [reflexivity | apply Z.ltb_ge in Hneg; lia].
Qed.

Lemma genMessageBatch_too_long E n w :
  make_max E < n -> genMessageBatch E n w = Panic w.
Proof.
  intros Hn. unfold genMessageBatch.
  destruct (make_max E <? n) eqn:Hbig; [ | apply Z.ltb_ge in Hbig; lia].
  rewrite Bool.orb_true_r. reflexivity.
Qed.

(** ** The worker loop *)

(** What one iteration does, whatever the queue answers. *)
Lemma fillSection_body_spec E msgCount sent w :
  0 <= sent < msgCount -> msgCount <= GoInt.int_max ->
  exists batch,
    len batch = Z.min sqsBatchSize (msgCount - sent)
    /\ batch = map (message_at E) (seq (draws w) (Z.to_nat (len batch)))
    /\ fillSection_body E msgCount sent w
       = Ret (sent + len batch)
             (mkWorld (Z.to_nat (len batch) + draws w)
                      (wire w ++ [mkAttempt batch (send_fails E (wire w) batch)])
                      (console w ++ if send_fails E (wire w) batch then [ErrLine] else [])).
Proof.
  intros Hs Hm. unfold fillSection_body.
  rewrite sub_small by int_range.
  set (n := if msgCount - sent <? sqsBatchSize then msgCount - sent else sqsBatchSize).
  assert (Hn : n = Z.min sqsBatchSize (msgCount - sent)).
  { subst n. destruct (msgCount - sent <? sqsBatchSize) eqn:Hlt.
    - apply Z.ltb_lt in Hlt. lia.
    - apply Z.ltb_ge in Hlt. lia. }
  destruct (genMessageBatch_spec E n w) as (batch & Hrun & Hlen & Hbatch).
  { pose proof (make_max_batch E). rewrite Hn. unfold sqsBatchSize in *. lia. }
  exists batch. split; [congruence | ]. split; [rewrite Hlen; exact Hbatch | ].
  unfold bind at 1. rewrite Hrun.
  unfold bind, SendMessageBatch. cbn [draws wire console].
  rewrite add_small by (rewrite Hlen, Hn; int_range).
  rewrite Hlen.
  destruct (send_fails E (wire w) batch); unfold Println, ret; cbn [draws wire console].
  - reflexivity.
  - rewrite app_nil_r. reflexivity.
Qed.

Lemma answered_by_snoc E w n batch c :
  answered_by E w ->
  answered_by E (mkWorld n (wire w ++ [mkAttempt batch (send_fails E (wire w) batch)]) c).
Proof.
  unfold answered_by. cbn [wire]. intros H. apply Forall_app. split; [exact H | ].
  constructor; [ | constructor]. exists (wire w). reflexivity.
Qed.

Lemma logged_snoc w n batch failed :
  logged w ->
  logged (mkWorld n (wire w ++ [mkAttempt batch failed])
                  (console w ++ if failed then [ErrLine] else [])).
Proof.
  unfold logged, failures. cbn [wire console]. intros ->.
  rewrite filter_app, length_app. cbn [filter att_failed].
  destruct failed; cbn [List.length].
  - rewrite Nat.add_1_r. cbn [repeat]. rewrite repeat_cons. reflexivity.
  - rewrite Nat.add_0_r, app_nil_r. reflexivity.
Qed.

Lemma streamed_snoc E w n failed c :
  streamed E w ->
  streamed E (mkWorld (n + draws w)
                      (wire w ++ [mkAttempt (map (message_at E) (seq (draws w) n)) failed])
                      c).
Proof.
  unfold streamed, stream. cbn [wire draws]. intros H.
  rewrite map_app, concat_app, H. cbn [map List.concat att_batch]. rewrite app_nil_r.
  rewrite (Nat.add_comm n), seq_app, map_app. reflexivity.
Qed.

Lemma fillSection_loop_done E fuel msgCount sent w :
  msgCount <= sent -> fillSection_loop E fuel msgCount sent w = Ret sent w.
Proof.
  intros H. destruct fuel; cbn [fillSection_loop];
    (destruct (sent <? msgCount) eqn:Hlt; [apply Z.ltb_lt in Hlt; lia | reflexivity]).
Qed.

(** The loop from any point on: with fuel for the batches still needed it
    returns [msgCount], having added the batches of [worker_sizes]. *)
Lemma fillSection_loop_spec E msgCount :
  msgCount <= GoInt.int_max ->
  forall fuel sent w,
    0 <= sent <= msgCount ->
    batches_needed (msgCount - sent) <= Z.of_nat fuel ->
    exists w',
      fillSection_loop E fuel msgCount sent w = Ret msgCount w'
      /\ batch_sizes w' = batch_sizes w ++ worker_sizes (msgCount - sent)
      /\ draws w' = (Z.to_nat (msgCount - sent) + draws w)%nat
      /\ (answered_by E w -> answered_by E w')
      /\ (logged w -> logged w')
      /\ (streamed E w -> streamed E w').
Proof.
  intros Hmax. induction fuel as [|fuel IH]; intros sent w Hs Hfuel.
  - assert (sent = msgCount) as ->.
    { destruct (Z.eq_dec sent msgCount) as [|Hne]; [assumption | ].
      pose proof (batches_needed_pos (msgCount - sent)). lia. }
    exists w. rewrite fillSection_loop_done by lia. rewrite Z.sub_diag.
    cbn. rewrite app_nil_r. repeat split; auto.
  - destruct (Z.eq_dec sent msgCount) as [-> | Hne].
    + exists w. rewrite fillSection_loop_done by lia. rewrite Z.sub_diag.
      cbn. rewrite app_nil_r. repeat split; auto.
    + cbn [fillSection_loop].
      destruct (sent <? msgCount) eqn:Hlt; [ | apply Z.ltb_ge in Hlt; lia].
      destruct (fillSection_body_spec E msgCount sent w) as (batch & Hlen & Hbatch & Hbody);
        [lia | assumption | ].
      unfold bind. rewrite Hbody.
      pose proof (batches_needed_step (msgCount - sent) ltac:(lia)) as Hstep.
      pose proof (worker_sizes_step (msgCount - sent) ltac:(lia)) as Hsizes.
      rewrite <- Hlen in Hstep, Hsizes.
      edestruct (IH (sent + len batch)) as (w' & Hrun & Hb & Hd & Ha & Hl & Hst);
        [ | | exists w'; split; [exact Hrun | ] ].
      * rewrite Hlen. unfold sqsBatchSize. lia.
      * replace (msgCount - (sent + len batch)) with (msgCount - sent - len batch) by lia.
        lia.
      * replace (msgCount - (sent + len batch)) with (msgCount - sent - len batch) in * by lia.
        repeat split.
        -- rewrite Hb, Hsizes. unfold batch_sizes. cbn [wire].
           rewrite map_app, <- app_assoc. reflexivity.
        -- rewrite Hd. cbn [draws]. rewrite Hlen in *. unfold sqsBatchSize in *. lia.
        -- intros H. apply Ha, answered_by_snoc, H.
        -- intros H. apply Hl, logged_snoc, H.
        -- intros H. apply Hst. rewrite Hbatch at 2. apply streamed_snoc, H.
Qed.

(** With less fuel than batches are needed the loop does not return. *)
Lemma fillSection_loop_starves E msgCount :
  msgCount <= GoInt.int_max ->
  forall fuel sent w,
    0 <= sent <= msgCount ->
    Z.of_nat fuel < batches_needed (msgCount - sent) ->
    exists w', fillSection_loop E fuel msgCount sent w = OutOfFuel w'.
Proof.
  intros Hmax. induction fuel as [|fuel IH]; intros sent w Hs Hfuel.
  - assert (sent < msgCount).
    { destruct (Z.eq_dec sent msgCount) as [->|Hne]; [ | lia].
      rewrite Z.sub_diag in Hfuel. cbv in Hfuel. discriminate. }
    exists w. cbn [fillSection_loop].
    destruct (sent <? msgCount) eqn:Hlt; [reflexivity | apply Z.ltb_ge in Hlt; lia].
  - assert (sent < msgCount).
    { destruct (Z.eq_dec sent msgCount) as [->|Hne]; [ | lia].
      rewrite Z.sub_diag in Hfuel. change (batches_needed 0) with 0 in Hfuel. lia. }
    cbn [fillSection_loop].
    destruct (sent <? msgCount) eqn:Hlt; [ | apply Z.ltb_ge in Hlt; lia].
    destruct (fillSection_body_spec E msgCount sent w) as (batch & Hlen & _ & Hbody);
      [lia | assumption | ].
    unfold bind. rewrite Hbody.
    pose proof (batches_needed_step (msgCount - sent) ltac:(lia)) as Hstep.
    rewrite <- Hlen in Hstep.
    apply IH.
    + rewrite Hlen. unfold sqsBatchSize. lia.
    + replace (msgCount - (sent + len batch)) with (msgCount - sent - len batch) by lia.
      lia.
Qed.

(** ** The serial loop *)

Lemma serial_first_bounds c : 0 < c -> 1 <= serial_first c <= Z.min sqsBatchSize c.
Proof.
  intros Hc. unfold serial_first, sqsBatchSize.
  pose proof (Z.mod_pos_bound c 10 ltac:(lia)).
  pose proof (Z.div_mod c 10 ltac:(lia)).
  destruct (c mod 10 =? 0) eqn:Hm.
  - apply Z.eqb_eq in Hm. assert (0 < c / 10) by lia. lia.
  - apply Z.eqb_neq in Hm. assert (0 <= c / 10) by (apply Z.div_pos; lia). lia.
Qed.

Lemma serial_first_leaves_multiple c : (c - serial_first c) mod sqsBatchSize = 0.
Proof.
  unfold serial_first, sqsBatchSize.
  destruct (c mod 10 =? 0) eqn:Hm.
  - apply Z.eqb_eq in Hm.
    replace (c - 10) with (c + (-1) * 10) by lia. rewrite Z.mod_add by lia. exact Hm.
  - rewrite Zminus_mod_idemp_r, Z.sub_diag. reflexivity.
Qed.

Lemma serial_sizes_step c :
  0 < c -> serial_sizes c = serial_first c :: serial_sizes (c - serial_first c).
Proof.
  intros Hc. unfold serial_sizes at 2.
  rewrite serial_first_leaves_multiple. cbn [Z.eqb app].
  unfold serial_sizes, serial_first, sqsBatchSize.
  pose proof (Z.div_mod c 10 ltac:(lia)) as Hdm.
  pose proof (Z.mod_pos_bound c 10 ltac:(lia)).
  destruct (c mod 10 =? 0) eqn:Hm.
  - apply Z.eqb_eq in Hm. cbn [app].
    replace (c / 10) with ((c - 10) / 10 + 1).
    2:{ replace c with ((c - 10) + 1 * 10) at 2 by lia. rewrite Z.div_add by lia. reflexivity. }
    rewrite Z2Nat.inj_add by (try apply Z.div_pos; lia).
    rewrite Nat.add_comm. reflexivity.
  - cbn [app]. f_equal. f_equal. f_equal.
    apply (Z.div_unique (c - c mod 10) 10 (c / 10) 0); lia.
Qed.

Lemma batches_needed_serial_step c :
  0 < c -> batches_needed (c - serial_first c) = batches_needed c - 1.
Proof.
  intros Hc. unfold batches_needed, serial_first, sqsBatchSize.
  pose proof (Z.div_mod c 10 ltac:(lia)) as Hdm.
  pose proof (Z.mod_pos_bound c 10 ltac:(lia)).
  destruct (c mod 10 =? 0) eqn:Hm.
  - replace (c + (10 - 1)) with ((c - 10 + (10 - 1)) + 1 * 10) by lia.
    rewrite Z.div_add by lia. lia.
  - apply Z.eqb_neq in Hm.
    rewrite <- (Z.div_unique (c - c mod 10 + (10 - 1)) 10 (c / 10) 9) by lia.
    rewrite <- (Z.div_unique (c + (10 - 1)) 10 (c / 10 + 1) (c mod 10 - 1)) by lia.
    lia.
Qed.

(** What one iteration of the serial loop does. *)
Lemma fillSerially_body_spec E total c w :
  0 < c <= total -> total <= GoInt.int_max ->
  exists batch,
    len batch = serial_first c
    /\ batch = map (message_at E) (seq (draws w) (Z.to_nat (len batch)))
    /\ fillSerially_body E total c w
       = Ret (c - len batch)
             (mkWorld (Z.to_nat (len batch) + draws w)
                      (wire w ++ [mkAttempt batch (send_fails E (wire w) batch)])
                      ((console w ++ if send_fails E (wire w) batch then [ErrLine] else [])
                       ++ if (c - len batch) mod 1000 =? 0
                          then [Progress (total - (c - len batch))] else [])).
Proof.
  intros Hc Hm. unfold fillSerially_body.
  pose proof (serial_first_bounds c ltac:(lia)) as Hb.
  rewrite (rem_nonneg c sqsBatchSize) by int_range.
  set (n := if negb (c mod sqsBatchSize =? 0) then c mod sqsBatchSize else sqsBatchSize).
  assert (Hn : n = serial_first c).
  { subst n. unfold serial_first. destruct (c mod sqsBatchSize =? 0); reflexivity. }
  destruct (genMessageBatch_spec E n w) as (batch & Hrun & Hlen & Hbatch);
    [pose proof (make_max_batch E); lia | ].
  exists batch. split; [congruence | ]. split; [rewrite Hlen; exact Hbatch | ].
  unfold bind at 1. rewrite Hrun.
  unfold bind, SendMessageBatch. cbn [draws wire console].
  assert (Hl : len batch = serial_first c) by congruence.
  rewrite (sub_small c) by (rewrite Hl; int_range).
  rewrite (rem_nonneg (c - len batch) 1000) by (rewrite ?Hl; int_range).
  rewrite (sub_small total) by (rewrite Hl; int_range).
  rewrite Hlen.
  destruct (send_fails E (wire w) batch); unfold Println, ret; cbn [draws wire console];
    destruct ((c - n) mod 1000 =? 0); cbn [draws wire console];
    rewrite ?app_nil_r; reflexivity.
Qed.

Lemma fillSerially_loop_done E fuel total c w :
  c <= 0 -> fillSerially_loop E fuel total c w = Ret c w.
Proof.
  intros H. destruct fuel; cbn [fillSerially_loop];
    (destruct (c >? 0) eqn:Hgt; [apply Z.gtb_lt in Hgt; lia | reflexivity]).
Qed.

Lemma fillSerially_loop_spec E total :
  total <= GoInt.int_max ->
  forall fuel c w,
    0 <= c <= total ->
    batches_needed c <= Z.of_nat fuel ->
    exists w',
      fillSerially_loop E fuel total c w = Ret 0 w'
      /\ batch_sizes w' = batch_sizes w ++ serial_sizes c
      /\ draws w' = (Z.to_nat c + draws w)%nat
      /\ (answered_by E w -> answered_by E w')
      /\ (streamed E w -> streamed E w')
      /\ (0 < c -> exists lines, console w' = lines ++ [Progress total]).
Proof.
  intros Hmax. induction fuel as [|fuel IH]; intros c w Hc Hfuel.
  - assert (c = 0) as ->.
    { destruct (Z.eq_dec c 0) as [|Hne]; [assumption | ].
      pose proof (batches_needed_pos c). lia. }
    exists w. rewrite fillSerially_loop_done by lia.
    cbn. rewrite app_nil_r. repeat split; auto. lia.
  - destruct (Z.eq_dec c 0) as [-> | Hne].
    + exists w. rewrite fillSerially_loop_done by lia.
      cbn. rewrite app_nil_r. repeat split; auto. lia.
    + cbn [fillSerially_loop].
      destruct (c >? 0) eqn:Hgt; [ | rewrite Z.gtb_ltb in Hgt; apply Z.ltb_ge in Hgt; lia].
      destruct (fillSerially_body_spec E total c w) as (batch & Hlen & Hbatch & Hbody);
        [lia | assumption | ].
      unfold bind. rewrite Hbody.
      pose proof (serial_first_bounds c ltac:(lia)) as Hb.
      pose proof (batches_needed_serial_step c ltac:(lia)) as Hstep.
      pose proof (serial_sizes_step c ltac:(lia)) as Hsizes.
      rewrite <- Hlen in Hstep, Hsizes, Hb.
      edestruct (IH (c - len batch)) as (w' & Hrun & Hbs & Hd & Ha & Hst & Hp);
        [ | | exists w'; split; [exact Hrun | ] ].
      * lia.
      * lia.
      * repeat split.
        -- rewrite Hbs, Hsizes. unfold batch_sizes. cbn [wire].
           rewrite map_app, <- app_assoc. reflexivity.
        -- rewrite Hd. cbn [draws]. lia.
        -- intros H. apply Ha. apply (answered_by_snoc E w), H.
        -- intros H. apply Hst. rewrite Hbatch at 2. apply streamed_snoc, H.
        -- intros _. destruct (Z.eq_dec (c - len batch) 0) as [Hz | Hnz].
           ++ rewrite Hz in Hrun. rewrite fillSerially_loop_done in Hrun by lia.
              injection Hrun as <-. cbn [console].
              change (0 mod 1000 =? 0) with true. cbv iota. rewrite Z.sub_0_r.
              eexists. reflexivity.
           ++ apply Hp. lia.
Qed.

(** ** The fan-out loop *)

Lemma ceil_div_bounds count :
  0 < count ->
  0 < ceil_div count interval
  /\ (ceil_div count interval - 1) * interval < count <= ceil_div count interval * interval.
Proof.
  intros Hc. unfold ceil_div, interval.
  pose proof (Z.div_mod (count + (1000 - 1)) 1000 ltac:(lia)).
  pose proof (Z.mod_pos_bound (count + (1000 - 1)) 1000 ltac:(lia)).
  lia.
Qed.

Lemma Zrange_length i n : List.length (Zrange i n) = n.
Proof. revert i. induction n as [|n IH]; intros i; cbn; [reflexivity | rewrite IH; reflexivity]. Qed.

Lemma Zrange_nth n : forall i k d, (k < n)%nat -> nth k (Zrange i n) d = i + Z.of_nat k.
Proof.
  induction n as [|n IH]; intros i k d Hk; [lia | ].
  destruct k as [|k]; cbn [Zrange nth]; [lia | ].
  rewrite IH by lia. lia.
Qed.

(** The loop launches worker [j+1] with quota [quota_at count j] for
    every index [j] it runs through, as long as no index is past the
    messages to send. *)
Lemma spawn_loop_spec count :
  count <= GoInt.int_max ->
  forall n i,
    0 <= i -> (i + Z.of_nat n - 1) * interval < count ->
    spawn_loop n count i
    = map (fun j => (j + 1, quota_at count j)) (Zrange i n).
Proof.
  intros Hmax.
  induction n as [|n IH]; intros i Hi Hn; [reflexivity | ].
  cbn [spawn_loop Zrange map].
  assert (Hi1 : i * interval < count) by (unfold interval in *; lia).
  rewrite mul_small by int_range.
  rewrite sub_small by int_range.
  rewrite add_small by int_range.
  rewrite IH by (unfold interval in *; lia).
  f_equal. f_equal. unfold quota_at.
  destruct (count - i * interval <? interval) eqn:Hlt.
  - apply Z.ltb_lt in Hlt. lia.
  - apply Z.ltb_ge in Hlt. lia.
Qed.

(** The plan whenever the computed number of workers launches no index
    past the messages to send. *)
Lemma spawn_of_workers count n :
  workers_of count = n -> 0 <= n ->
  (n - 1) * interval < count -> count <= GoInt.int_max ->
  spawn count
  = map (fun j => (j + 1, quota_at count j)) (Zrange 0 (Z.to_nat n)).
Proof.
  intros Hw Hn Hlo Hmax. unfold spawn. rewrite Hw.
  apply spawn_loop_spec; [assumption | lia | ].
  rewrite Z2Nat.id by lia. lia.
Qed.

Lemma float_exact_in_range count :
  count <= float_exact_max -> count <= GoInt.int_max.
Proof.
  unfold float_exact_max. change (2 ^ 53) with 9007199254740992. int_range.
Qed.

Lemma spawn_spec count :
  0 <= count <= float_exact_max ->
  spawn count
  = map (fun j => (j + 1, quota_at count j))
        (Zrange 0 (Z.to_nat (ceil_div count interval))).
Proof.
  intros Hc. apply spawn_of_workers.
  - apply workers_of_exact, Hc.
  - unfold ceil_div, interval. apply Z.div_pos; lia.
  - destruct (Z.eq_dec count 0) as [-> | Hne]; [cbv; reflexivity | ].
    destruct (ceil_div_bounds count ltac:(lia)) as (Hpos & Hlo & Hhi). exact Hlo.
  - apply float_exact_in_range, Hc.
Qed.

(** Quotas in closed form. *)
Lemma quota_sum count : forall n i,
  (i + Z.of_nat n) * interval < count + interval ->
  count <= (i + Z.of_nat n) * interval ->
  (0 < n)%nat ->
  sum (map (quota_at count) (Zrange i n)) = count - i * interval.
Proof.
  induction n as [|n IH]; intros i Hlo Hhi Hn; [lia | ].
  cbn [Zrange map sum fold_right]. fold (sum (map (quota_at count) (Zrange (i + 1) n))).
  destruct n as [|n].
  - cbn. unfold quota_at, interval in *. lia.
  - rewrite IH by lia. unfold quota_at, interval in *. lia.
Qed.

(** When the loop stops short of the count every quota is a full
    interval. *)
Lemma quota_sum_full count : forall n i,
  (i + Z.of_nat n) * interval <= count ->
  sum (map (quota_at count) (Zrange i n)) = Z.of_nat n * interval.
Proof.
  induction n as [|n IH]; intros i Hhi; [reflexivity | ].
  cbn [Zrange map sum fold_right]. fold (sum (map (quota_at count) (Zrange (i + 1) n))).
  rewrite IH by lia. unfold quota_at, interval in *. lia.
Qed.

Lemma quota_full count n j :
  (Z.of_nat n - 1) * interval < count ->
  0 <= j < Z.of_nat n - 1 -> quota_at count j = interval.
Proof. unfold quota_at, interval. intros. nia. Qed.


Lemma quota_bounds count n j :
  (Z.of_nat n - 1) * interval < count ->
  0 <= j < Z.of_nat n -> 0 < quota_at count j <= interval.
Proof. unfold quota_at, interval. intros. nia. Qed.


(** Every worker is launched with a quota between one and [interval]. *)
Lemma spawn_quotas_of_workers count n :
  workers_of count = n -> 0 <= n ->
  (n - 1) * interval < count -> count <= GoInt.int_max ->
  Forall (fun u => 0 < snd u <= interval /\ snd u <= count) (spawn count).
Proof.
  intros Hw Hn Hlo Hmax. rewrite (spawn_of_workers count n) by assumption.
  apply Forall_forall. intros u Hin.
  apply in_map_iff in Hin. destruct Hin as (j & <- & Hj). cbn [snd].
  apply (In_nth _ _ 0) in Hj. destruct Hj as (k & Hk & <-).
  rewrite Zrange_length in Hk. rewrite Zrange_nth by assumption.
  pose proof (quota_bounds count (Z.to_nat n) (0 + Z.of_nat k)
                ltac:(rewrite Z2Nat.id by lia; exact Hlo) ltac:(lia)).
  unfold quota_at, interval in *. lia.
Qed.

Lemma spawn_quotas count :
  0 <= count <= float_exact_max ->
  Forall (fun u => 0 < snd u <= interval /\ snd u <= count) (spawn count).
Proof.
  intros Hc. apply (spawn_quotas_of_workers count (ceil_div count interval)).
  - apply workers_of_exact, Hc.
  - unfold ceil_div, interval. apply Z.div_pos; lia.
  - destruct (Z.eq_dec count 0) as [-> | Hne]; [cbv; reflexivity | ].
    destruct (ceil_div_bounds count ltac:(lia)) as (Hpos & Hlo & Hhi). exact Hlo.
  - apply float_exact_in_range, Hc.
Qed.

Lemma spawn_sum count :
  0 <= count <= float_exact_max -> sum (map snd (spawn count)) = count.
Proof.
  intros Hc. rewrite spawn_spec by assumption.
  destruct (Z.eq_dec count 0) as [-> | Hne]; [reflexivity | ].
  destruct (ceil_div_bounds count ltac:(lia)) as (Hpos & Hlo & Hhi).
  rewrite map_map. cbn [snd].
  rewrite (quota_sum count _ 0).
  - lia.
  - rewrite Z2Nat.id by lia. lia.
  - rewrite Z2Nat.id by lia. lia.
  - lia.
Qed.

Lemma workers_of_bound count :
  GoInt.in_range count -> workers_of count <= workers_max.
Proof.
  intros Hc. unfold GoInt.in_range, GoInt.int_min, GoInt.int_max in Hc.
  destruct (Z_le_gt_dec count 0) as [H0 | H0].
  - pose proof (workers_of_not_positive count H0). unfold workers_max. lia.
  - destruct (Z_le_gt_dec count (2 ^ 53)) as [Hs | Hl].
    + rewrite workers_of_exact by (unfold float_exact_max; lia).
      destruct (ceil_div_bounds count ltac:(lia)) as (_ & Hlo & _).
      rewrite pow2_53 in Hs. unfold interval, workers_max in *. lia.
    + apply workers_of_large. lia.
Qed.

(** The fan-out loop for any count that is not negative: no index the
    loop can reach overflows. *)
Lemma spawn_loop_any count :
  0 <= count <= GoInt.int_max ->
  forall n i,
    0 <= i -> i + Z.of_nat n <= workers_max ->
    spawn_loop n count i
    = map (fun j => (j + 1, quota_at count j)) (Zrange i n).
Proof.
  intros Hc.
  induction n as [|n IH]; intros i Hi Hn; [reflexivity | ].
  cbn [spawn_loop Zrange map]. unfold workers_max in Hn.
  rewrite mul_small by (unfold interval; int_range).
  rewrite sub_small by (unfold interval; int_range).
  rewrite add_small by int_range.
  rewrite IH by (unfold workers_max; lia).
  f_equal. f_equal. unfold quota_at.
  destruct (count - i * interval <? interval) eqn:Hlt.
  - apply Z.ltb_lt in Hlt. lia.
  - apply Z.ltb_ge in Hlt. lia.
Qed.

Lemma spawn_any count :
  GoInt.in_range count ->
  spawn count
  = map (fun j => (j + 1, quota_at count j)) (Zrange 0 (Z.to_nat (workers_of count))).
Proof.
  intros Hc. pose proof (workers_of_bound count Hc) as Hw. unfold spawn.
  destruct (Z_le_gt_dec count 0) as [H0 | H0].
  - pose proof (workers_of_not_positive count H0).
    replace (Z.to_nat (workers_of count)) with 0%nat by lia. reflexivity.
  - apply spawn_loop_any; [unfold GoInt.in_range in Hc; lia | lia | ].
    unfold workers_max in *. lia.
Qed.

(** What the workers of a plan hand over: a quota that is not positive
    counts for nothing. *)
Lemma handed_sum count : forall n i,
  0 <= i ->
  sum (map (fun j => Z.max 0 (quota_at count j)) (Zrange i n))
  = Z.max 0 (Z.min count (interval * (i + Z.of_nat n)) - interval * i).
Proof.
  induction n as [|n IH]; intros i Hi.
  - cbn [Zrange map sum fold_right]. unfold interval. lia.
  - cbn [Zrange map sum fold_right].
    fold (sum (map (fun j => Z.max 0 (quota_at count j)) (Zrange (i + 1) n))).
    rewrite IH by lia. unfold quota_at, interval. lia.
Qed.

(** ** Runs of a worker *)

Lemma batches_needed_mono a b : 0 <= a <= b -> batches_needed a <= batches_needed b.
Proof.
  intros H. unfold batches_needed, sqsBatchSize.
  apply Z.div_le_mono; lia.
Qed.

Lemma answered_by_w0 E : answered_by E w0.
Proof. constructor. Qed.

Lemma logged_w0 : logged w0.
Proof. reflexivity. Qed.

Lemma streamed_w0 E : streamed E w0.
Proof. reflexivity. Qed.

Lemma fillSection_returns E fuel id q :
  0 <= q <= GoInt.int_max -> batches_needed q <= Z.of_nat fuel ->
  exists w,
    fillSection E fuel id q w0 = Ret (mkPartial id q) w
    /\ batch_sizes w = worker_sizes q
    /\ draws w = Z.to_nat q
    /\ answered_by E w
    /\ logged w
    /\ streamed E w.
Proof.
  intros Hq Hfuel.
  destruct (fillSection_loop_spec E q ltac:(lia) fuel 0 w0)
    as (w & Hrun & Hb & Hd & Ha & Hl & Hst); [lia | rewrite Z.sub_0_r; assumption | ].
  exists w. unfold fillSection, bind. rewrite Hrun.
  rewrite Z.sub_0_r in *. cbn [batch_sizes wire w0 map app draws] in *.
  repeat split; auto using answered_by_w0, logged_w0, streamed_w0. lia.
Qed.

Lemma fillSection_starves E fuel id q :
  0 <= q <= GoInt.int_max -> Z.of_nat fuel < batches_needed q ->
  exists w, fillSection E fuel id q w0 = OutOfFuel w.
Proof.
  intros Hq Hfuel.
  destruct (fillSection_loop_starves E q ltac:(lia) fuel 0 w0) as (w & Hrun);
    [lia | rewrite Z.sub_0_r; assumption | ].
  exists w. unfold fillSection, bind. rewrite Hrun. reflexivity.
Qed.

(** Whatever the fuel, a worker that returns has done all of the above. *)
Lemma fillSection_inv E fuel id q p w :
  0 <= q <= GoInt.int_max ->
  fillSection E fuel id q w0 = Ret p w ->
  p = mkPartial id q /\ batch_sizes w = worker_sizes q /\ answered_by E w.
Proof.
  intros Hq Hrun.
  destruct (Z_lt_le_dec (Z.of_nat fuel) (batches_needed q)) as [Hlt | Hge].
  - destruct (fillSection_starves E fuel id q Hq Hlt) as (w' & Hs). congruence.
  - destruct (fillSection_returns E fuel id q Hq Hge) as (w' & Hr & Hb & _ & Ha & _).
    rewrite Hr in Hrun. injection Hrun as <- <-. auto.
Qed.

Lemma delivered_never_fails E w :
  never_fails E -> answered_by E w -> delivered w = submitted w.
Proof.
  unfold answered_by, delivered, submitted, batch_sizes. intros Hok Ha.
  induction Ha as [|a l (h & Hh) _ IH]; [reflexivity | ].
  cbn [map sum fold_right]. unfold sum in IH. rewrite IH, Hh, Hok. reflexivity.
Qed.

Lemma delivered_always_fails E w :
  always_fails E -> answered_by E w -> delivered w = 0.
Proof.
  unfold answered_by, delivered. intros Hko Ha.
  induction Ha as [|a l (h & Hh) _ IH]; [reflexivity | ].
  cbn [map sum fold_right]. unfold sum in IH. rewrite IH, Hh, Hko. reflexivity.
Qed.

Lemma failures_always_fails E w :
  always_fails E -> answered_by E w -> failures w = List.length (wire w).
Proof.
  unfold answered_by, failures. intros Hko Ha.
  induction Ha as [|a l (h & Hh) _ IH]; [reflexivity | ].
  cbn [filter]. rewrite Hh, Hko. cbn [List.length]. rewrite IH. reflexivity.
Qed.

(** Each batch of a worker is [min(10, remaining)]. *)
Lemma worker_sizes_min : forall (n : nat) q k,
  0 <= q -> batches_needed q <= Z.of_nat n ->
  (k < List.length (worker_sizes q))%nat ->
  nth k (worker_sizes q) 0
  = Z.min sqsBatchSize (q - sum (firstn k (worker_sizes q))).
Proof.
  induction n as [|n IH]; intros q k Hq Hn Hk.
  - assert (q = 0) as ->.
    { destruct (Z.eq_dec q 0); [assumption | ]. pose proof (batches_needed_pos q). lia. }
    cbn in Hk. lia.
  - destruct (Z.eq_dec q 0) as [-> | Hne]; [cbn in Hk; lia | ].
    pose proof (worker_sizes_step q ltac:(lia)) as Hstep.
    pose proof (batches_needed_step q ltac:(lia)) as Hb.
    rewrite Hstep in *. destruct k as [|k].
    + cbn [nth firstn sum fold_right]. f_equal. lia.
    + cbn [nth firstn sum fold_right List.length] in *.
      fold (sum (firstn k (worker_sizes (q - Z.min sqsBatchSize q)))).
      rewrite IH by (unfold sqsBatchSize in *; lia).
      f_equal. lia.
Qed.

(** ** The collecting loop *)

Lemma sum_permutation l l' : Permutation l l' -> sum l = sum l'.
Proof.
  induction 1 as [ | x l l' _ IH | x y l | l l' l'' _ IH1 _ IH2];
    cbn [sum fold_right] in *; unfold sum in *; lia.
Qed.

Lemma totals_snoc w n a i c t :
  totals (mkWorld n a (console w ++ [WorkerLine i c t])) = totals w ++ [t].
Proof. unfold totals. cbn [console]. rewrite flat_map_app. reflexivity. Qed.

Lemma collect_spec : forall received total w,
  Forall (fun r => 0 <= count r) received ->
  0 <= total ->
  total + sum (map count received) <= GoInt.int_max ->
  exists w',
    collect received total w = Ret (total + sum (map count received)) w'
    /\ totals w' = totals w ++ running total received
    /\ draws w' = draws w /\ wire w' = wire w.
Proof.
  induction received as [|chunk rest IH]; intros total w Hpos Ht Hmax.
  - exists w. cbn. rewrite Z.add_0_r, app_nil_r. auto.
  - inversion Hpos as [|? ? Hc Hrest]; subst.
    cbn [map sum fold_right] in Hmax. fold (sum (map count rest)) in Hmax.
    assert (Hs : 0 <= sum (map count rest)).
    { clear -Hrest. induction Hrest; cbn [map sum fold_right]; unfold sum in *; lia. }
    cbn [collect]. rewrite add_small by int_range.
    unfold bind, Println.
    edestruct (IH (total + count chunk)) as (w' & Hrun & Htot & Hd & Hw);
      [exact Hrest | lia | lia | ].
    exists w'. rewrite Hrun. split.
    + f_equal. cbn [map sum fold_right]. fold (sum (map count rest)). lia.
    + rewrite Htot, totals_snoc. cbn [running draws wire] in *.
      rewrite <- app_assoc. auto.
Qed.

Lemma running_sorted : forall received total,
  Forall (fun r => 0 <= count r) received ->
  StronglySorted Z.le (total :: running total received).
Proof.
  induction received as [|chunk rest IH]; intros total Hpos.
  - repeat constructor.
  - inversion Hpos as [|? ? Hc Hrest]; subst. cbn [running].
    specialize (IH (total + count chunk) Hrest).
    constructor; [exact IH | ].
    apply StronglySorted_inv in IH. destruct IH as [_ Hall].
    constructor; [lia | ].
    eapply Forall_impl; [ | exact Hall]. cbn. intros; lia.
Qed.

Lemma running_last : forall received total,
  last (total :: running total received) 0 = total + sum (map count received).
Proof.
  induction received as [|chunk rest IH]; intros total.
  - cbn. lia.
  - cbn [running map sum fold_right]. fold (sum (map count rest)).
    change (last (total :: ?x :: ?l) 0) with (last (x :: l) 0).
    rewrite IH. lia.
Qed.

(** ** Runs of the concurrent mode *)

Lemma worker_runs_inv (envs : Z -> Env) fuel : forall units finals,
  Forall (fun u => 0 <= snd u <= GoInt.int_max) units ->
  worker_runs envs fuel units finals ->
  map fst finals = map (fun u => mkPartial (fst u) (snd u)) units
  /\ map (fun f => submitted (snd f)) finals = map snd units
  /\ Forall2 (fun u f => answered_by (envs (fst u)) (snd f)) units finals.
Proof.
  intros units finals Hq Hruns. induction Hruns as [|u f units finals Hrun _ IH].
  - repeat split; constructor.
  - inversion Hq as [|? ? Hu Hrest]; subst.
    destruct (IH Hrest) as (Hp & Hs & Ha).
    destruct (fillSection_inv _ _ _ _ _ _ Hu Hrun) as (Hf & Hb & Hans).
    cbn [map]. rewrite Hp, Hs, Hf. unfold submitted at 1. rewrite Hb, worker_sizes_sum by lia.
    repeat split. constructor; assumption.
Qed.

Lemma worker_runs_exist (envs : Z -> Env) fuel : forall units,
  Forall (fun u => 0 <= snd u <= GoInt.int_max
                   /\ batches_needed (snd u) <= Z.of_nat fuel) units ->
  exists finals, worker_runs envs fuel units finals.
Proof.
  induction units as [|u units IH]; intros Hq.
  - exists []. constructor.
  - inversion Hq as [|? ? (Hu & Hfuel) Hrest]; subst.
    destruct (IH Hrest) as (finals & Hruns).
    destruct (fillSection_returns (envs (fst u)) fuel (fst u) (snd u) Hu Hfuel)
      as (w & Hrun & _).
    exists ((mkPartial (fst u) (snd u), w) :: finals). constructor; assumption.
Qed.

Lemma delivered_all_never_fail (envs : Z -> Env) :
  forall (units : list (Z * Z)) (finals : list (partial * World)),
  (forall i, never_fails (envs i)) ->
  Forall2 (fun u f => answered_by (envs (fst u)) (snd f)) units finals ->
  map (fun f : partial * World => delivered (snd f)) finals
  = map (fun f => submitted (snd f)) finals.
Proof.
  intros units finals Hok Ha. induction Ha as [|u f units finals Hf _ IH]; [reflexivity | ].
  cbn [map]. rewrite IH. f_equal. eapply delivered_never_fails; [apply Hok | exact Hf].
Qed.

Lemma spawn_in_range total_count :
  0 <= total_count <= float_exact_max ->
  Forall (fun u => 0 <= snd u <= GoInt.int_max) (spawn total_count).
Proof.
  intros Hc. eapply Forall_impl; [ | apply spawn_quotas; assumption].
  cbn. intros u (Hu & _). int_range.
Qed.

(** Any run of the concurrent mode: the collecting loop ends with the
    sum of the quotas, through totals that never decrease, and the
    workers have handed that many messages to the queue. *)
Lemma fillConcurrent_run_total envs fuel total_count finals out :
  Forall (fun u => 0 <= snd u <= GoInt.int_max) (spawn total_count) ->
  sum (map snd (spawn total_count)) <= GoInt.int_max ->
  fillConcurrent_run envs fuel total_count finals out ->
  exists w,
    out = Ret (sum (map snd (spawn total_count))) w
    /\ StronglySorted Z.le (0 :: totals w)
    /\ last (0 :: totals w) 0 = sum (map snd (spawn total_count))
    /\ List.length (totals w) = List.length (spawn total_count)
    /\ sum (map (fun f => submitted (snd f)) finals) = sum (map snd (spawn total_count))
    /\ ((forall i, never_fails (envs i)) ->
        sum (map (fun f => delivered (snd f)) finals)
        = sum (map snd (spawn total_count))).
Proof.
  intros Hq Hmax Hrun. destruct Hrun as [finals received Hruns Hperm].
  destruct (worker_runs_inv envs fuel _ _ Hq Hruns) as (Hp & Hs & Ha).
  assert (Hcounts : Permutation (map count received) (map snd (spawn total_count))).
  { rewrite (Permutation_map count Hperm), Hp, map_map. cbn [count].
    apply Permutation_refl. }
  assert (Hsum : sum (map count received) = sum (map snd (spawn total_count))).
  { apply sum_permutation, Hcounts. }
  assert (Hpos : Forall (fun r => 0 <= count r) received).
  { assert (H : Forall (fun c => 0 <= c) (map count received)).
    { eapply Permutation_Forall; [apply Permutation_sym, Hcounts | ].
      apply Forall_forall. intros c Hin. apply in_map_iff in Hin.
      destruct Hin as (u & <- & Hu).
      rewrite Forall_forall in Hq. specialize (Hq u Hu). lia. }
    apply Forall_forall. intros r Hr. rewrite Forall_forall in H.
    apply H, in_map, Hr. }
  destruct (collect_spec received 0 w0 Hpos ltac:(lia)) as (w & Hcol & Htot & _).
  { rewrite Hsum. lia. }
  exists w. cbn [totals w0 console flat_map app] in Htot.
  rewrite Hcol, Htot, Hsum. split; [reflexivity | ].
  split; [apply running_sorted, Hpos | ].
  split; [rewrite running_last, Hsum; reflexivity | ].
  split.
  { assert (Hlen : forall l t, List.length (running t l) = List.length l).
    { induction l as [|x l IHl]; intros t; cbn; [reflexivity | rewrite IHl; reflexivity]. }
    rewrite Hlen, (Permutation_length Hperm), length_map.
    symmetry. eapply Forall2_length, Hruns. }
  split.
  - rewrite Hs. reflexivity.
  - intros Hok. rewrite (delivered_all_never_fail envs _ _ Hok Ha), Hs. reflexivity.
Qed.

Lemma fillSection_any E fuel id q p w :
  q <= GoInt.int_max ->
  fillSection E fuel id q w0 = Ret p w ->
  p = mkPartial id (Z.max 0 q) /\ submitted w = Z.max 0 q /\ answered_by E w.
Proof.
  intros Hq Hrun. destruct (Z_le_gt_dec q 0) as [H0 | H0].
  - unfold fillSection, bind in Hrun. rewrite fillSection_loop_done in Hrun by lia.
    injection Hrun as <- <-. replace (Z.max 0 q) with 0 by lia.
    repeat split. apply answered_by_w0.
  - destruct (fillSection_inv E fuel id q p w ltac:(lia) Hrun) as (-> & Hb & Ha).
    unfold submitted. rewrite Hb, worker_sizes_sum by lia.
    replace (Z.max 0 q) with q by lia. auto.
Qed.

Lemma worker_runs_any (envs : Z -> Env) fuel : forall units finals,
  Forall (fun u => snd u <= GoInt.int_max) units ->
  worker_runs envs fuel units finals ->
  map fst finals = map (fun u => mkPartial (fst u) (Z.max 0 (snd u))) units
  /\ map (fun f => submitted (snd f)) finals = map (fun u => Z.max 0 (snd u)) units
  /\ Forall2 (fun u f => answered_by (envs (fst u)) (snd f)) units finals.
Proof.
  intros units finals Hq Hruns. induction Hruns as [|u f units finals Hrun _ IH].
  - repeat split; constructor.
  - inversion Hq as [|? ? Hu Hrest]; subst.
    destruct (IH Hrest) as (Hp & Hs & Ha).
    destruct (fillSection_any _ _ _ _ _ _ Hu Hrun) as (Hf & Hb & Hans).
    cbn [map]. rewrite Hp, Hs, Hf, Hb.
    repeat split. constructor; assumption.
Qed.

Lemma handed_bounds count :
  GoInt.in_range count ->
  Forall (fun u => snd u <= GoInt.int_max) (spawn count)
  /\ 0 <= sum (map (fun u => Z.max 0 (snd u)) (spawn count)) <= Z.max 0 count.
Proof.
  intros Hc. rewrite (spawn_any count Hc). split.
  - apply Forall_forall. intros u Hu. apply in_map_iff in Hu.
    destruct Hu as (j & <- & _). cbn [snd]. unfold quota_at, interval. int_range.
  - rewrite map_map. cbn [snd]. rewrite handed_sum by lia. unfold interval. lia.
Qed.

(** Any run of the concurrent mode, for any count an [int] holds. *)
Lemma fillConcurrent_run_any envs fuel total_count finals out :
  GoInt.in_range total_count ->
  fillConcurrent_run envs fuel total_count finals out ->
  exists w,
    out = Ret (sum (map (fun f => submitted (snd f)) finals)) w
    /\ StronglySorted Z.le (0 :: totals w)
    /\ last (0 :: totals w) 0 = sum (map (fun f => submitted (snd f)) finals)
    /\ 0 <= sum (map (fun f => submitted (snd f)) finals) <= Z.max 0 total_count
    /\ ((forall i, never_fails (envs i)) ->
        sum (map (fun f => delivered (snd f)) finals)
        = sum (map (fun f => submitted (snd f)) finals)).
Proof.
  intros Hc Hrun. destruct Hrun as [finals received Hruns Hperm].
  destruct (handed_bounds total_count Hc) as (Hq & Hsum0).
  destruct (worker_runs_any envs fuel _ _ Hq Hruns) as (Hp & Hs & Ha).
  rewrite Hs.
  set (handed := map (fun u => Z.max 0 (snd u)) (spawn total_count)) in *.
  assert (Hcounts : Permutation (map count received) handed).
  { rewrite (Permutation_map count Hperm), Hp, map_map. cbn [count].
    apply Permutation_refl. }
  assert (Hsum : sum (map count received) = sum handed).
  { apply sum_permutation, Hcounts. }
  assert (Hpos : Forall (fun r => 0 <= count r) received).
  { assert (H : Forall (fun c => 0 <= c) (map count received)).
    { eapply Permutation_Forall; [apply Permutation_sym, Hcounts | ].
      apply Forall_forall. intros c Hin. apply in_map_iff in Hin.
      destruct Hin as (u & <- & _). apply Z.le_max_l. }
    apply Forall_forall. intros r Hr. rewrite Forall_forall in H.
    apply H, in_map, Hr. }
  destruct (collect_spec received 0 w0 Hpos ltac:(lia)) as (w & Hcol & Htot & _).
  { rewrite Hsum. unfold GoInt.in_range in Hc. int_range. }
  exists w. cbn [totals w0 console flat_map app] in Htot.
  rewrite Hcol, Htot, Hsum. split; [reflexivity | ].
  split; [apply running_sorted, Hpos | ].
  split; [rewrite running_last, Hsum; reflexivity | ].
  split; [exact Hsum0 | ].
  intros Hok. rewrite (delivered_all_never_fail envs _ _ Hok Ha), Hs. reflexivity.
Qed.

(** Up to [float_exact_max] that sum is the requested count. *)
Lemma fillConcurrent_run_spec envs fuel total_count finals out :
  0 <= total_count <= float_exact_max ->
  fillConcurrent_run envs fuel total_count finals out ->
  exists w,
    out = Ret total_count w
    /\ StronglySorted Z.le (0 :: totals w)
    /\ last (0 :: totals w) 0 = total_count
    /\ List.length (totals w) = List.length (spawn total_count)
    /\ sum (map (fun f => submitted (snd f)) finals) = total_count
    /\ ((forall i, never_fails (envs i)) ->
        sum (map (fun f => delivered (snd f)) finals) = total_count).
Proof.
  intros Hc Hrun.
  pose proof (fillConcurrent_run_total envs fuel total_count finals out
                (spawn_in_range _ Hc)) as H.
  rewrite (spawn_sum total_count Hc) in H.
  apply H; [ | exact Hrun].
  apply float_exact_in_range, Hc.
Qed.

(** With fuel for the batches of the largest quota, a run exists for
    every order in which the scheduler lets the reports arrive. *)
Lemma fillConcurrent_run_exists_bounded envs fuel total_count bound :
  Forall (fun u => 0 <= snd u <= bound) (spawn total_count) ->
  bound <= GoInt.int_max ->
  batches_needed bound <= Z.of_nat fuel ->
  exists finals,
    worker_runs envs fuel (spawn total_count) finals
    /\ forall received, Permutation received (map fst finals) ->
         fillConcurrent_run envs fuel total_count finals (collect received 0 w0).
Proof.
  intros Hq Hbound Hfuel.
  destruct (worker_runs_exist envs fuel (spawn total_count)) as (finals & Hruns).
  - eapply Forall_impl; [ | exact Hq]. cbv beta. intros u Hu.
    split; [lia | ].
    etransitivity; [ | exact Hfuel]. apply batches_needed_mono. lia.
  - exists finals. split; [exact Hruns | ].
    intros received Hperm. constructor; assumption.
Qed.

Lemma fillConcurrent_run_exists envs fuel total_count :
  0 <= total_count <= float_exact_max ->
  batches_needed (Z.min interval total_count) <= Z.of_nat fuel ->
  exists finals,
    worker_runs envs fuel (spawn total_count) finals
    /\ forall received, Permutation received (map fst finals) ->
         fillConcurrent_run envs fuel total_count finals (collect received 0 w0).
Proof.
  intros Hc Hfuel.
  apply (fillConcurrent_run_exists_bounded envs fuel total_count
           (Z.min interval total_count)); [ | | exact Hfuel].
  - eapply Forall_impl; [ | apply spawn_quotas, Hc]. cbv beta. intros u Hu. lia.
  - unfold interval. int_range.
Qed.

(** Beyond [float_exact_max] the number of workers computed through
    [float64] can fall short of the exact ceiling; every worker then
    gets a full interval and the run ends below the requested count. *)
Lemma fillConcurrent_run_short envs fuel total_count n :
  workers_of total_count = n -> 0 < n ->
  n * interval < total_count -> total_count <= GoInt.int_max ->
  batches_needed interval <= Z.of_nat fuel ->
  sum (map snd (spawn total_count)) = n * interval
  /\ (exists finals w,
        fillConcurrent_run envs fuel total_count finals (Ret (n * interval) w)
        /\ ((forall i, never_fails (envs i)) ->
            sum (map (fun f => delivered (snd f)) finals) = n * interval))
  /\ (forall finals out,
        fillConcurrent_run envs fuel total_count finals out ->
        exists w,
          out = Ret (n * interval) w
          /\ ((forall i, never_fails (envs i)) ->
              sum (map (fun f => delivered (snd f)) finals) = n * interval)).
Proof.
  intros Hw Hn Hshort Hmax Hfuel.
  assert (Hlo : (n - 1) * interval < total_count) by (unfold interval in *; lia).
  pose proof (spawn_quotas_of_workers total_count n Hw ltac:(lia) Hlo Hmax) as Hq.
  assert (Hsum : sum (map snd (spawn total_count)) = n * interval).
  { rewrite (spawn_of_workers total_count n), map_map by (assumption || lia).
    cbn [snd]. rewrite quota_sum_full; rewrite Z2Nat.id by lia; lia. }
  split; [exact Hsum | ].
  assert (Hall : forall finals out,
             fillConcurrent_run envs fuel total_count finals out ->
             exists w,
               out = Ret (n * interval) w
               /\ ((forall i, never_fails (envs i)) ->
                   sum (map (fun f => delivered (snd f)) finals) = n * interval)).
  { intros finals out Hrun.
    destruct (fillConcurrent_run_total envs fuel total_count finals out)
      as (w & Hout & _ & _ & _ & _ & Hdel); [ | | exact Hrun | ].
    - eapply Forall_impl; [ | exact Hq]. cbv beta. intros u Hu. int_range.
    - rewrite Hsum. unfold interval in *. lia.
    - rewrite Hsum in Hout, Hdel. exists w. split; [exact Hout | exact Hdel]. }
  split; [ | exact Hall].
  destruct (fillConcurrent_run_exists_bounded envs fuel total_count interval)
    as (finals & _ & Hrun); [ | unfold interval; int_range | exact Hfuel | ].
  { eapply Forall_impl; [ | exact Hq]. cbv beta. intros u Hu. lia. }
  specialize (Hrun (map fst finals) (Permutation_refl _)).
  destruct (Hall _ _ Hrun) as (w & Hout & Hdel).
  rewrite Hout in Hrun.
  exists finals, w. split; [exact Hrun | exact Hdel].
Qed.

(* ------------------------------------------------------------------ *)
(** * The partition plan *)

Lemma Zrange_shift n : forall i, map (fun j => j + 1) (Zrange i n) = Zrange (i + 1) n.
Proof. induction n as [|n IH]; intros i; cbn; [reflexivity | rewrite IH; reflexivity]. Qed.

Lemma spawn_quota_nth total_count j :
  0 <= total_count <= float_exact_max ->
  0 <= j < ceil_div total_count interval ->
  nth (Z.to_nat j) (map snd (spawn total_count)) 0 = quota_at total_count j.
Proof.
  intros Hc Hj. rewrite spawn_spec, map_map by assumption. cbn [snd].
  rewrite (nth_indep _ 0 (quota_at total_count 0))
    by (rewrite length_map, Zrange_length; lia).
  rewrite (map_nth (quota_at total_count)), Zrange_nth by lia.
  f_equal. lia.
Qed.

(** X19. For every [total_count] from 1 to [float_exact_max], the
    counts that [float64] holds exactly, and the program's
    [interval] of 1000 messages per worker, [fillConcurrent] launches
    exactly [ceil(total_count / interval)] workers, numbered from 1;
    every worker but the last gets [interval] messages, the last gets
    what is left after the others, which is between 1 and [interval];
    the quotas add up to [total_count].  For 2500 messages the workers
    get 1000, 1000 and 500. *)
Theorem partition_plan total_count :
  0 < total_count <= float_exact_max ->
  let units := spawn total_count in
  let quotas := map snd units in
  let n := ceil_div total_count interval in
  workers_of total_count = n
  /\ (n - 1) * interval < total_count <= n * interval
  /\ Z.of_nat (List.length units) = n
  /\ map fst units = Zrange 1 (Z.to_nat n)
  /\ (forall j, 0 <= j < n - 1 -> nth (Z.to_nat j) quotas 0 = interval)
  /\ nth (Z.to_nat (n - 1)) quotas 0 = total_count - (n - 1) * interval
  /\ 0 < total_count - (n - 1) * interval <= interval
  /\ sum quotas = total_count
  /\ spawn 2500 = [(1, 1000); (2, 1000); (3, 500)].
Proof.
  intros Hc units quotas n.
  destruct (ceil_div_bounds total_count ltac:(lia)) as (Hpos & Hlo & Hhi).
  fold n in Hpos, Hlo, Hhi.
  assert (Hn : Z.of_nat (Z.to_nat n) = n) by lia.
  split; [apply workers_of_exact; lia | ].
  split; [lia | ].
  split.
  { subst units. rewrite spawn_spec, length_map, Zrange_length by lia. exact Hn. }
  split.
  { subst units. rewrite spawn_spec, map_map by lia. cbn [fst].
    apply (Zrange_shift _ 0). }
  split.
  { intros j Hj. subst quotas units. rewrite spawn_quota_nth by (fold n; lia).
    apply (quota_full total_count (Z.to_nat n)); lia. }
  split.
  { subst quotas units. rewrite spawn_quota_nth by (fold n; lia).
    unfold quota_at, interval in *. lia. }
  split; [unfold interval in *; lia | ].
  split; [apply spawn_sum; lia | ].
  reflexivity.
Qed.

Lemma partition_plan_witness :
  0 < 2500 <= float_exact_max
  /\ workers_of 2500 = 3
  /\ map snd (spawn 2500) = [1000; 1000; 500]
  /\ sum (map snd (spawn 2500)) = 2500.
Proof.
  assert (H : 0 < 2500 <= float_exact_max) by (unfold float_exact_max; lia).
  destruct (partition_plan 2500 H) as (Hw & _ & _ & _ & _ & _ & _ & Hs & Hp).
  split; [exact H | ]. split; [exact Hw | ]. split; [rewrite Hp; reflexivity | exact Hs].
Defined.

(** C2, where the program misses it.  The number of workers is meant to
    be the ceiling of [count / interval], and is computed through
    [float64].  For [2^60 + 25] messages [float64(count)] is [2^60] and
    the quotient in [float64] is the whole number 1152921504606847:
    that many workers are launched, one fewer than the ceiling, each
    with a full interval, and the quotas add up to one message less
    than the count. *)
Lemma plan_short_beyond_float_exact :
  workers_of 1152921504606847001 = 1152921504606847
  /\ ceil_div 1152921504606847001 interval = 1152921504606848
  /\ sum (map snd (spawn 1152921504606847001)) = 1152921504606847001 - 1.
Proof.
  assert (Hw : workers_of 1152921504606847001 = 1152921504606847)
    by (vm_compute; reflexivity).
  split; [exact Hw | ]. split; [vm_compute; reflexivity | ].
  destruct (fillConcurrent_run_short (fun _ => env_ok) 100
              1152921504606847001 1152921504606847 Hw) as (Hsum & _ & _).
  - lia.
  - unfold interval. lia.
  - int_range.
  - vm_compute. discriminate.
  - rewrite Hsum. reflexivity.
Qed.

(* ------------------------------------------------------------------ *)
(** * The batches of a worker *)

Lemma batch_sizes_length w : List.length (batch_sizes w) = List.length (wire w).
Proof. unfold batch_sizes. apply length_map. Qed.

(** C3. For every quota [q > 0], against any queue, the worker returns,
    and the batches it has issued hold [q] messages in all; each batch
    has [min(sqsBatchSize, remaining)] messages, where [remaining] is
    the quota less the batches before it, so it has between 1 and
    [sqsBatchSize = 10] messages. *)
Theorem worker_batch_sizes E fuel id q :
  0 < q <= GoInt.int_max ->
  batches_needed q <= Z.of_nat fuel ->
  exists w,
    fillSection E fuel id q w0 = Ret (mkPartial id q) w
    /\ sum (batch_sizes w) = q
    /\ Forall (fun b => 1 <= b <= sqsBatchSize) (batch_sizes w)
    /\ (forall k, (k < List.length (batch_sizes w))%nat ->
          nth k (batch_sizes w) 0
          = Z.min sqsBatchSize (q - sum (firstn k (batch_sizes w))))
    /\ sqsBatchSize = 10.
Proof.
  intros Hq Hfuel.
  destruct (fillSection_returns E fuel id q ltac:(lia) Hfuel) as (w & Hrun & Hb & _).
  exists w. rewrite Hb. split; [exact Hrun | ].
  split; [apply worker_sizes_sum; lia | ].
  split; [apply worker_sizes_bounds | ].
  split; [ | reflexivity].
  intros k Hk. apply (worker_sizes_min fuel); [lia | assumption | assumption].
Qed.

Lemma worker_batch_sizes_witness :
  0 < 25 <= GoInt.int_max
  /\ batches_needed 25 <= Z.of_nat 3
  /\ exists w,
       fillSection env_first_fails 3 1 25 w0 = Ret (mkPartial 1 25) w
       /\ sum (batch_sizes w) = 25
       /\ Forall (fun b => 1 <= b <= sqsBatchSize) (batch_sizes w).
Proof.
  assert (H1 : 0 < 25 <= GoInt.int_max) by (unfold GoInt.int_max; lia).
  assert (H2 : batches_needed 25 <= Z.of_nat 3) by (vm_compute; discriminate).
  split; [exact H1 | ]. split; [exact H2 | ].
  destruct (worker_batch_sizes env_first_fails 3 1 25 H1 H2) as (w & Hr & Hs & Hf & _).
  exists w. auto.
Defined.

(** C9. For every quota [q >= 0] and every queue, also one that refuses
    every batch, the worker loop ends after exactly [ceil(q / 10)] calls
    of [SendMessageBatch] (with fuel for that many iterations it
    returns, with less it does not) and reports [q] messages as sent:
    on every iteration [sent] grows by the length of the batch, whatever
    [SendMessageBatch] answered.  The loop of [fillSerially] ends after
    as many calls. *)
Theorem worker_ends_whatever_the_queue_answers E fuel id q :
  0 <= q <= GoInt.int_max ->
  batches_needed q = ceil_div q 10
  /\ (batches_needed q <= Z.of_nat fuel ->
        (exists w,
            fillSection E fuel id q w0 = Ret (mkPartial id q) w
            /\ len (wire w) = batches_needed q
            /\ submitted w = q)
        /\ (exists w,
            fillSerially E fuel q w0 = Ret 0 w
            /\ len (wire w) = batches_needed q
            /\ submitted w = q))
  /\ (Z.of_nat fuel < batches_needed q ->
        exists w, fillSection E fuel id q w0 = OutOfFuel w)
  /\ (forall sent w,
        0 <= sent < q ->
        exists batch w',
          fillSection_body E q sent w = Ret (sent + len batch) w'
          /\ len batch = Z.min sqsBatchSize (q - sent)
          /\ wire w' = wire w ++ [mkAttempt batch (send_fails E (wire w) batch)]).
Proof.
  intros Hq. split; [reflexivity | ]. split; [ | split].
  - intros Hfuel. split.
    + destruct (fillSection_returns E fuel id q Hq Hfuel) as (w & Hrun & Hb & _).
      exists w. split; [exact Hrun | ]. unfold len, submitted.
      rewrite <- batch_sizes_length, Hb, worker_sizes_length, worker_sizes_sum by lia.
      auto.
    + destruct (fillSerially_loop_spec E q ltac:(lia) fuel q w0 ltac:(lia) Hfuel)
        as (w & Hrun & Hb & _).
      exists w. split; [exact Hrun | ]. unfold len, submitted.
      rewrite <- batch_sizes_length, Hb. cbn [batch_sizes wire w0 map app].
      rewrite serial_sizes_rev, length_rev, worker_sizes_length by lia.
      rewrite <- serial_sizes_rev, serial_sizes_sum by lia. auto.
  - intros Hfuel. apply fillSection_starves; assumption.
  - intros sent w Hs.
    destruct (fillSection_body_spec E q sent w Hs ltac:(lia)) as (batch & Hlen & _ & Hbody).
    exists batch. eexists. split; [exact Hbody | ]. split; [exact Hlen | reflexivity].
Qed.

Lemma worker_ends_whatever_the_queue_answers_witness :
  0 <= 25 <= GoInt.int_max
  /\ batches_needed 25 <= Z.of_nat 3
  /\ exists w,
       fillSection env_failing 3 7 25 w0 = Ret (mkPartial 7 25) w
       /\ len (wire w) = 3
       /\ submitted w = 25.
Proof.
  assert (H1 : 0 <= 25 <= GoInt.int_max) by (unfold GoInt.int_max; lia).
  assert (H2 : batches_needed 25 <= Z.of_nat 3) by (vm_compute; discriminate).
  split; [exact H1 | ]. split; [exact H2 | ].
  destruct (worker_ends_whatever_the_queue_answers env_failing 3 7 25 H1)
    as (_ & Hret & _ & _).
  destruct (Hret H2) as ((w & Hr & Hl & Hs) & _).
  exists w. auto.
Defined.

(* ------------------------------------------------------------------ *)
(** * Nothing to send *)

(** C8. With a count of 0 [fillConcurrent] computes zero workers and
    launches none; the collecting loop receives nothing and leaves the
    total at 0.  There is one such run and no other. *)
Theorem nothing_to_send envs fuel :
  workers_of 0 = 0
  /\ spawn 0 = []
  /\ fillConcurrent_run envs fuel 0 [] (Ret 0 w0)
  /\ (forall finals out,
         fillConcurrent_run envs fuel 0 finals out ->
         finals = [] /\ out = Ret 0 w0).
Proof.
  split; [reflexivity | ]. split; [reflexivity | ]. split.
  - apply (FillConcurrent_run envs fuel 0 [] []); constructor.
  - intros finals out Hrun. destruct Hrun as [finals received Hruns Hperm].
    change (spawn 0) with (@nil (Z * Z)) in Hruns.
    inversion Hruns; subst. cbn [map] in Hperm.
    apply Permutation_sym, Permutation_nil in Hperm. subst received.
    split; reflexivity.
Qed.

Lemma nothing_to_send_witness :
  fillConcurrent_run (fun _ => env_ok) 0 0 [] (Ret 0 w0)
  /\ ([] = @nil (partial * World) /\ Ret 0 w0 = Ret 0 w0).
Proof.
  destruct (nothing_to_send (fun _ => env_ok) 0%nat) as (_ & _ & Hrun & Huniq).
  split; [exact Hrun | ]. exact (Huniq [] (Ret 0 w0) Hrun).
Defined.

(* ------------------------------------------------------------------ *)
(** * Serial mode *)

Lemma sum_firstn_tens : forall m j,
  exists t, sum (firstn j (repeat sqsBatchSize m)) = t * sqsBatchSize.
Proof.
  induction m as [|m IH]; intros j.
  - exists 0. destruct j; reflexivity.
  - destruct j as [|j]; [exists 0; reflexivity | ].
    destruct (IH j) as (t & Ht). exists (t + 1).
    cbn [repeat firstn sum fold_right]. unfold sum in Ht. rewrite Ht. lia.
Qed.

Lemma fillSerially_returns E fuel n :
  0 <= n <= GoInt.int_max -> batches_needed n <= Z.of_nat fuel ->
  exists w,
    fillSerially E fuel n w0 = Ret 0 w
    /\ batch_sizes w = serial_sizes n
    /\ draws w = Z.to_nat n
    /\ answered_by E w
    /\ streamed E w
    /\ (0 < n -> exists lines, console w = lines ++ [Progress n]).
Proof.
  intros Hn Hfuel.
  destruct (fillSerially_loop_spec E n ltac:(lia) fuel n w0 ltac:(lia) Hfuel)
    as (w & Hrun & Hb & Hd & Ha & Hst & Hp).
  exists w. cbn [batch_sizes wire w0 map app draws] in *.
  repeat split; auto using answered_by_w0, streamed_w0. lia.
Qed.

(** C10. In serial mode, when the count to send is not a multiple of 10,
    the first batch has [count mod 10] messages and all the others have
    exactly 10: after every iteration, whatever the count it started
    from, the count left is a multiple of 10. *)
Theorem serial_short_batch_first E fuel n :
  0 < n <= GoInt.int_max ->
  n mod sqsBatchSize <> 0 ->
  batches_needed n <= Z.of_nat fuel ->
  (exists w,
      fillSerially E fuel n w0 = Ret 0 w
      /\ batch_sizes w
         = n mod sqsBatchSize :: repeat sqsBatchSize (Z.to_nat (n / sqsBatchSize))
      /\ (forall k, (1 <= k)%nat ->
            (n - sum (firstn k (batch_sizes w))) mod sqsBatchSize = 0))
  /\ (forall total c w,
        0 < c <= total -> total <= GoInt.int_max ->
        exists c' w',
          fillSerially_body E total c w = Ret c' w'
          /\ c' mod sqsBatchSize = 0
          /\ batch_sizes w' = batch_sizes w ++ [c - c']
          /\ c - c' = (if c mod sqsBatchSize =? 0 then sqsBatchSize else c mod sqsBatchSize)).
Proof.
  intros Hn Hmod Hfuel. split.
  - destruct (fillSerially_returns E fuel n ltac:(lia) Hfuel) as (w & Hrun & Hb & _).
    exists w. split; [exact Hrun | ].
    assert (Hsizes : serial_sizes n
                     = n mod sqsBatchSize :: repeat sqsBatchSize (Z.to_nat (n / sqsBatchSize))).
    { unfold serial_sizes. apply Z.eqb_neq in Hmod. rewrite Hmod. reflexivity. }
    rewrite Hb, Hsizes. split; [reflexivity | ].
    intros k Hk. destruct k as [|k]; [lia | ].
    cbn [firstn sum fold_right].
    destruct (sum_firstn_tens (Z.to_nat (n / sqsBatchSize)) k) as (t & Ht).
    unfold sum in Ht. rewrite Ht.
    pose proof (Z.div_mod n sqsBatchSize ltac:(discriminate)) as Hdm.
    replace (n - (n mod sqsBatchSize + t * sqsBatchSize))
      with ((n / sqsBatchSize - t) * sqsBatchSize) by lia.
    apply Z.mod_mul. discriminate.
  - intros total c w Hc Htotal.
    destruct (fillSerially_body_spec E total c w Hc Htotal) as (batch & Hlen & _ & Hbody).
    eexists _, _. split; [exact Hbody | ].
    rewrite Hlen. split; [apply serial_first_leaves_multiple | ].
    split.
    + unfold batch_sizes. cbn [wire att_batch]. rewrite map_app. cbn [map att_batch].
      rewrite Hlen. do 2 f_equal. lia.
    + unfold serial_first. lia.
Qed.

Lemma serial_short_batch_first_witness :
  0 < 25 <= GoInt.int_max
  /\ 25 mod sqsBatchSize <> 0
  /\ batches_needed 25 <= Z.of_nat 3
  /\ exists w,
       fillSerially env_ok 3 25 w0 = Ret 0 w
       /\ batch_sizes w = [5; 10; 10].
Proof.
  assert (H1 : 0 < 25 <= GoInt.int_max) by (unfold GoInt.int_max; lia).
  assert (H2 : 25 mod sqsBatchSize <> 0) by (vm_compute; discriminate).
  assert (H3 : batches_needed 25 <= Z.of_nat 3) by (vm_compute; discriminate).
  split; [exact H1 | ]. split; [exact H2 | ]. split; [exact H3 | ].
  destruct (serial_short_batch_first env_ok 3 25 H1 H2 H3) as ((w & Hr & Hb & _) & _).
  exists w. split; [exact Hr | ]. rewrite Hb. reflexivity.
Defined.

(** C5, as the program has it.  To send 25 messages a worker, and so the
    concurrent mode, which gives all 25 to one worker, issues batches of
    10, 10 and 5 messages; the serial mode issues the short batch first:
    5, 10 and 10. *)
Theorem batches_of_25 E fuel id :
  (3 <= fuel)%nat ->
  (exists w,
      fillSection E fuel id 25 w0 = Ret (mkPartial id 25) w
      /\ batch_sizes w = [10; 10; 5])
  /\ spawn 25 = [(1, 25)]
  /\ (exists w,
      fillSerially E fuel 25 w0 = Ret 0 w
      /\ batch_sizes w = [5; 10; 10]).
Proof.
  intros Hfuel.
  assert (H1 : 0 <= 25 <= GoInt.int_max) by (unfold GoInt.int_max; lia).
  assert (H2 : batches_needed 25 <= Z.of_nat fuel) by (change (batches_needed 25) with 3; lia).
  split; [ | split; [reflexivity | ] ].
  - destruct (fillSection_returns E fuel id 25 H1 H2) as (w & Hrun & Hb & _).
    exists w. split; [exact Hrun | rewrite Hb; reflexivity].
  - destruct (fillSerially_returns E fuel 25 H1 H2) as (w & Hrun & Hb & _).
    exists w. split; [exact Hrun | rewrite Hb; reflexivity].
Qed.

Lemma batches_of_25_witness :
  (3 <= 3)%nat
  /\ (exists w,
         fillSection env_ok 3 1 25 w0 = Ret (mkPartial 1 25) w
         /\ batch_sizes w = [10; 10; 5])
  /\ (exists w,
         fillSerially env_ok 3 25 w0 = Ret 0 w
         /\ batch_sizes w = [5; 10; 10]).
Proof.
  assert (H : (3 <= 3)%nat) by lia.
  destruct (batches_of_25 env_ok 3 1 H) as (Hw & _ & Hs).
  split; [exact H | ]. split; [exact Hw | exact Hs].
Defined.

(** C5, as the specification has it, fails in serial mode: for 25
    messages against a queue that accepts everything [fillSerially]
    issues 5, 10, 10 and not 10, 10, 5. *)
Lemma serial_25_is_5_10_10 :
  exists w,
    fillSerially env_ok 3 25 w0 = Ret 0 w
    /\ batch_sizes w = [5; 10; 10]
    /\ batch_sizes w <> [10; 10; 5].
Proof.
  eexists. split; [vm_compute; reflexivity | ].
  split; [reflexivity | discriminate].
Qed.

(* ------------------------------------------------------------------ *)
(** * Batch assembly *)

(** C6, as the program has it.  The size asked for is not clamped.  For
    every requested size from 0 to the longest slice [make] gives,
    [genMessageBatch] returns a batch of exactly that many messages,
    each generated from a draw of its own, and does nothing else; it
    has no error to return, and for every other size, the negative ones
    and those beyond what [make] gives, it panics in [make] before
    anything is generated. *)
Theorem genMessageBatch_exact E requested_size w :
  (0 <= requested_size <= make_max E ->
   exists batch,
     genMessageBatch E requested_size w
     = Ret batch (mkWorld (Z.to_nat requested_size + draws w) (wire w) (console w))
     /\ len batch = requested_size
     /\ batch = map (message_at E) (seq (draws w) (Z.to_nat requested_size)))
  /\ (requested_size < 0 \/ make_max E < requested_size ->
      genMessageBatch E requested_size w = Panic w).
Proof.
  split; [apply genMessageBatch_spec | ].
  intros [Hneg | Hbig];
    [apply genMessageBatch_negative | apply genMessageBatch_too_long]; assumption.
Qed.

Lemma genMessageBatch_exact_witness :
  0 <= 15 <= make_max env_ok
  /\ (exists batch,
        genMessageBatch env_ok 15 w0 = Ret batch (mkWorld 15 [] [])
        /\ len batch = 15)
  /\ genMessageBatch env_ok (2 ^ 62) w0 = Panic w0.
Proof.
  assert (H : 0 <= 15 <= make_max env_ok) by (split; vm_compute; discriminate).
  assert (H' : 2 ^ 62 < 0 \/ make_max env_ok < 2 ^ 62) by (right; reflexivity).
  destruct (genMessageBatch_exact env_ok 15 w0) as (Hret & _).
  destruct (genMessageBatch_exact env_ok (2 ^ 62) w0) as (_ & Hpanic).
  destruct (Hret H) as (batch & Hrun & Hlen & _).
  split; [exact H | ].
  split; [exists batch; split; [exact Hrun | exact Hlen] | exact (Hpanic H')].
Defined.

(** C6, as the specification has it, fails: a request for 15 messages
    yields 15, not 10; a request for none yields none, not one; and a
    negative request panics in [make], as does one for more messages
    than [make] gives. *)
Lemma genMessageBatch_does_not_clamp :
  (exists batch w, genMessageBatch env_ok 15 w0 = Ret batch w /\ len batch = 15)
  /\ genMessageBatch env_ok 0 w0 = Ret [] w0
  /\ genMessageBatch env_ok (-1) w0 = Panic w0
  /\ genMessageBatch env_ok (2 ^ 62) w0 = Panic w0.
Proof.
  split; [ | split; [ | split]; reflexivity].
  eexists _, _. split; [vm_compute; reflexivity | reflexivity].
Qed.

(* ------------------------------------------------------------------ *)
(** * The run total *)

(** C7, as the program has it.  In every run of [fillConcurrent], for
    every count an [int] holds, the total of the collecting loop never
    decreases from one report to the next, and it ends at the number of
    messages the workers handed to the queue, whether the queue took
    them or not.  That number is never more than the count requested,
    and it is the count requested when that is between 0 and
    [float_exact_max]; when no call fails it is the number of messages
    delivered. *)
Theorem run_total_counts_submitted envs fuel total_count finals out :
  GoInt.in_range total_count ->
  fillConcurrent_run envs fuel total_count finals out ->
  exists w,
    out = Ret (last (0 :: totals w) 0) w
    /\ StronglySorted Z.le (0 :: totals w)
    /\ last (0 :: totals w) 0 = sum (map (fun f => submitted (snd f)) finals)
    /\ 0 <= sum (map (fun f => submitted (snd f)) finals) <= Z.max 0 total_count
    /\ (0 <= total_count <= float_exact_max ->
        sum (map (fun f => submitted (snd f)) finals) = total_count)
    /\ ((forall i, never_fails (envs i)) ->
        last (0 :: totals w) 0 = sum (map (fun f => delivered (snd f)) finals)).
Proof.
  intros Hc Hrun.
  destruct (fillConcurrent_run_any envs fuel total_count finals out Hc Hrun)
    as (w & Hout & Hsorted & Hlast & Hbound & Hdel).
  exists w. rewrite Hlast. repeat split; auto; try lia.
  - intros Hexact.
    destruct (fillConcurrent_run_spec envs fuel total_count finals out Hexact Hrun)
      as (_ & _ & _ & _ & _ & Hsub & _).
    exact Hsub.
  - intros Hok. symmetry. apply Hdel, Hok.
Qed.

(** A run for 2500 messages against a queue that refuses the first call
    of every worker; the reports arrive in the order 3, 1, 2. *)
Lemma sample_run :
  exists finals w,
    fillConcurrent_run (fun _ => env_first_fails) 100 2500 finals (Ret 2500 w)
    /\ totals w = [500; 1500; 2500].
Proof.
  destruct (fillConcurrent_run_exists (fun _ => env_first_fails) 100 2500)
    as (finals & Hruns & Hrun).
  - unfold float_exact_max. lia.
  - vm_compute. discriminate.
  - destruct (worker_runs_inv _ _ _ _ (spawn_in_range 2500 ltac:(unfold float_exact_max; lia)) Hruns)
      as (Hp & _).
    change (spawn 2500) with [(1, 1000); (2, 1000); (3, 500)] in Hp. cbn [map fst snd] in Hp.
    specialize (Hrun [mkPartial 3 500; mkPartial 1 1000; mkPartial 2 1000]).
    rewrite Hp in Hrun.
    exists finals,
      (mkWorld 0 [] [WorkerLine 3 500 500; WorkerLine 1 1000 1500; WorkerLine 2 1000 2500]).
    split.
    + apply Hrun.
      apply (Permutation_cons_app [_; _] []). apply Permutation_refl.
    + reflexivity.
Qed.

Lemma run_total_counts_submitted_witness :
  GoInt.in_range 2500
  /\ exists finals out,
       fillConcurrent_run (fun _ => env_first_fails) 100 2500 finals out
       /\ exists w,
            out = Ret 2500 w
            /\ StronglySorted Z.le (0 :: totals w)
            /\ sum (map (fun f => submitted (snd f)) finals) = 2500.
Proof.
  assert (H : GoInt.in_range 2500) by (split; vm_compute; discriminate).
  assert (H' : 0 <= 2500 <= float_exact_max) by (unfold float_exact_max; lia).
  split; [exact H | ].
  destruct sample_run as (finals & w & Hrun & _).
  exists finals, (Ret 2500 w). split; [exact Hrun | ].
  destruct (run_total_counts_submitted _ _ _ _ _ H Hrun)
    as (w' & Ho & Hs & Hl & _ & Hsub & _).
  exists w'. rewrite Hl, (Hsub H') in Ho. auto.
Defined.

(** C7, as the specification has it, fails where sends fail: against a
    queue that refuses every batch the run for 25 messages ends with a
    total of 25 although no message was delivered. *)
Lemma run_total_counts_refused_batches :
  exists finals w,
    fillConcurrent_run (fun _ => env_failing) 3 25 finals (Ret 25 w)
    /\ last (0 :: totals w) 0 = 25
    /\ sum (map (fun f => delivered (snd f)) finals) = 0.
Proof.
  destruct (fillSection_returns env_failing 3 1 25) as (w1 & Hrun & _ & _ & Ha & _).
  - unfold GoInt.int_max. lia.
  - vm_compute. discriminate.
  - exists [(mkPartial 1 25, w1)], (mkWorld 0 [] [WorkerLine 1 25 25]).
    split; [ | split].
    + change (Ret 25 ?w) with (collect [mkPartial 1 25] 0 w0).
      apply (FillConcurrent_run (fun _ => env_failing) 3 25
               [(mkPartial 1 25, w1)] [mkPartial 1 25]).
      * change (spawn 25) with [(1, 25)]. constructor; [exact Hrun | constructor].
      * apply Permutation_refl.
    + reflexivity.
    + cbn [map snd sum fold_right].
      rewrite (delivered_always_fails env_failing w1); [reflexivity | | exact Ha].
      intros h b. reflexivity.
Qed.

(* ------------------------------------------------------------------ *)
(** * Serial and concurrent mode against a queue that accepts everything *)

Lemma never_fails_env_ok : never_fails env_ok.
Proof. intros h b. reflexivity. Qed.

(** X20. For every [total_count] from 1 to [float_exact_max], the
    counts that [float64] holds exactly, and queues that never refuse a
    batch: [fillSerially] returns having delivered [total_count]
    messages, and says so in its last line; every run of
    [fillConcurrent] ends with a total of [total_count], all delivered,
    and there is such a run; and [fillSerially] hands the queue what a
    single worker with the whole count hands it: the same messages in
    the same order, all delivered, in batches whose sizes are those of
    the worker in the opposite order. *)
Theorem serial_and_concurrent_agree E envs fuel total_count :
  0 < total_count <= float_exact_max ->
  never_fails E ->
  (forall i, never_fails (envs i)) ->
  batches_needed total_count <= Z.of_nat fuel ->
  (exists ws ww lines,
      fillSerially E fuel total_count w0 = Ret 0 ws
      /\ delivered ws = total_count
      /\ console ws = lines ++ [Progress total_count]
      /\ fillSection E fuel 1 total_count w0 = Ret (mkPartial 1 total_count) ww
      /\ delivered ww = total_count
      /\ stream ws = stream ww
      /\ batch_sizes ws = rev (batch_sizes ww))
  /\ (exists finals out, fillConcurrent_run envs fuel total_count finals out)
  /\ (forall finals out,
        fillConcurrent_run envs fuel total_count finals out ->
        exists w,
          out = Ret total_count w
          /\ last (0 :: totals w) 0 = total_count
          /\ sum (map (fun f => delivered (snd f)) finals) = total_count).
Proof.
  intros Hc HE Henvs Hfuel.
  assert (Hr : 0 <= total_count <= GoInt.int_max).
  { unfold float_exact_max in Hc. change (2 ^ 53) with 9007199254740992 in Hc. int_range. }
  split; [ | split].
  - destruct (fillSerially_returns E fuel total_count Hr Hfuel)
      as (ws & Hs & Hbs & Hds & Has & Hss & Hps).
    destruct (fillSection_returns E fuel 1 total_count Hr Hfuel)
      as (ww & Hw & Hbw & Hdw & Haw & _ & Hsw).
    destruct (Hps ltac:(lia)) as (lines & Hlines).
    exists ws, ww, lines.
    rewrite (delivered_never_fails E ws HE Has), (delivered_never_fails E ww HE Haw).
    unfold submitted. rewrite Hbs, Hbw, serial_sizes_sum, worker_sizes_sum by lia.
    unfold streamed in Hss, Hsw. rewrite Hss, Hsw, Hds, Hdw.
    repeat split; auto using serial_sizes_rev.
  - destruct (fillConcurrent_run_exists envs fuel total_count ltac:(lia))
      as (finals & _ & Hrun).
    + etransitivity; [ | exact Hfuel]. apply batches_needed_mono. unfold interval. lia.
    + exists finals, (collect (map fst finals) 0 w0). apply Hrun, Permutation_refl.
  - intros finals out Hrun.
    destruct (fillConcurrent_run_spec envs fuel total_count finals out ltac:(lia) Hrun)
      as (w & Hout & _ & Hlast & _ & _ & Hdel).
    exists w. auto.
Qed.

Lemma serial_and_concurrent_agree_witness :
  0 < 2500 <= float_exact_max
  /\ never_fails env_ok
  /\ (forall i : Z, never_fails ((fun _ => env_ok) i))
  /\ batches_needed 2500 <= Z.of_nat 250
  /\ (exists ws, fillSerially env_ok 250 2500 w0 = Ret 0 ws /\ delivered ws = 2500)
  /\ (exists finals out, fillConcurrent_run (fun _ => env_ok) 250 2500 finals out
                         /\ exists w, out = Ret 2500 w).
Proof.
  assert (H1 : 0 < 2500 <= float_exact_max) by (unfold float_exact_max; lia).
  assert (H2 : forall i : Z, never_fails ((fun _ => env_ok) i))
    by (intros i; exact never_fails_env_ok).
  assert (H3 : batches_needed 2500 <= Z.of_nat 250) by (vm_compute; discriminate).
  destruct (serial_and_concurrent_agree env_ok (fun _ => env_ok) 250 2500
              H1 never_fails_env_ok H2 H3)
    as ((ws & ww & lines & Hs & Hd & _) & (finals & out & Hrun) & Hall).
  split; [exact H1 | ]. split; [exact never_fails_env_ok | ].
  split; [exact H2 | ]. split; [exact H3 | ].
  split; [exists ws; auto | ].
  exists finals, out. split; [exact Hrun | ].
  destruct (Hall finals out Hrun) as (w & Ho & _). exists w. exact Ho.
Defined.

(** C4, where the program misses it.  For [2^60 + 25] messages and
    queues that accept everything, the serial mode delivers them all,
    whereas the concurrent mode, which launches one worker fewer than
    the ceiling of [count / interval] (see C2), ends every run with a
    total of one message less, all that was delivered; and it has such
    a run. *)
Lemma concurrent_short_beyond_float_exact :
  (forall fuel,
      batches_needed 1152921504606847001 <= Z.of_nat fuel ->
      exists ws,
        fillSerially env_ok fuel 1152921504606847001 w0 = Ret 0 ws
        /\ delivered ws = 1152921504606847001)
  /\ (exists finals w,
        fillConcurrent_run (fun _ => env_ok) 100 1152921504606847001 finals
                           (Ret (1152921504606847001 - 1) w)
        /\ sum (map (fun f => delivered (snd f)) finals) = 1152921504606847001 - 1)
  /\ (forall finals out,
        fillConcurrent_run (fun _ => env_ok) 100 1152921504606847001 finals out ->
        exists w,
          out = Ret (1152921504606847001 - 1) w
          /\ sum (map (fun f => delivered (snd f)) finals) = 1152921504606847001 - 1).
Proof.
  split.
  - intros fuel Hfuel.
    destruct (fillSerially_returns env_ok fuel 1152921504606847001)
      as (ws & Hrun & Hb & _ & Ha & _); [int_range | exact Hfuel | ].
    exists ws. split; [exact Hrun | ].
    rewrite (delivered_never_fails env_ok ws never_fails_env_ok Ha).
    unfold submitted. rewrite Hb. apply serial_sizes_sum. lia.
  - destruct (fillConcurrent_run_short (fun _ => env_ok) 100
                1152921504606847001 1152921504606847)
      as (_ & (finals & w & Hrun & Hdel) & Hall).
    + vm_compute. reflexivity.
    + lia.
    + unfold interval. lia.
    + int_range.
    + vm_compute. discriminate.
    + split.
      * exists finals, w. split; [exact Hrun | ].
        apply Hdel. intros i. exact never_fails_env_ok.
      * intros finals' out Hrun'. destruct (Hall finals' out Hrun') as (w' & Hout & Hdel').
        exists w'. split; [exact Hout | ].
        apply Hdel'. intros i. exact never_fails_env_ok.
Qed.

(* ------------------------------------------------------------------ *)
(** * A send that fails *)

Lemma always_fails_env_failing : always_fails env_failing.
Proof. intros h b. reflexivity. Qed.

(** C1, as the program has it.  For every quota and every queue, on
    every iteration of the worker loop a batch of [min(10, remaining)]
    messages is generated afresh and handed to [SendMessageBatch], and
    whatever that call answers [sent] grows by the length of the batch:
    when the call fails the error is printed and nothing else differs
    from a success.  So whichever calls fail, a worker makes the calls
    it would make against a queue that never fails, batch after batch
    of new messages, no message twice, with one error line for each
    failed call; and against a queue that fails on every call the loop
    ends: after [ceil(q / 10)] calls, with [q] reported as sent, nothing
    delivered and one error line per call. *)
Theorem send_error_does_not_hold_back E fuel id q :
  0 <= q <= GoInt.int_max ->
  (forall sent w,
      0 <= sent < q ->
      exists batch failed,
        failed = send_fails E (wire w) batch
        /\ len batch = Z.min sqsBatchSize (q - sent)
        /\ batch = map (message_at E) (seq (draws w) (Z.to_nat (len batch)))
        /\ fillSection_body E q sent w
           = Ret (sent + len batch)
                 (mkWorld (Z.to_nat (len batch) + draws w)
                          (wire w ++ [mkAttempt batch failed])
                          (console w ++ if failed then [ErrLine] else [])))
  /\ (batches_needed q <= Z.of_nat fuel ->
      exists w,
        fillSection E fuel id q w0 = Ret (mkPartial id q) w
        /\ batch_sizes w = worker_sizes q
        /\ answered_by E w
        /\ stream w = map (message_at E) (seq 0 (Z.to_nat q))
        /\ console w = repeat ErrLine (failures w))
  /\ (always_fails E ->
      batches_needed q <= Z.of_nat fuel ->
      exists w,
        fillSection E fuel id q w0 = Ret (mkPartial id q) w
        /\ len (wire w) = batches_needed q
        /\ submitted w = q
        /\ delivered w = 0
        /\ console w = repeat ErrLine (Z.to_nat (batches_needed q))).
Proof.
  intros Hq. split; [ | split].
  - intros sent w Hs.
    destruct (fillSection_body_spec E q sent w Hs ltac:(lia)) as (batch & Hlen & Hb & Hrun).
    exists batch, (send_fails E (wire w) batch). auto.
  - intros Hfuel.
    destruct (fillSection_returns E fuel id q Hq Hfuel) as (w & Hrun & Hb & Hd & Ha & Hl & Hs).
    exists w. unfold streamed in Hs. rewrite Hd in Hs. auto.
  - intros HE Hfuel.
    destruct (fillSection_returns E fuel id q Hq Hfuel) as (w & Hrun & Hb & _ & Ha & Hl & _).
    exists w. split; [exact Hrun | ].
    assert (Hlen : len (wire w) = batches_needed q).
    { unfold len. rewrite <- batch_sizes_length, Hb. apply worker_sizes_length. lia. }
    split; [exact Hlen | ].
    split; [unfold submitted; rewrite Hb; apply worker_sizes_sum; lia | ].
    split; [exact (delivered_always_fails E w HE Ha) | ].
    unfold logged in Hl. rewrite Hl, (failures_always_fails E w HE Ha).
    f_equal. unfold len in Hlen. lia.
Qed.

Lemma send_error_does_not_hold_back_witness :
  0 <= 15 <= GoInt.int_max
  /\ 0 <= 0 < 15
  /\ always_fails env_failing
  /\ batches_needed 15 <= Z.of_nat 2
  /\ (exists (batch : Batch) w,
        fillSection_body env_first_fails 15 0 w0 = Ret (0 + len batch) w
        /\ len batch = 10
        /\ map att_failed (wire w) = [true]
        /\ console w = [ErrLine])
  /\ (exists w,
        fillSection env_first_fails 2 1 15 w0 = Ret (mkPartial 1 15) w
        /\ batch_sizes w = [10; 5]
        /\ map att_failed (wire w) = [true; false]
        /\ console w = [ErrLine])
  /\ (exists w,
        fillSection env_failing 2 1 15 w0 = Ret (mkPartial 1 15) w
        /\ len (wire w) = 2
        /\ delivered w = 0
        /\ console w = [ErrLine; ErrLine]).
Proof.
  assert (H1 : 0 <= 15 <= GoInt.int_max) by (unfold GoInt.int_max; lia).
  assert (H2 : 0 <= 0 < 15) by lia.
  assert (H4 : batches_needed 15 <= Z.of_nat 2) by (vm_compute; discriminate).
  destruct (send_error_does_not_hold_back env_first_fails 2 1 15 H1) as (Hstep & Hrun & _).
  destruct (send_error_does_not_hold_back env_failing 2 1 15 H1) as (_ & _ & Hend).
  destruct (Hstep 0 w0 H2) as (batch & failed & Hf & Hlen & _ & Hbody).
  destruct (Hrun H4) as (w1 & Hr1 & Hb1 & _ & _ & Hc1).
  destruct (Hend always_fails_env_failing H4) as (w & Hr & Hl & _ & Hd & Hc).
  split; [exact H1 | ]. split; [exact H2 | ].
  split; [exact always_fails_env_failing | ]. split; [exact H4 | ].
  split; [ | split].
  - exists batch. eexists. split; [exact Hbody | ]. split; [exact Hlen | ].
    cbn [wire console w0 app map att_failed]. rewrite Hf. split; reflexivity.
  - exists w1. split; [exact Hr1 | ]. split; [exact Hb1 | ].
    assert (Hw : Ret (mkPartial 1 15) w1
                 = fillSection env_first_fails 2 1 15 w0) by (symmetry; exact Hr1).
    vm_compute in Hw. injection Hw as ->. split; reflexivity.
  - exists w. auto.
Defined.

(** C1, as the specification has it, fails: against a queue that refuses
    every batch a worker with 15 messages to send returns after two
    iterations, the second batch being of 5 messages although the first,
    of 10, was refused; no amount of fuel is needed beyond that. *)
Lemma refused_batches_are_not_reissued :
  (exists w,
      fillSection env_failing 2 1 15 w0 = Ret (mkPartial 1 15) w
      /\ batch_sizes w = [10; 5]
      /\ map att_failed (wire w) = [true; true])
  /\ ~ (forall fuel, exists w, fillSection env_failing fuel 1 15 w0 = OutOfFuel w).
Proof.
  split.
  - eexists. split; [vm_compute; reflexivity | ]. split; reflexivity.
  - intros H. destruct (H 2%nat) as (w & Hw). vm_compute in Hw. discriminate.
Qed.

(* ------------------------------------------------------------------ *)
(** * Regions *)

Lemma normalizeRegion_cases r :
  (In r region_aliases /\ In (normalizeRegion r) region_names)
  \/ (~ In r region_aliases /\ normalizeRegion r = r).
Proof.
  unfold normalizeRegion.
  repeat match goal with
         | |- context [String.eqb r ?a] =>
             destruct (String.eqb_spec r a) as [-> | ?];
             [left; split; cbn; tauto | ]
         end.
  right. split; [ | reflexivity].
  cbn. intuition congruence.
Qed.

Lemma normalizeRegion_names r : In r region_names -> normalizeRegion r = r.
Proof.
  cbn. intros [<- | [<- | [<- | [<- | [<- | []]]]]]; reflexivity.
Qed.

Lemma region_names_not_aliases r : In r region_names -> ~ In r region_aliases.
Proof.
  cbn. intros [<- | [<- | [<- | [<- | [<- | []]]]]]; intuition discriminate.
Qed.

(** X1. [normalizeRegion] never returns one of the short names it
    knows, so applying it twice is applying it once. *)
Theorem normalizeRegion_idempotent r :
  ~ In (normalizeRegion r) region_aliases
  /\ normalizeRegion (normalizeRegion r) = normalizeRegion r.
Proof.
  destruct (normalizeRegion_cases r) as [(_ & Hname) | (Hnot & Heq)].
  - split; [apply region_names_not_aliases, Hname | apply normalizeRegion_names, Hname].
  - rewrite !Heq. split; [exact Hnot | reflexivity].
Qed.

(** X2. [normalizeRegion] changes its argument exactly when it is one of
    the eleven short names, and then gives one of the five region
    names; anything else, a full region name included, and a short
    name in other letter case too, comes back as it is. *)
Theorem normalizeRegion_changes_aliases_only r :
  (normalizeRegion r <> r <-> In r region_aliases)
  /\ (In r region_aliases -> In (normalizeRegion r) region_names)
  /\ List.length region_aliases = 11%nat
  /\ normalizeRegion "USE" = "USE"%string.
Proof.
  destruct (normalizeRegion_cases r) as [(Hin & Hname) | (Hnot & Heq)].
  - split; [ | split; [intros _; exact Hname | split; reflexivity] ].
    split; [intros _; exact Hin | ].
    intros _ Heq. rewrite Heq in Hname.
    exact (region_names_not_aliases r Hname Hin).
  - split; [ | split; [intros Hin; contradiction | split; reflexivity] ].
    split; [intros Hne; contradiction | intros Hin; contradiction].
Qed.

Lemma normalizeRegion_changes_aliases_only_witness :
  In "usw1"%string region_aliases
  /\ In (normalizeRegion "usw1") region_names
  /\ normalizeRegion "usw1" <> "usw1"%string.
Proof.
  assert (H : In "usw1"%string region_aliases) by (cbn; tauto).
  destruct (normalizeRegion_changes_aliases_only "usw1") as (Hiff & Hname & _).
  split; [exact H | ]. split; [exact (Hname H) | apply Hiff, H].
Defined.

(* ------------------------------------------------------------------ *)
(** * Start-up *)

Section StartupFacts.

Context {Svc Queue : Type}.
Variable S : Startup.Services Svc Queue.

Lemma eqb_empty_false s : (s =? "")%string = false <-> s <> ""%string.
Proof. apply String.eqb_neq. Qed.

(** X3. [init] returns, instead of leaving through [os.Exit], exactly
    when [flag.Parse()] returns, the credentials are found, the queue
    name and the region are not empty, a template is given by [-b] or
    read from the file of [-f], and the service and the queue answer.
    The region it then uses is the normalized one, the template is the
    content of the file when [-f] is given (whatever [-b] says, and
    also when the file is empty) and the value of [-b] otherwise; the
    count and the mode are taken as [flag.Parse()] left them. *)
Theorem init_ready_iff (p : Startup.parsed) (g : Startup.Globals Queue) :
  Startup.init S p = Startup.Ready g
  <->
  exists f auth tmpl svc queue,
    p = Startup.Parsed f
    /\ Startup.EnvAuth S = Got auth
    /\ Startup.queueName f <> ""%string
    /\ Startup.region f <> ""%string
    /\ ((Startup.msgBodyTmplFile f = ""%string
         /\ Startup.msgBodyTmpl f <> ""%string
         /\ tmpl = Startup.msgBodyTmpl f)
        \/ (Startup.msgBodyTmplFile f <> ""%string
            /\ Startup.ReadFile S (Startup.msgBodyTmplFile f) = Got tmpl))
    /\ Startup.NewFrom S (fst auth) (snd auth) (normalizeRegion (Startup.region f))
       = Got svc
    /\ Startup.GetQueue S svc (Startup.queueName f) = Got queue
    /\ g = Startup.mkGlobals (Startup.serialMode f) (Startup.count f)
                             (normalizeRegion (Startup.region f)) queue tmpl.
Proof.
  unfold Startup.init. split.
  - destruct p as [status text | f]; [discriminate | ].
    destruct (Startup.EnvAuth S) as [auth | err]; [ | discriminate].
    destruct (String.eqb_spec (Startup.queueName f) "") as [Hq | Hq]; [discriminate | ].
    destruct (String.eqb_spec (Startup.region f) "") as [Hr | Hr]; [discriminate | ].
    cbn [orb].
    destruct (String.eqb_spec (Startup.msgBodyTmplFile f) "") as [Hf | Hf];
      destruct (String.eqb_spec (Startup.msgBodyTmpl f) "") as [Hb | Hb];
      cbn [andb negb]; try discriminate.
    + destruct (Startup.NewFrom S _ _ _) as [svc | err] eqn:Hsvc; [ | discriminate].
      destruct (Startup.GetQueue S svc _) as [queue | err] eqn:Hqueue; [ | discriminate].
      intros [= <-]. exists f, auth, (Startup.msgBodyTmpl f), svc, queue.
      repeat split; auto.
    + destruct (Startup.ReadFile S _) as [tmpl | err] eqn:Hfile; [ | discriminate].
      destruct (Startup.NewFrom S _ _ _) as [svc | err] eqn:Hsvc; [ | discriminate].
      destruct (Startup.GetQueue S svc _) as [queue | err] eqn:Hqueue; [ | discriminate].
      intros [= <-]. exists f, auth, tmpl, svc, queue. repeat split; auto.
    + destruct (Startup.ReadFile S _) as [tmpl | err] eqn:Hfile; [ | discriminate].
      destruct (Startup.NewFrom S _ _ _) as [svc | err] eqn:Hsvc; [ | discriminate].
      destruct (Startup.GetQueue S svc _) as [queue | err] eqn:Hqueue; [ | discriminate].
      intros [= <-]. exists f, auth, tmpl, svc, queue. repeat split; auto.
  - intros (f & auth & tmpl & svc & queue & -> & Hauth & Hq & Hr & Htmpl & Hsvc & Hqueue & ->).
    rewrite Hauth.
    apply eqb_empty_false in Hq, Hr. rewrite Hq, Hr. cbn [orb].
    destruct Htmpl as [(Hf & Hb & ->) | (Hf & Hfile)].
    + apply eqb_empty_false in Hb. rewrite Hf, Hb. cbn [String.eqb andb negb].
      rewrite Hsvc, Hqueue. reflexivity.
    + apply eqb_empty_false in Hf. rewrite Hf, Bool.andb_false_r. cbn [negb].
      rewrite Hfile, Hsvc, Hqueue. reflexivity.
Qed.

(** X4. [init] leaves through [os.Exit] in two ways.  Either
    [flag.Parse()] has left, with the status and the text of its own.
    Or [flag.Parse()] has returned, and then the status is 1 and one
    thing was written, a line on standard output or the usage text; it
    is the usage text exactly when the credentials were found and the
    queue name or the region is empty, or both [-b] and [-f] are empty:
    missing credentials are reported before the flags are looked at. *)
Theorem init_exit (p : Startup.parsed) status out :
  Startup.init S p = Startup.Exit status out ->
  (exists stderr, p = Startup.Stopped status stderr /\ out = [Startup.ParseText stderr])
  \/ (exists f,
        p = Startup.Parsed f
        /\ status = 1
        /\ (exists o, out = [o] /\ forall stderr, o <> Startup.ParseText stderr)
        /\ (out = [Startup.Usage]
            <-> (exists auth, Startup.EnvAuth S = Got auth)
                /\ (Startup.queueName f = ""%string
                    \/ Startup.region f = ""%string
                    \/ (Startup.msgBodyTmpl f = ""%string
                        /\ Startup.msgBodyTmplFile f = ""%string)))).
Proof.
  unfold Startup.init.
  destruct p as [st text | f].
  { intros [= <- <-]. left. exists text. split; reflexivity. }
  intros H. right. exists f. split; [reflexivity | ]. revert H.
  destruct (Startup.EnvAuth S) as [auth | err].
  2:{ intros [= <- <-]. split; [reflexivity | ].
      split; [eexists; split; [reflexivity | discriminate] | ].
      split; [discriminate | intros ((a & Ha) & _); discriminate]. }
  destruct (String.eqb_spec (Startup.queueName f) "") as [Hq | Hq].
  { intros [= <- <-]. split; [reflexivity | ].
    split; [eexists; split; [reflexivity | discriminate] | ].
    split; [intros _ | reflexivity]. split; [exists auth; reflexivity | tauto]. }
  destruct (String.eqb_spec (Startup.region f) "") as [Hr | Hr].
  { intros [= <- <-]. split; [reflexivity | ].
    split; [eexists; split; [reflexivity | discriminate] | ].
    split; [intros _ | reflexivity]. split; [exists auth; reflexivity | tauto]. }
  cbn [orb].
  destruct (String.eqb_spec (Startup.msgBodyTmpl f) "") as [Hb | Hb];
    destruct (String.eqb_spec (Startup.msgBodyTmplFile f) "") as [Hf | Hf];
    cbn [andb negb].
  { intros [= <- <-]. split; [reflexivity | ].
    split; [eexists; split; [reflexivity | discriminate] | ].
    split; [intros _ | reflexivity]. split; [exists auth; reflexivity | tauto]. }
  all: repeat match goal with
         | |- context [match ?x with Got _ => _ | Failed _ => _ end] => destruct x
         end;
    intros [= <- <-];
    (split; [reflexivity | ]);
    (split; [eexists; split; [reflexivity | discriminate] | ]);
    (split; [discriminate | intros (_ & [? | [? | (? & ?)]]); congruence]).
Qed.

End StartupFacts.

Lemma init_ready_iff_witness :
  Startup.init sample_services (Startup.Parsed sample_flags)
  = Startup.Ready (Startup.mkGlobals false 1000 "us-west-1" "us-west-1/jobs" "Message_Body")%string.
Proof.
  apply (proj2 (init_ready_iff sample_services (Startup.Parsed sample_flags) _)).
  exists sample_flags, ("AK", "SK")%string, "Message_Body"%string,
         "us-west-1"%string, "us-west-1/jobs"%string.
  split; [reflexivity | ].
  split; [reflexivity | ]. split; [discriminate | ]. split; [discriminate | ].
  split; [left; split; [reflexivity | split; [discriminate | reflexivity]] | ].
  split; [reflexivity | ]. split; reflexivity.
Defined.

Lemma init_exit_witness :
  Startup.init sample_services (Startup.Parsed Startup.default_flags)
  = Startup.Exit 1 [Startup.Usage]
  /\ Startup.queueName Startup.default_flags = ""%string
  /\ Startup.init sample_services (Startup.Stopped 2 "flag provided but not defined: -x")
     = Startup.Exit 2 [Startup.ParseText "flag provided but not defined: -x"].
Proof.
  assert (H : Startup.init sample_services (Startup.Parsed Startup.default_flags)
              = Startup.Exit 1 [Startup.Usage]) by reflexivity.
  assert (H' : Startup.init sample_services
                 (Startup.Stopped 2 "flag provided but not defined: -x")
               = Startup.Exit 2 [Startup.ParseText "flag provided but not defined: -x"])
    by reflexivity.
  split; [exact H | ]. split; [ | exact H'].
  destruct (init_exit sample_services _ 1 [Startup.Usage] H)
    as [(text & Hp & _) | (f & Hp & _ & _ & Husage)]; [discriminate Hp | ].
  injection Hp as <-.
  destruct (proj1 Husage eq_refl) as (_ & [Hq | [Hr | (Hb & _)]]);
    [exact Hq | reflexivity | reflexivity].
Defined.

(** X5. Once [flag.Parse()] has returned, [init] does not look at the
    count: whatever [int] it is, zero and negative counts too, [init]
    ends the same way and hands the count on unchanged.  And when [-f]
    names a file, [-b] is not looked at either. *)
Theorem init_ignores {Svc Queue : Type} (S : Startup.Services Svc Queue)
  (f : Startup.Flags) :
  (forall c (Hc : GoInt.in_range c),
             Startup.init S (Startup.Parsed (with_count c Hc f))
             = started_with_count c (Startup.init S (Startup.Parsed f)))
  /\ (forall b, Startup.msgBodyTmplFile f <> ""%string ->
                Startup.init S (Startup.Parsed (with_body b f))
                = Startup.init S (Startup.Parsed f)).
Proof.
  split.
  - intros c Hc. unfold Startup.init, with_count. cbn [Startup.queueName Startup.region
      Startup.msgBodyTmpl Startup.msgBodyTmplFile Startup.count Startup.serialMode].
    destruct (Startup.EnvAuth S); [ | reflexivity].
    destruct (_ || _)%bool; [reflexivity | ].
    destruct (_ && _)%bool; [reflexivity | ].
    destruct (if negb _ then _ else _); [ | reflexivity].
    destruct (Startup.NewFrom S _ _ _); [ | reflexivity].
    destruct (Startup.GetQueue S _ _); reflexivity.
  - intros b Hf. unfold Startup.init, with_body. cbn [Startup.queueName Startup.region
      Startup.msgBodyTmpl Startup.msgBodyTmplFile Startup.count Startup.serialMode].
    apply String.eqb_neq in Hf. rewrite Hf, !Bool.andb_false_r. reflexivity.
Qed.

Lemma init_ignores_witness :
  Startup.init sample_services
    (Startup.Parsed (with_count (-5) (Startup.in_range_by (-5) eq_refl eq_refl)
                                sample_flags))
  = Startup.Ready (Startup.mkGlobals false (-5) "us-west-1" "us-west-1/jobs"
                                     "Message_Body")%string.
Proof.
  destruct (init_ignores sample_services sample_flags) as (Hc & _).
  rewrite (Hc (-5)). reflexivity.
Defined.

(* ------------------------------------------------------------------ *)
(** * Message identifiers *)

Lemma append_assoc (a b c : string) : ((a ++ b) ++ c = a ++ (b ++ c))%string.
Proof. induction a as [|x a IH]; cbn; [reflexivity | rewrite IH; reflexivity]. Qed.

Lemma append_cancel_r (c : string) : forall a b : string,
  (a ++ c = b ++ c)%string -> a = b.
Proof.
  assert (Hlen : forall a b : string,
             String.length (a ++ b) = (String.length a + String.length b)%nat).
  { induction a as [|x a IH]; intros b; cbn; [reflexivity | rewrite IH; reflexivity]. }
  induction a as [|x a IH]; intros b H.
  - destruct b as [|y b]; [reflexivity | ].
    apply (f_equal String.length) in H. cbn in H. rewrite Hlen in H. lia.
  - destruct b as [|y b].
    + apply (f_equal String.length) in H. cbn in H. rewrite Hlen in H. lia.
    + cbn in H. injection H as -> H. f_equal. apply IH, H.
Qed.

(** The digits and the sign of a decimal numeral are no underscore. *)
Lemma uint_no_underscore d : occurs "_" (NilEmpty.string_of_uint d) = false.
Proof. induction d; cbn; auto. Qed.

Lemma FormatInt_no_underscore z : occurs "_" (FormatInt z) = false.
Proof.
  unfold FormatInt, NilZero.string_of_int, NilZero.string_of_uint.
  destruct (Z.to_int z) as [d | d]; destruct d; cbn; auto using uint_no_underscore.
Qed.

Lemma FormatInt_inj z z' : FormatInt z = FormatInt z' -> z = z'.
Proof.
  unfold FormatInt. intros H. apply DecimalZ.to_int_inj.
  assert (Hnn : forall n, Z.to_int n <> Decimal.Pos Decimal.Nil
                          /\ Z.to_int n <> Decimal.Neg Decimal.Nil).
  { intros [|p|p]; cbn; split; try discriminate;
      intros [= Hp]; exact (DecimalPos.Unsigned.to_uint_nonnil p Hp). }
  pose proof (NilZero.isi (Z.to_int z) (proj1 (Hnn z)) (proj2 (Hnn z))) as H1.
  pose proof (NilZero.isi (Z.to_int z') (proj1 (Hnn z')) (proj2 (Hnn z'))) as H2.
  rewrite H in H1. congruence.
Qed.

(** Two strings cut at their first underscore. *)
Lemma split_at_underscore : forall a a' b b' : string,
  occurs "_" a = false -> occurs "_" a' = false ->
  (a ++ String "_" b = a' ++ String "_" b')%string ->
  a = a' /\ b = b'.
Proof.
  induction a as [|x a IH]; intros a' b b' Ha Ha' H.
  - destruct a' as [|y a']; cbn in H.
    + injection H as ->. auto.
    + injection H as <- _. cbn in Ha'. discriminate.
  - destruct a' as [|y a']; cbn in H.
    + injection H as -> _. cbn in Ha. discriminate.
    + injection H as -> H. cbn in Ha, Ha'.
      apply Bool.orb_false_iff in Ha, Ha'.
      destruct (IH a' b b' (proj2 Ha) (proj2 Ha') H) as (-> & ->). auto.
Qed.

Lemma message_at_id_inj E k k' :
  MessageId (message_at E k) = MessageId (message_at E k')
  <-> clock E k = clock E k' /\ rnd E k mod 1000 = rnd E k' mod 1000.
Proof.
  unfold message_at. cbn [MessageId]. split.
  - intros H. cbn in H. injection H as H.
    rewrite !append_assoc in H. cbn in H.
    apply split_at_underscore in H; auto using FormatInt_no_underscore.
    destruct H as (H1 & H2). split; apply FormatInt_inj; assumption.
  - intros (-> & ->). reflexivity.
Qed.

Lemma message_at_body E k :
  Body (message_at E k) = (MessageId (message_at E k) ++ " " ++ msgBodyTmpl E)%string.
Proof. unfold message_at. cbn [Body MessageId]. apply append_assoc. Qed.

(** X6. Whatever the size asked for and whatever was generated before,
    every message of a batch has as its body its own identifier, a space
    and the template: the buffer shared by the messages of a batch
    carries nothing from one message to the next.  The identifier is
    [ID_], the clock reading in decimal, an underscore and a number from
    0 to 999 in decimal. *)
Theorem batch_message_format E n w batch w' :
  genMessageBatch E n w = Ret batch w' ->
  Forall (fun m =>
            Body m = (MessageId m ++ " " ++ msgBodyTmpl E)%string
            /\ exists k r,
                 (draws w <= k < draws w')%nat
                 /\ 0 <= r < 1000
                 /\ MessageId m
                    = ("ID_" ++ FormatInt (clock E k) ++ "_" ++ FormatInt r)%string)
         batch.
Proof.
  intros Hrun.
  destruct (Z_lt_le_dec n 0) as [Hneg | Hpos].
  { rewrite genMessageBatch_negative in Hrun by assumption. discriminate. }
  destruct (Z_lt_le_dec (make_max E) n) as [Hbig | Hfits].
  { rewrite genMessageBatch_too_long in Hrun by assumption. discriminate. }
  destruct (genMessageBatch_spec E n w (conj Hpos Hfits)) as (b & Hb & _ & Hmap).
  rewrite Hb in Hrun. injection Hrun as <- <-. subst b.
  apply Forall_forall. intros m Hin. apply in_map_iff in Hin.
  destruct Hin as (k & <- & Hk). apply in_seq in Hk.
  split; [apply message_at_body | ].
  exists k, (rnd E k mod 1000). cbn [draws].
  split; [lia | ]. split; [apply Z.mod_pos_bound; lia | ].
  unfold message_at. cbn [MessageId]. rewrite !append_assoc. reflexivity.
Qed.

Lemma batch_message_format_witness :
  exists batch w',
    genMessageBatch env_ok 2 w0 = Ret batch w'
    /\ map Body batch
       = ["ID_1700000000000000000_0 Message_Body";
          "ID_1700000000000000001_919 Message_Body"]%string
    /\ Forall (fun m => Body m = (MessageId m ++ " " ++ msgBodyTmpl env_ok)%string) batch.
Proof.
  eexists _, _. split; [reflexivity | ]. split; [reflexivity | ].
  eapply Forall_impl;
    [ | exact (batch_message_format env_ok 2 w0 _ _ eq_refl)].
  cbv beta. intros m (Hbody & _). exact Hbody.
Defined.

(** X7. Two messages get the same identifier exactly when they were
    generated at the same clock reading with random numbers equal modulo
    1000; nothing else keeps identifiers apart. *)
Theorem message_ids_equal_iff E w1 w2 m1 m2 b1 b2 w1' w2' :
  genMessage E ""%string w1 = Ret (m1, b1) w1' ->
  genMessage E ""%string w2 = Ret (m2, b2) w2' ->
  (MessageId m1 = MessageId m2
   <-> clock E (draws w1) = clock E (draws w2)
       /\ rnd E (draws w1) mod 1000 = rnd E (draws w2) mod 1000)
  /\ (MessageId m1 = MessageId m2 <-> m1 = m2).
Proof.
  rewrite !genMessage_spec. intros [= <- _ _] [= <- _ _].
  split; [apply message_at_id_inj | ].
  split; [ | intros ->; reflexivity].
  intros H. apply message_at_id_inj in H. destruct H as (Hc & Hr).
  unfold message_at. rewrite Hc, Hr. reflexivity.
Qed.

Lemma message_ids_equal_iff_witness :
  exists m1 m2 b1 b2 w1' w2',
    genMessage env_ok ""%string w0 = Ret (m1, b1) w1'
    /\ genMessage env_ok ""%string (mkWorld 1 [] []) = Ret (m2, b2) w2'
    /\ MessageId m1 <> MessageId m2.
Proof.
  pose proof (genMessage_spec env_ok w0) as H1.
  pose proof (genMessage_spec env_ok (mkWorld 1 [] [])) as H2.
  destruct (message_ids_equal_iff env_ok _ _ _ _ _ _ _ _ H1 H2) as (Hiff & _).
  eexists _, _, _, _, _, _. split; [exact H1 | ]. split; [exact H2 | ].
  intros H. apply Hiff in H. destruct H as (Hc & _). vm_compute in Hc. discriminate.
Defined.

(* ------------------------------------------------------------------ *)
(** * What reaches the queue *)

(** All that is known of the final world of a worker, whatever fuel it
    returned with. *)
Lemma fillSection_final E fuel id q p w :
  0 <= q <= GoInt.int_max ->
  fillSection E fuel id q w0 = Ret p w ->
  p = mkPartial id q
  /\ batch_sizes w = worker_sizes q
  /\ draws w = Z.to_nat q
  /\ answered_by E w /\ logged w /\ streamed E w.
Proof.
  intros Hq Hrun.
  destruct (Z_lt_le_dec (Z.of_nat fuel) (batches_needed q)) as [Hlt | Hge].
  - destruct (fillSection_starves E fuel id q Hq Hlt) as (w' & Hs). congruence.
  - destruct (fillSection_returns E fuel id q Hq Hge) as (w' & Hr & H).
    rewrite Hr in Hrun. injection Hrun as <- <-. auto.
Qed.

Lemma stream_length w : len (stream w) = submitted w.
Proof.
  unfold stream, submitted, batch_sizes, len.
  induction (wire w) as [|a l IH]; [reflexivity | ].
  cbn [map List.concat sum fold_right]. rewrite length_app, Nat2Z.inj_add, IH.
  reflexivity.
Qed.

(** X8. Whatever the queue answers, the messages a worker hands to it,
    batch after batch, are exactly the messages it generated, one for
    each of its [q] draws, each once and in the order of generation;
    [fillSerially] hands over the same messages in the same order. *)
Theorem worker_hands_over_what_it_generates E fuel id q :
  0 <= q <= GoInt.int_max ->
  batches_needed q <= Z.of_nat fuel ->
  exists ww ws,
    fillSection E fuel id q w0 = Ret (mkPartial id q) ww
    /\ fillSerially E fuel q w0 = Ret 0 ws
    /\ stream ww = map (message_at E) (seq 0 (Z.to_nat q))
    /\ stream ws = stream ww
    /\ draws ww = Z.to_nat q
    /\ draws ws = Z.to_nat q
    /\ len (stream ww) = q.
Proof.
  intros Hq Hfuel.
  destruct (fillSection_returns E fuel id q Hq Hfuel)
    as (ww & Hw & Hbw & Hdw & _ & _ & Hsw).
  destruct (fillSerially_returns E fuel q Hq Hfuel)
    as (ws & Hs & _ & Hds & _ & Hss & _).
  exists ww, ws. unfold streamed in *. rewrite Hss, Hsw, Hds, Hdw.
  repeat split; auto.
  unfold len. rewrite length_map, length_seq. lia.
Qed.

Lemma worker_hands_over_what_it_generates_witness :
  0 <= 25 <= GoInt.int_max
  /\ batches_needed 25 <= Z.of_nat 3
  /\ exists ww,
       fillSection env_first_fails 3 1 25 w0 = Ret (mkPartial 1 25) ww
       /\ stream ww = map (message_at env_first_fails) (seq 0 25).
Proof.
  assert (H1 : 0 <= 25 <= GoInt.int_max) by (unfold GoInt.int_max; lia).
  assert (H2 : batches_needed 25 <= Z.of_nat 3) by (vm_compute; discriminate).
  destruct (worker_hands_over_what_it_generates env_first_fails 3 1 25 H1 H2)
    as (ww & _ & Hw & _ & Hs & _).
  split; [exact H1 | ]. split; [exact H2 | ]. exists ww. split; [exact Hw | exact Hs].
Defined.

Lemma NoDup_map_iff {A B} (f : A -> B) (l : list A) :
  NoDup l ->
  (NoDup (map f l) <-> forall x y, In x l -> In y l -> f x = f y -> x = y).
Proof.
  intros Hl. split.
  - intros Hmap. induction l as [|a l IH]; [intros x y [] | ].
    cbn [map] in Hmap. inversion Hmap as [|? ? Hnotin Hrest]; subst.
    inversion Hl as [|? ? Ha Hl']; subst.
    intros x y [<- | Hx] [<- | Hy] Hxy; auto.
    + exfalso. apply Hnotin. rewrite Hxy. apply in_map, Hy.
    + exfalso. apply Hnotin. rewrite <- Hxy. apply in_map, Hx.
  - intros Hinj. apply NoDup_map_NoDup_ForallPairs; [ | exact Hl].
    intros x y Hx Hy. apply Hinj; assumption.
Qed.

(** X9. The identifiers of the messages a worker sends are all different
    exactly when no two of its draws meet the same clock reading with
    the same random number modulo 1000; and then, and only then, the
    bodies are all different as well. *)
Theorem worker_identifiers_distinct_iff E fuel id q p w :
  0 <= q <= GoInt.int_max ->
  fillSection E fuel id q w0 = Ret p w ->
  (NoDup (map MessageId (stream w))
   <-> forall k k', (k < Z.to_nat q)%nat -> (k' < Z.to_nat q)%nat ->
         clock E k = clock E k' ->
         rnd E k mod 1000 = rnd E k' mod 1000 -> k = k')
  /\ (NoDup (map Body (stream w)) <-> NoDup (map MessageId (stream w))).
Proof.
  intros Hq Hrun.
  destruct (fillSection_final E fuel id q p w Hq Hrun) as (_ & _ & Hd & _ & _ & Hs).
  unfold streamed in Hs. rewrite Hs, Hd, !map_map.
  pose proof (seq_NoDup (Z.to_nat q) 0) as Hseq.
  rewrite !(NoDup_map_iff _ _ Hseq).
  split; split.
  - intros H k k' Hk Hk' Hc Hr. apply H; try (apply in_seq; lia).
    apply message_at_id_inj. auto.
  - intros H k k' Hk Hk' Hid. apply in_seq in Hk, Hk'.
    apply message_at_id_inj in Hid. destruct Hid. apply H; auto; lia.
  - intros H k k' Hk Hk' Hid. apply H; auto.
    rewrite !message_at_body, Hid. reflexivity.
  - intros H k k' Hk Hk' Hbody. apply H; auto.
    rewrite !message_at_body in Hbody. apply append_cancel_r in Hbody. exact Hbody.
Qed.

Lemma worker_identifiers_distinct_iff_witness :
  0 <= 25 <= GoInt.int_max
  /\ exists w,
       fillSection env_ok 3 1 25 w0 = Ret (mkPartial 1 25) w
       /\ NoDup (map MessageId (stream w))
       /\ NoDup (map Body (stream w)).
Proof.
  assert (H1 : 0 <= 25 <= GoInt.int_max) by (unfold GoInt.int_max; lia).
  split; [exact H1 | ].
  destruct (fillSection_returns env_ok 3 1 25 H1) as (w & Hrun & _);
    [vm_compute; discriminate | ].
  exists w. split; [exact Hrun | ].
  destruct (worker_identifiers_distinct_iff env_ok 3 1 25 _ w H1 Hrun) as (Hid & Hbody).
  assert (H : NoDup (map MessageId (stream w))).
  { apply Hid. intros k k' _ _ Hc _. unfold env_ok, sample_clock in Hc.
    cbn [clock] in Hc. lia. }
  split; [exact H | apply Hbody, H].
Defined.

(** X10. Whatever the queue answers, a worker prints one error line for
    every call of [SendMessageBatch] that failed and nothing else; it
    makes [ceil(q / 10)] calls, so at most that many lines. *)
Theorem worker_prints_one_line_per_failure E fuel id q p w :
  0 <= q <= GoInt.int_max ->
  fillSection E fuel id q w0 = Ret p w ->
  console w = repeat ErrLine (failures w)
  /\ failures w = List.length (filter att_failed (wire w))
  /\ Z.of_nat (failures w) <= len (wire w)
  /\ len (wire w) = batches_needed q
  /\ (never_fails E -> console w = []).
Proof.
  intros Hq Hrun.
  destruct (fillSection_final E fuel id q p w Hq Hrun) as (_ & Hb & _ & Ha & Hl & _).
  split; [exact Hl | ]. split; [reflexivity | ].
  split; [unfold failures, len; pose proof (filter_length_le att_failed (wire w)); lia | ].
  split.
  - unfold len. rewrite <- batch_sizes_length, Hb. apply worker_sizes_length. lia.
  - intros Hok. rewrite Hl. replace (failures w) with 0%nat; [reflexivity | ].
    unfold failures. unfold answered_by in Ha. clear -Ha Hok.
    induction Ha as [|a l (h & Hh) _ IH]; [reflexivity | ].
    cbn [filter]. rewrite Hh, Hok. exact IH.
Qed.

Lemma worker_prints_one_line_per_failure_witness :
  0 <= 25 <= GoInt.int_max
  /\ exists w,
       fillSection env_first_fails 3 1 25 w0 = Ret (mkPartial 1 25) w
       /\ console w = [ErrLine].
Proof.
  assert (H1 : 0 <= 25 <= GoInt.int_max) by (unfold GoInt.int_max; lia).
  split; [exact H1 | ].
  eexists. split; [vm_compute; reflexivity | ].
  match goal with
  | |- console ?w = _ =>
      destruct (worker_prints_one_line_per_failure env_first_fails 3 1 25
                  (mkPartial 1 25) w H1) as (Hc & _); [vm_compute; reflexivity | ]
  end.
  reflexivity.
Defined.

(* ------------------------------------------------------------------ *)
(** * Counts that are not positive *)


(** X11. With a count that is zero or negative, which [init] lets
    through, nothing is sent in either mode: [fillSerially] returns at
    once and leaves the count as it is, a worker given such a quota
    reports 0 without a call, and [fillConcurrent] computes a number of
    workers that is not positive, launches none and ends with a total
    of 0. *)
Theorem nothing_sent_for_counts_not_positive n :
  n <= 0 ->
  (forall E fuel w, fillSerially E fuel n w = Ret n w)
  /\ (forall E fuel id w, fillSection E fuel id n w = Ret (mkPartial id 0) w)
  /\ workers_of n <= 0
  /\ spawn n = []
  /\ (forall envs fuel, fillConcurrent_run envs fuel n [] (Ret 0 w0))
  /\ (forall envs fuel finals out,
         fillConcurrent_run envs fuel n finals out ->
         finals = [] /\ out = Ret 0 w0).
Proof.
  intros Hn.
  assert (Hspawn : spawn n = []).
  { unfold spawn. pose proof (workers_of_not_positive n Hn).
    replace (Z.to_nat (workers_of n)) with 0%nat by lia. reflexivity. }
  split; [intros E fuel w; apply fillSerially_loop_done, Hn | ].
  split.
  { intros E fuel id w. unfold fillSection, bind.
    rewrite fillSection_loop_done by lia. reflexivity. }
  split; [apply workers_of_not_positive, Hn | ].
  split; [exact Hspawn | ]. split.
  - intros envs fuel. apply (FillConcurrent_run envs fuel n [] []).
    + unfold worker_runs. rewrite Hspawn. constructor.
    + constructor.
  - intros envs fuel finals out Hrun. destruct Hrun as [finals received Hruns Hperm].
    unfold worker_runs in Hruns. rewrite Hspawn in Hruns.
    inversion Hruns; subst. cbn [map] in Hperm.
    apply Permutation_sym, Permutation_nil in Hperm. subst received.
    split; reflexivity.
Qed.

Lemma nothing_sent_for_counts_not_positive_witness :
  -5 <= 0
  /\ fillSerially env_ok 0 (-5) w0 = Ret (-5) w0
  /\ workers_of (-5) <= 0
  /\ fillConcurrent_run (fun _ => env_ok) 0 (-5) [] (Ret 0 w0).
Proof.
  assert (H : -5 <= 0) by lia.
  destruct (nothing_sent_for_counts_not_positive (-5) H) as (Hs & _ & Hw & _ & Hrun & _).
  split; [exact H | ]. split; [apply Hs | ]. split; [exact Hw | apply Hrun].
Defined.

(* ------------------------------------------------------------------ *)
(** * The lines and the calls of the concurrent mode *)

Lemma reported_snoc w n a i c t :
  reported (mkWorld n a (console w ++ [WorkerLine i c t])) = reported w ++ [(i, c)].
Proof. unfold reported. cbn [console]. rewrite flat_map_app. reflexivity. Qed.

Lemma collect_reported : forall received total w,
  exists t w',
    collect received total w = Ret t w'
    /\ reported w' = reported w ++ map (fun r => (id r, count r)) received
    /\ List.length (console w') = (List.length (console w) + List.length received)%nat.
Proof.
  induction received as [|chunk rest IH]; intros total w.
  - exists total, w. cbn. rewrite app_nil_r. auto.
  - cbn [collect]. unfold bind, Println.
    destruct (IH (GoInt.add total (count chunk))
                 (mkWorld (draws w) (wire w)
                    (console w ++ [WorkerLine (id chunk) (count chunk)
                                     (GoInt.add total (count chunk))])))
      as (t & w' & Hrun & Hrep & Hlen).
    exists t, w'. rewrite Hrun, Hrep, Hlen, reported_snoc. cbn [console map List.length].
    rewrite <- app_assoc, length_app. cbn [List.length app]. repeat split; lia.
Qed.

Lemma pair_eta_map (l : list (Z * Z)) : map (fun u => (fst u, snd u)) l = l.
Proof. induction l as [|[a b] l IH]; cbn; [reflexivity | rewrite IH; reflexivity]. Qed.

(** X12. In every run of [fillConcurrent] for a count from 0 to [2^53]
    the collecting loop prints one line for each worker launched and no
    other: whatever the order the reports arrive in, the workers named
    on the lines are the workers 1 to [ceil(count / 1000)], each once,
    and each line shows the quota that worker was launched with. *)
Theorem every_worker_is_reported_once envs fuel total_count finals out :
  0 <= total_count <= float_exact_max ->
  fillConcurrent_run envs fuel total_count finals out ->
  exists w,
    out = Ret total_count w
    /\ Permutation (reported w) (spawn total_count)
    /\ Permutation (map fst (reported w))
                   (Zrange 1 (Z.to_nat (ceil_div total_count interval)))
    /\ List.length (console w) = Z.to_nat (ceil_div total_count interval).
Proof.
  intros Hc Hrun.
  destruct (fillConcurrent_run_spec envs fuel total_count finals out Hc Hrun)
    as (w & Hout & _).
  exists w. split; [exact Hout | ].
  destruct Hrun as [finals received Hruns Hperm].
  destruct (worker_runs_inv envs fuel _ _ (spawn_in_range _ Hc) Hruns) as (Hp & _).
  destruct (collect_reported received 0 w0) as (t & w' & Hcol & Hrep & Hlen).
  rewrite Hcol in Hout. injection Hout as -> ->.
  cbn [reported w0 console flat_map app List.length] in Hrep, Hlen.
  assert (Hperm' : Permutation (reported w) (spawn total_count)).
  { rewrite Hrep.
    rewrite (Permutation_map (fun r => (id r, count r)) Hperm), Hp, map_map.
    cbn [id count]. rewrite pair_eta_map. apply Permutation_refl. }
  split; [exact Hperm' | ].
  assert (Hids : map fst (spawn total_count)
                 = Zrange 1 (Z.to_nat (ceil_div total_count interval))).
  { rewrite spawn_spec, map_map by assumption. cbn [fst]. apply (Zrange_shift _ 0). }
  split.
  - rewrite <- Hids. apply Permutation_map, Hperm'.
  - rewrite Hlen, (Permutation_length Hperm), length_map.
    rewrite <- (length_map fst finals), Hp, length_map, <- (length_map fst), Hids.
    apply Zrange_length.
Qed.

Lemma every_worker_is_reported_once_witness :
  0 <= 2500 <= float_exact_max
  /\ exists finals w,
       fillConcurrent_run (fun _ => env_first_fails) 100 2500 finals (Ret 2500 w)
       /\ Permutation (reported w) [(1, 1000); (2, 1000); (3, 500)].
Proof.
  assert (H : 0 <= 2500 <= float_exact_max) by (unfold float_exact_max; lia).
  split; [exact H | ].
  destruct sample_run as (finals & w & Hrun & _).
  exists finals, w. split; [exact Hrun | ].
  destruct (every_worker_is_reported_once _ _ _ _ _ H Hrun) as (w' & Hout & Hperm & _).
  injection Hout as <-. exact Hperm.
Defined.

Lemma worker_runs_batches (envs : Z -> Env) fuel : forall units finals,
  Forall (fun u => 0 <= snd u <= GoInt.int_max) units ->
  worker_runs envs fuel units finals ->
  map (fun f => batch_sizes (snd f)) finals = map (fun u => worker_sizes (snd u)) units.
Proof.
  intros units finals Hq Hruns. induction Hruns as [|u f units finals Hrun _ IH].
  - reflexivity.
  - inversion Hq as [|? ? Hu Hrest]; subst.
    destruct (fillSection_inv _ _ _ _ _ _ Hu Hrun) as (_ & Hb & _).
    cbn [map]. rewrite Hb, (IH Hrest). reflexivity.
Qed.

Lemma worker_sizes_interval r :
  0 <= r ->
  worker_sizes (interval + r) = repeat sqsBatchSize 100 ++ worker_sizes r.
Proof.
  intros Hr. unfold worker_sizes, interval, sqsBatchSize.
  replace ((1000 + r) / 10) with (100 + r / 10)
    by (replace (1000 + r) with (r + 100 * 10) by lia; rewrite Z.div_add by lia; lia).
  replace ((1000 + r) mod 10) with (r mod 10)
    by (replace (1000 + r) with (r + 100 * 10) by lia; rewrite Z.mod_add by lia; reflexivity).
  rewrite Z2Nat.inj_add by (try apply Z.div_pos; lia).
  rewrite repeat_app, <- app_assoc. reflexivity.
Qed.

Lemma quota_batches count : forall n i,
  (i + Z.of_nat n) * interval < count + interval ->
  count <= (i + Z.of_nat n) * interval ->
  (0 < n)%nat ->
  List.concat (map (fun j => worker_sizes (quota_at count j)) (Zrange i n))
  = worker_sizes (count - i * interval).
Proof.
  induction n as [|n IH]; intros i Hlo Hhi Hn; [lia | ].
  cbn [Zrange map List.concat].
  destruct n as [|n].
  - cbn [Zrange map List.concat]. rewrite app_nil_r. f_equal.
    unfold quota_at, interval in *. lia.
  - rewrite IH by lia.
    replace (quota_at count i) with interval by (unfold quota_at, interval in *; lia).
    replace (worker_sizes interval) with (repeat sqsBatchSize 100) by reflexivity.
    rewrite <- worker_sizes_interval by (unfold interval in *; lia).
    f_equal. unfold interval. lia.
Qed.

(** X13. In every run of [fillConcurrent] for a count from 0 to [2^53]
    the batches of the workers, taken in the order the workers were
    launched, are the batches a single worker would cut the whole count
    into: all of ten messages but at most one, the last batch of the
    last worker.  So the run makes [ceil(count / 10)] calls of
    [SendMessageBatch], as many as the serial mode. *)
Theorem concurrent_batches envs fuel total_count finals out :
  0 <= total_count <= float_exact_max ->
  fillConcurrent_run envs fuel total_count finals out ->
  List.concat (map (fun f => batch_sizes (snd f)) finals) = worker_sizes total_count
  /\ worker_sizes total_count
     = repeat 10 (Z.to_nat (total_count / 10))
       ++ (if total_count mod 10 =? 0 then [] else [total_count mod 10])
  /\ sum (map (fun f => len (wire (snd f))) finals) = batches_needed total_count.
Proof.
  intros Hc Hrun. destruct Hrun as [finals received Hruns Hperm].
  pose proof (worker_runs_batches envs fuel _ _ (spawn_in_range _ Hc) Hruns) as Hb.
  assert (Hcat : List.concat (map (fun f => batch_sizes (snd f)) finals)
                 = worker_sizes total_count).
  { rewrite Hb, spawn_spec, map_map by assumption. cbn [snd].
    destruct (Z.eq_dec total_count 0) as [-> | Hne]; [reflexivity | ].
    destruct (ceil_div_bounds total_count ltac:(lia)) as (Hpos & Hlo & Hhi).
    rewrite (quota_batches total_count _ 0).
    - f_equal. lia.
    - rewrite Z2Nat.id by lia. lia.
    - rewrite Z2Nat.id by lia. lia.
    - lia. }
  split; [exact Hcat | ]. split; [reflexivity | ].
  rewrite <- worker_sizes_length, <- Hcat by lia.
  clear. induction finals as [|f finals IH]; [reflexivity | ].
  cbn [map List.concat sum fold_right]. rewrite length_app, Nat2Z.inj_add.
  unfold sum in IH. rewrite <- IH. unfold len. rewrite batch_sizes_length. reflexivity.
Qed.

Lemma concurrent_batches_witness :
  0 <= 2500 <= float_exact_max
  /\ exists finals w,
       fillConcurrent_run (fun _ => env_first_fails) 100 2500 finals (Ret 2500 w)
       /\ sum (map (fun f => len (wire (snd f))) finals) = 250.
Proof.
  assert (H : 0 <= 2500 <= float_exact_max) by (unfold float_exact_max; lia).
  split; [exact H | ].
  destruct sample_run as (finals & w & Hrun & _).
  exists finals, w. split; [exact Hrun | ].
  destruct (concurrent_batches _ _ _ _ _ H Hrun) as (_ & _ & Hcalls).
  exact Hcalls.
Defined.

(* ------------------------------------------------------------------ *)
(** * The progress lines of the serial mode *)

(** The count left after an iteration is a multiple of 10, so between
    two counts left there is at most the multiple of 1000 just
    reached. *)
Lemma thousands_step c :
  0 < c ->
  let c' := c - serial_first c in
  ceil_div c 1000
  = if c' mod 1000 =? 0 then c' / 1000 + 1 else ceil_div c' 1000.
Proof.
  intros Hc c'.
  pose proof (serial_first_bounds c Hc) as Hf.
  pose proof (serial_first_leaves_multiple c) as Hten. fold c' in Hten.
  unfold sqsBatchSize in *. unfold ceil_div.
  pose proof (Z.div_mod c' 10 ltac:(lia)) as H10.
  pose proof (Z.div_mod c' 1000 ltac:(lia)) as H1000.
  pose proof (Z.mod_pos_bound c' 1000 ltac:(lia)) as Hb.
  assert (Hc' : c = c' + serial_first c) by (subst c'; lia).
  destruct (c' mod 1000 =? 0) eqn:Hm.
  - apply Z.eqb_eq in Hm. symmetry.
    apply (Z.div_unique _ 1000 _ (serial_first c - 1)); lia.
  - apply Z.eqb_neq in Hm.
    assert (Hr : 10 <= c' mod 1000 <= 990) by lia.
    rewrite <- (Z.div_unique (c' + (1000 - 1)) 1000 (c' / 1000 + 1) (c' mod 1000 - 1)) by lia.
    symmetry.
    apply (Z.div_unique _ 1000 _ (c' mod 1000 + serial_first c - 1)); lia.
Qed.

Lemma fillSerially_loop_progress E total :
  total <= GoInt.int_max ->
  forall fuel c w,
    0 <= c <= total ->
    batches_needed c <= Z.of_nat fuel ->
    exists w',
      fillSerially_loop E fuel total c w = Ret 0 w'
      /\ progress w' = progress w ++ countdown total (Z.to_nat (ceil_div c 1000)).
Proof.
  intros Hmax. induction fuel as [|fuel IH]; intros c w Hc Hfuel.
  - assert (c = 0) as ->.
    { destruct (Z.eq_dec c 0) as [|Hne]; [assumption | ].
      pose proof (batches_needed_pos c). lia. }
    exists w. rewrite fillSerially_loop_done by lia. cbn. rewrite app_nil_r. auto.
  - destruct (Z.eq_dec c 0) as [-> | Hne].
    + exists w. rewrite fillSerially_loop_done by lia. cbn. rewrite app_nil_r. auto.
    + cbn [fillSerially_loop].
      destruct (c >? 0) eqn:Hgt; [ | rewrite Z.gtb_ltb in Hgt; apply Z.ltb_ge in Hgt; lia].
      destruct (fillSerially_body_spec E total c w) as (batch & Hlen & _ & Hbody);
        [lia | assumption | ].
      unfold bind. rewrite Hbody.
      pose proof (serial_first_bounds c ltac:(lia)) as Hb.
      pose proof (batches_needed_serial_step c ltac:(lia)) as Hstep.
      pose proof (thousands_step c ltac:(lia)) as Hth. cbv zeta in Hth.
      rewrite <- Hlen in Hstep, Hb, Hth.
      edestruct (IH (c - len batch)) as (w' & Hrun & Hp);
        [ | | exists w'; split; [exact Hrun | ] ].
      * lia.
      * lia.
      * rewrite Hp, Hth. unfold progress at 1. cbn [console].
        rewrite !flat_map_app, <- !app_assoc. fold (progress w). f_equal.
        replace (flat_map _ (if send_fails E (wire w) batch then [ErrLine] else []))
          with (@nil Z) by (destruct (send_fails E (wire w) batch); reflexivity).
        cbn [app].
        destruct ((c - len batch) mod 1000 =? 0) eqn:Hm.
        -- apply Z.eqb_eq in Hm.
           assert (Hdiv : 0 <= (c - len batch) / 1000) by (apply Z.div_pos; lia).
           replace (Z.to_nat ((c - len batch) / 1000 + 1))
             with (S (Z.to_nat ((c - len batch) / 1000))) by lia.
           cbn [countdown flat_map app]. f_equal.
           ++ pose proof (Z.div_mod (c - len batch) 1000 ltac:(lia)). lia.
           ++ f_equal. f_equal. unfold ceil_div.
              symmetry. apply (Z.div_unique _ 1000 _ 999).
              ** lia.
              ** pose proof (Z.div_mod (c - len batch) 1000 ltac:(lia)). lia.
        -- reflexivity.
Qed.

(** X14. The serial mode prints a progress line whenever the count left
    is a multiple of 1000, also after a failed call, and the line shows
    what has gone out so far.  So for a count [n > 0] it prints
    [ceil(n / 1000)] lines, and they show [n] less the multiples of 1000
    below [n], the largest first: the first line comes after the
    messages in excess of a multiple of 1000, not after the first 1000,
    and the last line shows [n]. *)
Theorem serial_progress_lines E fuel n :
  0 < n <= GoInt.int_max ->
  batches_needed n <= Z.of_nat fuel ->
  exists w,
    fillSerially E fuel n w0 = Ret 0 w
    /\ progress w = countdown n (Z.to_nat (ceil_div n 1000))
    /\ Z.of_nat (List.length (progress w)) = ceil_div n 1000
    /\ hd 0 (progress w) = (n - 1) mod 1000 + 1
    /\ last (progress w) 0 = n.
Proof.
  intros Hn Hfuel.
  destruct (fillSerially_loop_progress E n ltac:(lia) fuel n w0 ltac:(lia) Hfuel)
    as (w & Hrun & Hp).
  exists w. split; [exact Hrun | ].
  cbn [progress w0 console flat_map app] in Hp. rewrite Hp.
  assert (Hlen : forall t m, List.length (countdown t m) = m).
  { induction m as [|m IHm]; cbn; [reflexivity | rewrite IHm; reflexivity]. }
  assert (Hlast : forall t m, (0 < m)%nat -> last (countdown t m) 0 = t).
  { induction m as [|m IHm]; intros Hm; [lia | ].
    destruct m as [|m]; [cbn; lia | ].
    change (last (countdown t (S (S m))) 0) with (last (countdown t (S m)) 0).
    apply IHm. lia. }
  assert (Hceil : 0 < ceil_div n 1000).
  { unfold ceil_div. apply Z.div_str_pos. lia. }
  split; [reflexivity | ]. split; [rewrite Hlen; lia | ]. split.
  - destruct (Z.to_nat (ceil_div n 1000)) as [|m] eqn:Hm; [lia | ].
    cbn [countdown hd].
    assert (Hmz : Z.of_nat m = ceil_div n 1000 - 1) by lia.
    rewrite Hmz. unfold ceil_div.
    pose proof (Z.div_mod (n - 1) 1000 ltac:(lia)).
    replace (n + (1000 - 1)) with ((n - 1) + 1 * 1000) by lia.
    rewrite Z.div_add by lia. lia.
  - apply Hlast. lia.
Qed.

Lemma serial_progress_lines_witness :
  0 < 2500 <= GoInt.int_max
  /\ batches_needed 2500 <= Z.of_nat 250
  /\ exists w,
       fillSerially env_first_fails 250 2500 w0 = Ret 0 w
       /\ progress w = [500; 1500; 2500].
Proof.
  assert (H1 : 0 < 2500 <= GoInt.int_max) by (unfold GoInt.int_max; lia).
  assert (H2 : batches_needed 2500 <= Z.of_nat 250) by (vm_compute; discriminate).
  split; [exact H1 | ]. split; [exact H2 | ].
  destruct (serial_progress_lines env_first_fails 250 2500 H1 H2) as (w & Hrun & Hp & _).
  exists w. split; [exact Hrun | ]. rewrite Hp. reflexivity.
Defined.

(* ------------------------------------------------------------------ *)
(** * sqsattr: the lists of names *)

Lemma Split_nonempty s : Sqsattr.Split s <> [].
Proof.
  destruct s as [|c s]; cbn; [discriminate | ].
  destruct (Ascii.eqb c ","); [discriminate | ].
  destruct (Sqsattr.Split s); discriminate.
Qed.

Lemma Join_cons piece rest :
  rest <> [] -> Sqsattr.Join (piece :: rest) = (piece ++ String "," (Sqsattr.Join rest))%string.
Proof. destruct rest; [congruence | reflexivity]. Qed.

Lemma Join_Split s : Sqsattr.Join (Sqsattr.Split s) = s.
Proof.
  induction s as [|c s IH]; [reflexivity | ].
  cbn [Sqsattr.Split]. destruct (Ascii.eqb_spec c ",") as [-> | Hc].
  - rewrite Join_cons by apply Split_nonempty. rewrite IH. reflexivity.
  - pose proof (Split_nonempty s) as Hne.
    destruct (Sqsattr.Split s) as [|piece pieces]; [congruence | ].
    destruct pieces as [|p pieces].
    + cbn in IH |- *. rewrite IH. reflexivity.
    + rewrite Join_cons in IH |- * by discriminate.
      cbn [String.append]. rewrite IH. reflexivity.
Qed.

Lemma Split_pieces s : Forall (fun piece => occurs "," piece = false) (Sqsattr.Split s).
Proof.
  induction s as [|c s IH]; [repeat constructor | ].
  cbn [Sqsattr.Split]. destruct (Ascii.eqb c ",") eqn:Hc.
  - constructor; [reflexivity | exact IH].
  - destruct (Sqsattr.Split s) as [|piece pieces].
    + repeat constructor. cbn. rewrite Hc. reflexivity.
    + inversion IH as [|? ? Hp Hrest]; subst. constructor; [ | exact Hrest].
      cbn. rewrite Hc, Hp. reflexivity.
Qed.

Lemma Split_without_comma s : occurs "," s = false -> Sqsattr.Split s = [s].
Proof.
  induction s as [|c s IH]; [reflexivity | ].
  cbn. intros H. apply Bool.orb_false_iff in H. destruct H as (Hc & Hs).
  rewrite Hc, (IH Hs). reflexivity.
Qed.

Lemma Split_Join : forall pieces,
  pieces <> [] ->
  Forall (fun piece => occurs "," piece = false) pieces ->
  Sqsattr.Split (Sqsattr.Join pieces) = pieces.
Proof.
  assert (Happ : forall a b : string,
             occurs "," a = false ->
             Sqsattr.Split (a ++ String "," b) = a :: Sqsattr.Split b).
  { induction a as [|c a IH]; intros b Ha; [reflexivity | ].
    cbn in Ha. apply Bool.orb_false_iff in Ha. destruct Ha as (Hc & Ha).
    cbn [String.append Sqsattr.Split]. rewrite Hc, (IH b Ha). reflexivity. }
  induction pieces as [|piece rest IH]; intros Hne Hall; [congruence | ].
  inversion Hall as [|? ? Hp Hrest]; subst.
  destruct rest as [|p rest].
  - cbn. apply Split_without_comma, Hp.
  - rewrite Join_cons by discriminate. rewrite Happ by exact Hp.
    rewrite IH by (discriminate || exact Hrest). reflexivity.
Qed.

(** X15. [init] of sqsattr cuts the values of [-q] and [-a] at every
    comma.  The list it gets is never empty, an empty value gives the
    one name [""], and a value without a comma, as the defaults are,
    gives itself; no name has a comma in it; joining the names with
    commas gives the value back, and cutting what was joined from names
    without commas gives the names back. *)
Theorem Split_round_trip s :
  Sqsattr.Split s <> []
  /\ Sqsattr.Join (Sqsattr.Split s) = s
  /\ Forall (fun piece => occurs "," piece = false) (Sqsattr.Split s)
  /\ (occurs "," s = false -> Sqsattr.Split s = [s])
  /\ (forall pieces,
         pieces <> [] ->
         Forall (fun piece => occurs "," piece = false) pieces ->
         Sqsattr.Split (Sqsattr.Join pieces) = pieces)
  /\ Sqsattr.Split "" = [""%string]
  /\ Sqsattr.Split Sqsattr.defqueue = [Sqsattr.defqueue]
  /\ Sqsattr.Split Sqsattr.defattr = [Sqsattr.defattr].
Proof.
  split; [apply Split_nonempty | ]. split; [apply Join_Split | ].
  split; [apply Split_pieces | ]. split; [apply Split_without_comma | ].
  split; [apply Split_Join | ]. repeat split; reflexivity.
Qed.

Lemma Split_round_trip_witness :
  Sqsattr.Split "jobs,,mail" = ["jobs"; ""; "mail"]%string
  /\ Sqsattr.Split (Sqsattr.Join ["jobs"; ""; "mail"]%string) = ["jobs"; ""; "mail"]%string.
Proof.
  destruct (Split_round_trip "jobs,,mail") as (_ & _ & _ & _ & Hsj & _).
  split; [reflexivity | ].
  apply Hsj; [discriminate | repeat constructor].
Defined.

(* ------------------------------------------------------------------ *)
(** * sqsattr: the lines *)

Section SqsattrFacts.

Context {Queue : Type}.
Variable service : Sqsattr.Service Queue.

Lemma attrs_loop_done qn q : forall attrs calls out calls' out',
  Sqsattr.attrs_loop service qn q attrs calls out = Sqsattr.Done calls' out' ->
  exists chunk,
    out' = out ++ chunk
    /\ Forall2 (fun an line =>
                  (exists err, line = Sqsattr.AttributeError an qn err)
                  \/ (exists name value, line = Sqsattr.Attribute qn name value))
               attrs chunk
    /\ calls' = (calls + List.length attrs)%nat.
Proof.
  induction attrs as [|an rest IH]; intros calls out calls' out' H.
  - cbn in H. injection H as <- <-. exists []. rewrite app_nil_r.
    repeat split; [constructor | cbn; lia].
  - cbn [Sqsattr.attrs_loop] in H.
    destruct (Sqsattr.GetQueueAttributes service calls q an) as [a | err].
    + destruct a as [|[name value] a]; [discriminate | ].
      destruct (IH _ _ _ _ H) as (chunk & -> & Hall & ->).
      exists (Sqsattr.Attribute qn name value :: chunk).
      rewrite <- app_assoc. split; [reflexivity | ].
      split; [constructor; [right; eauto | exact Hall] | cbn; lia].
    + destruct (IH _ _ _ _ H) as (chunk & -> & Hall & ->).
      exists (Sqsattr.AttributeError an qn err :: chunk).
      rewrite <- app_assoc. split; [reflexivity | ].
      split; [constructor; [left; eauto | exact Hall] | cbn; lia].
Qed.

Lemma queues_loop_done attrs : forall queues calls out calls' out',
  Sqsattr.queues_loop service attrs queues calls out = Sqsattr.Done calls' out' ->
  exists chunks,
    out' = out ++ List.concat chunks
    /\ Forall2 (lines_of_queue attrs) queues chunks
    /\ (calls + List.length queues <= calls')%nat
    /\ (calls' <= calls + List.length queues * (1 + List.length attrs))%nat.
Proof.
  induction queues as [|qn rest IH]; intros calls out calls' out' H.
  - cbn in H. injection H as <- <-. exists []. cbn. rewrite app_nil_r.
    repeat split; [constructor | lia | lia].
  - cbn [Sqsattr.queues_loop] in H.
    destruct (Sqsattr.GetQueue service calls qn) as [q | err].
    + destruct (Sqsattr.attrs_loop service qn q attrs (S calls) out)
        as [c1 o1 | | ] eqn:Hinner; try discriminate.
      destruct (attrs_loop_done qn q _ _ _ _ _ Hinner) as (chunk & -> & Hall & ->).
      destruct (IH _ _ _ _ H) as (chunks & -> & Hrest & Hlo & Hhi).
      exists (chunk :: chunks). cbn [List.concat List.length].
      rewrite <- app_assoc. split; [reflexivity | ].
      split; [constructor; [right; exact Hall | exact Hrest] | ]. lia.
    + destruct (IH _ _ _ _ H) as (chunks & -> & Hrest & Hlo & Hhi).
      exists ([Sqsattr.QueueError qn err] :: chunks). cbn [List.concat List.length app].
      rewrite <- app_assoc. split; [reflexivity | ].
      split; [constructor; [left; eauto | exact Hrest] | ]. lia.
Qed.

(** X16. When [main] of sqsattr returns, what it printed is, queue after
    queue in the order of [-q], one line for a queue the service could
    not give, or else one line for each attribute in the order of [-a],
    the value or the error: an error never hides the queues and the
    attributes after it.  The service was called at least once per
    queue and at most once per queue and once per queue and
    attribute. *)
Theorem main_prints_every_queue queues attrs calls out :
  Sqsattr.main service queues attrs = Sqsattr.Done calls out ->
  exists chunks,
    out = List.concat chunks
    /\ Forall2 (lines_of_queue attrs) queues chunks
    /\ (List.length queues <= calls <= List.length queues * (1 + List.length attrs))%nat.
Proof.
  unfold Sqsattr.main. destruct (Sqsattr.GetAuth service); [ | discriminate].
  intros H. destruct (queues_loop_done attrs _ _ _ _ _ H) as (chunks & -> & Hall & Hlo & Hhi).
  exists chunks. split; [reflexivity | ]. split; [exact Hall | lia].
Qed.

Lemma attrs_loop_not_exited qn q : forall attrs calls out status out',
  Sqsattr.attrs_loop service qn q attrs calls out <> Sqsattr.Exited status out'.
Proof.
  induction attrs as [|an rest IH]; intros calls out status out'; cbn; [discriminate | ].
  destruct (Sqsattr.GetQueueAttributes service calls q an) as [[|[name value] a] | err];
    [discriminate | apply IH | apply IH].
Qed.

Lemma queues_loop_not_exited attrs : forall queues calls out status out',
  Sqsattr.queues_loop service attrs queues calls out <> Sqsattr.Exited status out'.
Proof.
  induction queues as [|qn rest IH]; intros calls out status out'; cbn; [discriminate | ].
  destruct (Sqsattr.GetQueue service calls qn) as [q | err]; [ | apply IH].
  destruct (Sqsattr.attrs_loop service qn q attrs (S calls) out) eqn:Hinner;
    [apply IH | | discriminate].
  exfalso. exact (attrs_loop_not_exited _ _ _ _ _ _ _ Hinner).
Qed.

Lemma attrs_loop_no_panic qn q :
  (forall n q' an, Sqsattr.GetQueueAttributes service n q' an <> Got []) ->
  forall attrs calls out calls' out',
    Sqsattr.attrs_loop service qn q attrs calls out <> Sqsattr.Panicked calls' out'.
Proof.
  intros Hne. induction attrs as [|an rest IH]; intros calls out calls' out'; cbn;
    [discriminate | ].
  pose proof (Hne calls q an) as Hq.
  destruct (Sqsattr.GetQueueAttributes service calls q an) as [[|[name value] a] | err];
    [congruence | apply IH | apply IH].
Qed.

Lemma queues_loop_no_panic attrs :
  (forall n q an, Sqsattr.GetQueueAttributes service n q an <> Got []) ->
  forall queues calls out calls' out',
    Sqsattr.queues_loop service attrs queues calls out <> Sqsattr.Panicked calls' out'.
Proof.
  intros Hne. induction queues as [|qn rest IH]; intros calls out calls' out'; cbn;
    [discriminate | ].
  destruct (Sqsattr.GetQueue service calls qn) as [q | err]; [ | apply IH].
  destruct (Sqsattr.attrs_loop service qn q attrs (S calls) out) eqn:Hinner;
    [apply IH | discriminate | ].
  exfalso. exact (attrs_loop_no_panic qn q Hne _ _ _ _ _ Hinner).
Qed.

Lemma attrs_loop_panicked qn q : forall attrs calls out calls' out',
  Sqsattr.attrs_loop service qn q attrs calls out = Sqsattr.Panicked calls' out' ->
  exists asked an later lines,
    attrs = asked ++ an :: later
    /\ Forall2 (line_of_attribute qn) asked lines
    /\ out' = out ++ lines
    /\ calls' = S (calls + List.length asked)
    /\ Sqsattr.GetQueueAttributes service (calls + List.length asked) q an = Got [].
Proof.
  induction attrs as [|an rest IH]; intros calls out calls' out' H; [discriminate | ].
  cbn [Sqsattr.attrs_loop] in H.
  destruct (Sqsattr.GetQueueAttributes service calls q an) as [a | err] eqn:Ha.
  - destruct a as [|[name value] a].
    + injection H as <- <-. exists [], an, rest, [].
      cbn [List.length app]. rewrite app_nil_r, Nat.add_0_r.
      repeat split; [constructor | exact Ha].
    + destruct (IH _ _ _ _ H) as (asked & an' & later & lines & -> & Hall & -> & -> & Hempty).
      exists (an :: asked), an', later, (Sqsattr.Attribute qn name value :: lines).
      cbn [List.length app]. rewrite <- app_assoc, Nat.add_succ_r in *.
      repeat split; [constructor; [right; eauto | exact Hall] | exact Hempty].
  - destruct (IH _ _ _ _ H) as (asked & an' & later & lines & -> & Hall & -> & -> & Hempty).
    exists (an :: asked), an', later, (Sqsattr.AttributeError an qn err :: lines).
    cbn [List.length app]. rewrite <- app_assoc, Nat.add_succ_r in *.
    repeat split; [constructor; [left; eauto | exact Hall] | exact Hempty].
Qed.

Lemma queues_loop_panicked attrs : forall queues calls out calls' out',
  Sqsattr.queues_loop service attrs queues calls out = Sqsattr.Panicked calls' out' ->
  exists before qn after chunks c q asked an later lines,
    queues = before ++ qn :: after
    /\ Forall2 (lines_of_queue attrs) before chunks
    /\ Sqsattr.GetQueue service c qn = Got q
    /\ attrs = asked ++ an :: later
    /\ Forall2 (line_of_attribute qn) asked lines
    /\ out' = out ++ List.concat chunks ++ lines
    /\ (0 < calls')%nat
    /\ Sqsattr.GetQueueAttributes service (calls' - 1) q an = Got [].
Proof.
  induction queues as [|qn rest IH]; intros calls out calls' out' H; [discriminate | ].
  cbn [Sqsattr.queues_loop] in H.
  destruct (Sqsattr.GetQueue service calls qn) as [q | err] eqn:Hq.
  - destruct (Sqsattr.attrs_loop service qn q attrs (S calls) out)
      as [c1 o1 | | c1 o1] eqn:Hinner; try discriminate.
    + destruct (attrs_loop_done qn q _ _ _ _ _ Hinner) as (chunk & -> & Hall & ->).
      destruct (IH _ _ _ _ H)
        as (before & qn' & after & chunks & c & q' & asked & an & later & lines
            & -> & Hbefore & Hq' & Hattrs & Hlines & -> & Hpos & Hempty).
      exists (qn :: before), qn', after, (chunk :: chunks), c, q', asked, an, later, lines.
      cbn [List.concat app]. rewrite <- !app_assoc.
      repeat split; auto. constructor; [right; exact Hall | exact Hbefore].
    + injection H as <- <-.
      destruct (attrs_loop_panicked qn q _ _ _ _ _ Hinner)
        as (asked & an & later & lines & Hattrs & Hlines & -> & -> & Hempty).
      exists [], qn, rest, [], calls, q, asked, an, later, lines.
      cbn [List.concat app].
      replace (S (S calls + List.length asked) - 1)%nat
        with (S calls + List.length asked)%nat by lia.
      repeat split; auto; try constructor; lia.
  - destruct (IH _ _ _ _ H)
      as (before & qn' & after & chunks & c & q' & asked & an & later & lines
          & -> & Hbefore & Hq' & Hattrs & Hlines & -> & Hpos & Hempty).
    exists (qn :: before), qn', after, ([Sqsattr.QueueError qn err] :: chunks),
           c, q', asked, an, later, lines.
    cbn [List.concat app]. rewrite <- !app_assoc.
    repeat split; auto. constructor; [left; eauto | exact Hbefore].
Qed.

(** X17. [main] of sqsattr leaves through [os.Exit], with status 1 and
    the one line of [check], exactly when the credentials cannot be
    had, and then nothing else is printed.  It panics only on an answer
    that carries no attribute and no error: if the service gives none
    such, [main] does not panic; and when it panics, the call before
    was one for an attribute of a queue the service gave, answered in
    that way, and what was printed is the lines of the queues before
    that queue and of the attributes asked of it before that one,
    nothing for the answer itself and nothing after.  In particular,
    when the first queue is given and the first answer about it is of
    that kind, [main] panics having printed nothing. *)
Theorem main_exit_and_panic queues attrs :
  (forall status out,
      Sqsattr.main service queues attrs = Sqsattr.Exited status out
      <-> exists err, Sqsattr.GetAuth service = Failed err
                      /\ status = 1 /\ out = [Sqsattr.Error err])
  /\ ((forall n q an, Sqsattr.GetQueueAttributes service n q an <> Got []) ->
      forall calls out, Sqsattr.main service queues attrs <> Sqsattr.Panicked calls out)
  /\ (forall calls out,
         Sqsattr.main service queues attrs = Sqsattr.Panicked calls out ->
         exists before qn after chunks c q asked an later lines,
           queues = before ++ qn :: after
           /\ Forall2 (lines_of_queue attrs) before chunks
           /\ Sqsattr.GetQueue service c qn = Got q
           /\ attrs = asked ++ an :: later
           /\ Forall2 (line_of_attribute qn) asked lines
           /\ out = List.concat chunks ++ lines
           /\ (0 < calls)%nat
           /\ Sqsattr.GetQueueAttributes service (calls - 1) q an = Got [])
  /\ (forall u qn rest q an others,
         Sqsattr.GetAuth service = Got u ->
         queues = qn :: rest -> attrs = an :: others ->
         Sqsattr.GetQueue service 0 qn = Got q ->
         Sqsattr.GetQueueAttributes service 1 q an = Got [] ->
         Sqsattr.main service queues attrs = Sqsattr.Panicked 2 []).
Proof.
  unfold Sqsattr.main. split; [ | split; [ | split]].
  - intros status out. destruct (Sqsattr.GetAuth service) as [u | err].
    + split; [intros H | intros (err & H & _); discriminate].
      exfalso. exact (queues_loop_not_exited _ _ _ _ _ _ H).
    + split.
      * intros [= <- <-]. exists err. auto.
      * intros (err' & [= <-] & -> & ->). reflexivity.
  - intros Hne calls out. destruct (Sqsattr.GetAuth service); [ | discriminate].
    apply queues_loop_no_panic, Hne.
  - intros calls out. destruct (Sqsattr.GetAuth service); [ | discriminate].
    intros H. exact (queues_loop_panicked attrs _ _ _ _ _ H).
  - intros u qn rest q an others -> -> -> Hq Ha. cbn. rewrite Hq. cbn. rewrite Ha.
    reflexivity.
Qed.

End SqsattrFacts.

Lemma main_prints_every_queue_witness :
  Sqsattr.run sample_service "jobs,nope,mail" "Size,Age"
  = Sqsattr.Done 7
      [Sqsattr.Attribute "jobs" "Size" "7"; Sqsattr.Attribute "jobs" "Age" "7";
       Sqsattr.QueueError "nope" "no such queue";
       Sqsattr.Attribute "mail" "Size" "7"; Sqsattr.Attribute "mail" "Age" "7"]%string
  /\ exists chunks,
       Forall2 (lines_of_queue ["Size"; "Age"]%string) ["jobs"; "nope"; "mail"]%string chunks
       /\ List.length (List.concat chunks) = 5%nat.
Proof.
  assert (H : Sqsattr.run sample_service "jobs,nope,mail" "Size,Age"
              = Sqsattr.Done 7
                  [Sqsattr.Attribute "jobs" "Size" "7"; Sqsattr.Attribute "jobs" "Age" "7";
                   Sqsattr.QueueError "nope" "no such queue";
                   Sqsattr.Attribute "mail" "Size" "7";
                   Sqsattr.Attribute "mail" "Age" "7"]%string) by reflexivity.
  split; [exact H | ].
  destruct (main_prints_every_queue sample_service _ _ _ _ H) as (chunks & Hout & Hall & _).
  exists chunks. split; [exact Hall | ]. rewrite <- Hout. reflexivity.
Defined.

Lemma main_exit_and_panic_witness :
  Sqsattr.run empty_service "jobs" Sqsattr.defattr = Sqsattr.Panicked 2 []
  /\ Sqsattr.run ageless_service "nope,jobs,mail" "Size,Age"
     = Sqsattr.Panicked 4 [Sqsattr.QueueError "nope" "no such queue";
                           Sqsattr.Attribute "jobs" "Size" "7"]%string
  /\ exists before qn after,
       ["nope"; "jobs"; "mail"]%string = before ++ qn :: after
       /\ Sqsattr.GetQueueAttributes ageless_service 3 qn "Age" = Got [].
Proof.
  destruct (main_exit_and_panic empty_service (Sqsattr.Split "jobs")
              (Sqsattr.Split Sqsattr.defattr)) as (_ & _ & _ & Hfirst).
  assert (Hrun : Sqsattr.main ageless_service (Sqsattr.Split "nope,jobs,mail")
                   (Sqsattr.Split "Size,Age")
                 = Sqsattr.Panicked 4 [Sqsattr.QueueError "nope" "no such queue";
                                       Sqsattr.Attribute "jobs" "Size" "7"]%string)
    by reflexivity.
  destruct (main_exit_and_panic ageless_service (Sqsattr.Split "nope,jobs,mail")
              (Sqsattr.Split "Size,Age")) as (_ & _ & Hpanic & _).
  split; [ | split; [exact Hrun | ]].
  - apply (Hfirst tt "jobs"%string [] "jobs"%string Sqsattr.defattr []); reflexivity.
  - destruct (Hpanic _ _ Hrun)
      as (before & qn & after & chunks & c & q & asked & an & later & lines
          & Hqueues & _ & _ & _ & _ & _ & _ & _).
    exists before, qn, after. split; [exact Hqueues | reflexivity].
Defined.

(* ------------------------------------------------------------------ *)
(** * From the flags to the queue *)

Lemma init_ready_globals {Svc Queue : Type} (S : Startup.Services Svc Queue) f g :
  Startup.init S (Startup.Parsed f) = Startup.Ready g ->
  Startup.g_count g = Startup.count f
  /\ Startup.g_serialMode g = Startup.serialMode f.
Proof.
  unfold Startup.init.
  destruct (Startup.EnvAuth S); [ | discriminate].
  destruct (_ || _)%bool; [discriminate | ].
  destruct (_ && _)%bool; [discriminate | ].
  destruct (if negb _ then _ else _); [ | discriminate].
  destruct (Startup.NewFrom S _ _ _); [ | discriminate].
  destruct (Startup.GetQueue S _ _); [ | discriminate].
  intros [= <-]. split; reflexivity.
Qed.

Lemma streamed_bodies E w :
  streamed E w ->
  Forall (fun m => Body m = (MessageId m ++ " " ++ msgBodyTmpl E)%string) (stream w).
Proof.
  unfold streamed. intros ->. apply Forall_forall. intros m Hm.
  apply in_map_iff in Hm. destruct Hm as (k & <- & _). apply message_at_body.
Qed.

Lemma worker_runs_bodies (envs : Z -> Env) fuel tmpl :
  (forall i, msgBodyTmpl (envs i) = tmpl) ->
  forall units finals,
    Forall (fun u => 0 <= snd u <= GoInt.int_max) units ->
    worker_runs envs fuel units finals ->
    List.length finals = List.length units
    /\ Forall (fun w => Forall (fun m => Body m = (MessageId m ++ " " ++ tmpl)%string)
                               (stream w))
              (map snd finals).
Proof.
  intros Htmpl units finals Hq Hruns.
  induction Hruns as [|u f units finals Hrun _ IH]; [split; [reflexivity | constructor] | ].
  inversion Hq as [|? ? Hu Hrest]; subst.
  destruct (IH Hrest) as (Hlen & Hall).
  destruct (fillSection_final _ _ _ _ _ _ Hu Hrun) as (_ & _ & _ & _ & _ & Hst).
  cbn [List.length map]. split; [congruence | ].
  constructor; [ | exact Hall].
  rewrite <- (Htmpl (fst u)). apply streamed_bodies, Hst.
Qed.

(** X18. From the flags to the queue.  When [init] has returned and the
    count of [-c] is between 0 and [float_exact_max], [main] has a run in
    the mode [-serial] chooses, and every run hands the queue, over the
    threads that call it, exactly as many messages as [-c] says: from
    one thread in serial mode, from one worker per started thousand
    otherwise.  With the template that [init] left, the body of each of
    these messages is its identifier, a space and that template. *)
Theorem main_sends_what_the_flags_ask {Svc Queue : Type}
  (S : Startup.Services Svc Queue) (f : Startup.Flags) (g : Startup.Globals Queue)
  (envs : Z -> Env) (fuel : nat) :
  Startup.init S (Startup.Parsed f) = Startup.Ready g ->
  0 <= Startup.count f <= float_exact_max ->
  (forall i, msgBodyTmpl (envs i) = Startup.g_msgBodyTmpl g) ->
  batches_needed (if Startup.serialMode f then Startup.count f
                  else Z.min interval (Startup.count f)) <= Z.of_nat fuel ->
  (exists worlds, main_run envs fuel g worlds)
  /\ forall worlds,
       main_run envs fuel g worlds ->
       sum (map submitted worlds) = Startup.count f
       /\ List.length worlds
          = (if Startup.serialMode f then 1%nat
             else Z.to_nat (ceil_div (Startup.count f) interval))
       /\ Forall (fun w =>
                    Forall (fun m => Body m = (MessageId m ++ " "
                                               ++ Startup.g_msgBodyTmpl g)%string)
                           (stream w))
                 worlds.
Proof.
  intros Hinit Hc Htmpl Hfuel.
  destruct (init_ready_globals S f g Hinit) as (Hcount & Hmode).
  pose proof (float_exact_in_range _ (proj2 Hc)) as Hmax.
  destruct (Startup.serialMode f) eqn:Hserial.
  - destruct (fillSerially_returns (envs 0) fuel (Startup.count f) ltac:(lia) Hfuel)
      as (w & Hrun & Hb & _ & _ & Hst & _).
    split.
    + exists [w]. apply (Main_serial envs fuel g 0 w); [exact Hmode | ].
      rewrite Hcount. exact Hrun.
    + intros worlds Hmain. destruct Hmain as [left w' _ Hrun' | finals out Hm _];
        [ | congruence].
      rewrite Hcount, Hrun in Hrun'. injection Hrun' as _ <-.
      cbn [map sum fold_right List.length]. unfold submitted.
      rewrite Hb, serial_sizes_sum by lia.
      split; [lia | ]. split; [reflexivity | ].
      constructor; [ | constructor].
      rewrite <- (Htmpl 0). apply streamed_bodies, Hst.
  - split.
    + destruct (fillConcurrent_run_exists envs fuel (Startup.count f) Hc Hfuel)
        as (finals & _ & Hrun).
      exists (map snd finals).
      apply (Main_concurrent envs fuel g finals (collect (map fst finals) 0 w0));
        [exact Hmode | ].
      rewrite Hcount. apply Hrun, Permutation_refl.
    + intros worlds Hmain. destruct Hmain as [left w' Hm _ | finals out _ Hrun];
        [congruence | ].
      rewrite Hcount in Hrun.
      destruct (fillConcurrent_run_spec envs fuel _ finals out Hc Hrun)
        as (w & _ & _ & _ & _ & Hsub & _).
      rewrite map_map. split; [exact Hsub | ].
      destruct Hrun as [finals received Hruns _].
      destruct (worker_runs_bodies envs fuel _ Htmpl _ _
                  (spawn_in_range _ Hc) Hruns) as (Hlen & Hall).
      split; [ | exact Hall].
      rewrite length_map, Hlen, (spawn_spec _ Hc), length_map, Zrange_length.
      reflexivity.
Qed.

Lemma main_sends_what_the_flags_ask_witness :
  (exists worlds,
      main_run (fun _ => env_ok) 100
        (Startup.mkGlobals false 1000 "us-west-1" "us-west-1/jobs" "Message_Body")%string
        worlds)
  /\ forall worlds,
       main_run (fun _ => env_ok) 100
         (Startup.mkGlobals false 1000 "us-west-1" "us-west-1/jobs" "Message_Body")%string
         worlds ->
       sum (map submitted worlds) = 1000 /\ List.length worlds = 1%nat.
Proof.
  assert (Hc : 0 <= Startup.count sample_flags <= float_exact_max)
    by (split; vm_compute; discriminate).
  assert (Hfuel : batches_needed (if Startup.serialMode sample_flags
                                  then Startup.count sample_flags
                                  else Z.min interval (Startup.count sample_flags))
                  <= Z.of_nat 100) by (vm_compute; discriminate).
  destruct (main_sends_what_the_flags_ask sample_services sample_flags
              (Startup.mkGlobals false 1000 "us-west-1" "us-west-1/jobs"
                                 "Message_Body")%string
              (fun _ => env_ok) 100 eq_refl Hc (fun _ => eq_refl) Hfuel)
    as (Hex & Hall).
  split; [exact Hex | ].
  intros worlds Hrun. destruct (Hall worlds Hrun) as (Hsum & Hlen & _).
  split; [exact Hsum | exact Hlen].
Defined.
